(** * AuditAI course planner: prerequisite evaluation, scheduling, validation

    A shallow embedding of the planning core of [frontend/src/App.jsx]:
    [evaluatePrereqTree], [prereqsMet], [getCoursesBeforeSemester],
    [getSemesterCredits], [generateLocalSchedule] (with its inner
    [getEarliestSemester]), [generateLocalAnalysis], [loadCourses] and
    [degreeProgress], followed by the properties the specification states
    about them.

    Conventions of the embedding.
    - A JS [Set] of course codes is a [gset string]; only [has] and [add]
      are used on it by the code.
    - The catalog [allCourses] and the planner state [semesterPlan] are JS
      objects whose iteration order ([Object.entries], [Object.values]) the
      code relies on, so both are association lists in insertion order
      ([JsObj]); [obj[key]] is [objGet], [obj[key] = v] is [objSet].  Course
      codes and semester ids are never integer-like keys, for which JS
      orders differently.
    - JS numbers that hold credits, difficulties and counts are integers
      ([Z] or [nat]); professor ratings are decimals and are kept as
      rationals ([Q]). *)

From Stdlib Require Import ZArith QArith Lia Ascii String.
From stdpp Require Import base strings gmap list.

Set Warnings "-register-all".

Local Open Scope string_scope.
Local Open Scope list_scope.

(** ** Data model *)

(** A node of [prereqs_structured].  The code dispatches on [node.type];
    [NodeNull] is a falsy node ([null]/[undefined]) and [NodeOther] an object
    whose [type] is none of ['COURSE'], ['AND'], ['OR'].  A missing
    [requirements] array is the empty list, as [node.requirements || []]
    reads it. *)
Inductive PrereqNode : Type :=
  | NodeNull
  | NodeCourse (code : string)
  | NodeAnd (requirements : list PrereqNode)
  | NodeOr (requirements : list PrereqNode)
  | NodeOther.

Record Professor : Type := mkProfessor {
  prof_name : string;
  rating : Q
}.

(** An entry of [allCourses].  A missing [prereqs] or [professors] array is
    the empty list; a missing [credits] or [difficulty] is [0], which is
    falsy exactly like [undefined] in [x || 3]; a missing [required] is
    [false]; a missing or [null] [prereqs_structured] is [None]. *)
Record CourseInfo : Type := mkCourse {
  name : string;
  prereqs : list string;
  prereqs_structured : option PrereqNode;
  credits : Z;
  category : string;
  difficulty : Z;
  required : bool;
  professors : list Professor
}.

(** A JS object with string keys, in insertion order. *)
Abbreviation JsObj V := (list (string * V)).

(** [obj[key]]; [None] is [undefined]. *)
Fixpoint objGet {V} (obj : JsObj V) (key : string) : option V :=
  match obj with
  | [] => None
  | (k, v) :: rest => if decide (k = key) then Some v else objGet rest key
  end.

(** [obj[key] = v]: an existing key keeps its position, a new key goes
    last. *)
Fixpoint objSet {V} (obj : JsObj V) (key : string) (v : V) : JsObj V :=
  match obj with
  | [] => [(key, v)]
  | (k, w) :: rest =>
      if decide (k = key) then (k, v) :: rest else (k, w) :: objSet rest key v
  end.

(** [{ ...a, ...b }] *)
Definition objSpread {V} (a b : JsObj V) : JsObj V :=
  foldl (λ o e, objSet o e.1 e.2) a b.

(** [Object.values(obj)] *)
Definition objValues {V} (obj : JsObj V) : list V := snd <$> obj.

Abbreviation Catalog := (JsObj CourseInfo).
Abbreviation Plan := (JsObj (list string)).

(** [allCourses[code]] *)
Definition lookupCourse (allCourses : Catalog) (code : string)
  : option CourseInfo :=
  objGet allCourses code.

(** [x || 3] on a number *)
Definition orThree (x : Z) : Z := if (x =? 0)%Z then 3%Z else x.

(** [allCourses[c]?.credits || 3] *)
Definition creditsOf (allCourses : Catalog) (c : string) : Z :=
  match lookupCourse allCourses c with
  | Some info => orThree (credits info)
  | None => 3%Z
  end.

(** [allCourses[c]?.difficulty || 3] *)
Definition difficultyOf (allCourses : Catalog) (c : string) : Z :=
  match lookupCourse allCourses c with
  | Some info => orThree (difficulty info)
  | None => 3%Z
  end.

Record Semester : Type := mkSemester {
  sem_id : string;
  sem_name : string;
  sem_year : nat;
  sem_term : string
}.

Definition SEMESTERS : list Semester :=
  [ mkSemester "fall1" "Fall Y1" 1 "Fall";
    mkSemester "spring1" "Spr Y1" 1 "Spring";
    mkSemester "fall2" "Fall Y2" 2 "Fall";
    mkSemester "spring2" "Spr Y2" 2 "Spring";
    mkSemester "fall3" "Fall Y3" 3 "Fall";
    mkSemester "spring3" "Spr Y3" 3 "Spring";
    mkSemester "fall4" "Fall Y4" 4 "Fall";
    mkSemester "spring4" "Spr Y4" 4 "Spring" ].

Definition EMPTY_PLAN : Plan :=
  [ ("fall1", []); ("spring1", []); ("fall2", []); ("spring2", []);
    ("fall3", []); ("spring3", []); ("fall4", []); ("spring4", []) ].

(** [semesterPlan[id] || []] *)
Definition planOf (semesterPlan : Plan) (id : string) : list string :=
  default [] (objGet semesterPlan id).

(** ** Requirement evaluator *)

(** [SEMESTERS.findIndex(s => s.id === semesterId)]; [None] is [-1]. *)
Definition semIndexOf (semesterId : string) : option nat :=
  fst <$> list_find (λ s, sem_id s = semesterId) SEMESTERS.

(** [courses.forEach(c => taken.add(c))] *)
Definition addAll (taken : gset string) (courses : list string) : gset string :=
  foldl (λ t c, {[c]} ∪ t) taken courses.

(** [getCoursesBeforeSemester]: with [semIndex = -1] the loop body never
    runs, which is the same as running it over no semester. *)
Definition getCoursesBeforeSemester
    (semesterPlan : Plan)
    (completedCodes inProgressCodes : gset string)
    (semesterId : string) : gset string :=
  let taken := completedCodes ∪ inProgressCodes in
  let semIndex := default 0 (semIndexOf semesterId) in
  foldl (λ t sem, addAll t (planOf semesterPlan (sem_id sem)))
        taken (take semIndex SEMESTERS).

(** [evaluatePrereqTree]: [every] is [forallb], [some] is [existsb]. *)
Fixpoint evaluatePrereqTree (node : PrereqNode) (takenSet : gset string) : bool :=
  match node with
  | NodeNull => true
  | NodeCourse code => bool_decide (code ∈ takenSet)
  | NodeAnd requirements =>
      forallb (λ r, evaluatePrereqTree r takenSet) requirements
  | NodeOr requirements =>
      existsb (λ r, evaluatePrereqTree r takenSet) requirements
  | NodeOther => true
  end.

(** [prereqsMet].  [if (info.prereqs_structured)] is a truthiness test, so a
    [null] tree takes the flat-list branch. *)
Definition prereqsMet
    (allCourses : Catalog)
    (semesterPlan : Plan)
    (completedCodes inProgressCodes : gset string)
    (code semesterId : string) : bool :=
  match lookupCourse allCourses code with
  | None => true
  | Some info =>
      let taken :=
        getCoursesBeforeSemester semesterPlan completedCodes inProgressCodes
                                 semesterId in
      match prereqs_structured info with
      | Some NodeNull | None =>
          forallb (λ p, bool_decide (p ∈ taken)) (prereqs info)
      | Some tree => evaluatePrereqTree tree taken
      end
  end.

(** [getSemesterCredits] *)
Definition getSemesterCredits
    (allCourses : Catalog) (semesterPlan : Plan)
    (semesterId : string) : Z :=
  foldl (λ sum code, (sum + creditsOf allCourses code)%Z) 0%Z
        (planOf semesterPlan semesterId).

(** ** The evaluator on a node graph

    [prereqs_structured] is a graph of JS objects: a node's [requirements]
    holds references, which may be shared or, in a malformed value, point
    back to an ancestor.  [NodeHeap] maps an address to the object stored
    there; an address with no object is a [null] reference.  An inductive
    [PrereqNode] is the special case of a finite unshared tree. *)
Inductive NodeObj : Type :=
  | ObjCourse (code : string)
  | ObjAnd (requirements : list nat)
  | ObjOr (requirements : list nat)
  | ObjOther.

Abbreviation NodeHeap := (gmap nat NodeObj).

(** [arr.every(f)] and [arr.some(f)] for a callback that may fail to
    return: the callback runs left to right and stops at the first [false]
    (resp. [true]); a call that does not return takes the whole
    expression with it. *)
Fixpoint everyM {A} (f : A → option bool) (l : list A) : option bool :=
  match l with
  | [] => Some true
  | x :: rest =>
      match f x with
      | None => None
      | Some false => Some false
      | Some true => everyM f rest
      end
  end.

Fixpoint someM {A} (f : A → option bool) (l : list A) : option bool :=
  match l with
  | [] => Some false
  | x :: rest =>
      match f x with
      | None => None
      | Some true => Some true
      | Some false => someM f rest
      end
  end.

(** [evaluatePrereqTree] on a reference, with [depth] nested calls
    available; [None] means the recursion went deeper than that. *)
Fixpoint evaluatePrereqRef (depth : nat) (heap : NodeHeap) (node : nat)
    (takenSet : gset string) : option bool :=
  match depth with
  | O => None
  | S d =>
      match heap !! node with
      | None => Some true
      | Some (ObjCourse code) => Some (bool_decide (code ∈ takenSet))
      | Some (ObjAnd requirements) =>
          everyM (λ r, evaluatePrereqRef d heap r takenSet) requirements
      | Some (ObjOr requirements) =>
          someM (λ r, evaluatePrereqRef d heap r takenSet) requirements
      | Some ObjOther => Some true
      end
  end.

(** The reference [r] of [heap] unfolds to the finite tree [t]. *)
Inductive Unfolds (heap : NodeHeap) : nat → PrereqNode → Prop :=
  | unfolds_null r :
      heap !! r = None → Unfolds heap r NodeNull
  | unfolds_course r code :
      heap !! r = Some (ObjCourse code) → Unfolds heap r (NodeCourse code)
  | unfolds_and r rs ts :
      heap !! r = Some (ObjAnd rs) →
      Forall2 (Unfolds heap) rs ts → Unfolds heap r (NodeAnd ts)
  | unfolds_or r rs ts :
      heap !! r = Some (ObjOr rs) →
      Forall2 (Unfolds heap) rs ts → Unfolds heap r (NodeOr ts)
  | unfolds_other r :
      heap !! r = Some ObjOther → Unfolds heap r NodeOther.

(** Number of nested calls [evaluatePrereqTree] makes on a tree. *)
Fixpoint height (node : PrereqNode) : nat :=
  match node with
  | NodeAnd requirements | NodeOr requirements =>
      S (foldr (λ r acc, height r `max` acc) 0 requirements)
  | _ => 1
  end.

(** A node object that refers to itself: [n = {type: 'AND'}; n.requirements = [n]]. *)
Definition selfLoopHeap : NodeHeap := {[ 0 := ObjAnd [0] ]}.

(** ** Scheduler *)

Record Preferences : Type := mkPreferences {
  balanced : bool;
  bestProfessors : bool
}.

Definition mandatoryCategories : list string :=
  ["cs_core"; "math_core"; "math_discrete"; "stats"; "science"].

(** The [Object.entries(allCourses).forEach] that fills [toPlace]. *)
Definition collectToPlace (allCourses : Catalog) (alreadyTaken : gset string)
  : list string :=
  (foldl (λ (acc : list string * gset string) (e : string * CourseInfo),
            let '(toPlace, addedToPlace) := acc in
            let '(code, info) := e in
            if bool_decide (code ∉ alreadyTaken)
               && bool_decide (code ∉ addedToPlace)
            then
              if required info
                 || bool_decide (category info ∈ mandatoryCategories)
              then (toPlace ++ [code], {[code]} ∪ addedToPlace)
              else acc
            else acc)
         ([], ∅) allCourses).1.

(** The inner loop of [getEarliestSemester]: the first index [i] below
    [SEMESTERS.length] with [placedBySemester[i]?.includes(prereq)];
    [None] is [prereqSem = -1]. *)
Definition findPrereqSem (placedBySemester : list (list string))
    (prereq : string) : option nat :=
  fst <$> list_find (λ sem, prereq ∈ sem)
                    (take (length SEMESTERS) placedBySemester).

(** The [for (const prereq of prereqs)] loop; [None] is the early
    [return -1]. *)
Fixpoint earliestLoop (alreadyTaken : gset string)
    (placedBySemester : list (list string))
    (prereqs : list string) (minSemester : nat) : option nat :=
  match prereqs with
  | [] => Some minSemester
  | prereq :: rest =>
      if bool_decide (prereq ∈ alreadyTaken)
      then earliestLoop alreadyTaken placedBySemester rest minSemester
      else
        match findPrereqSem placedBySemester prereq with
        | None => None
        | Some prereqSem =>
            earliestLoop alreadyTaken placedBySemester rest
                         (minSemester `max` (prereqSem + 1))
        end
  end.

(** [getEarliestSemester]; [None] is the result [-1].  The test
    [prereqs.length === 0] returns what the loop over no prerequisite
    returns. *)
Definition getEarliestSemester (allCourses : Catalog)
    (alreadyTaken : gset string) (code : string)
    (placedBySemester : list (list string)) : option nat :=
  match lookupCourse allCourses code with
  | None => Some 0
  | Some info =>
      match prereqs info with
      | [] => Some 0
      | prereqs => earliestLoop alreadyTaken placedBySemester prereqs 0
      end
  end.

(** [placedBySemester[semIdx].reduce((s, c) => s + (allCourses[c]?.credits || 3), 0)] *)
Definition semCreditsOf (allCourses : Catalog) (sem : list string) : Z :=
  foldl (λ s c, (s + creditsOf allCourses c)%Z) 0%Z sem.

(** [sem.filter(c => (allCourses[c]?.difficulty || 3) >= 4)] *)
Definition hardCoursesOf (allCourses : Catalog) (sem : list string)
  : list string :=
  filter (λ c, (4 ≤ difficultyOf allCourses c)%Z) sem.

(** [preferences.balanced ? 15 : 18] *)
Definition maxCreditsOf (preferences : Preferences) : Z :=
  if balanced preferences then 15%Z else 18%Z.

(** The [for (let semIdx = earliestSem; ...)] loop over the indices
    [semIdxs] still to try: the index the course is pushed to ([break]), or
    [None] when the loop ends without placing it. *)
Fixpoint trySemesters (allCourses : Catalog) (preferences : Preferences)
    (code : string) (placedBySemester : list (list string))
    (semIdxs : list nat) : option nat :=
  match semIdxs with
  | [] => None
  | semIdx :: rest =>
      let sem := default [] (placedBySemester !! semIdx) in
      let semCredits := semCreditsOf allCourses sem in
      let maxCredits := maxCreditsOf preferences in
      if bool_decide (semCredits + creditsOf allCourses code ≤ maxCredits)%Z
      then
        if balanced preferences
           && bool_decide (4 ≤ difficultyOf allCourses code)%Z
           && bool_decide (2 ≤ length (hardCoursesOf allCourses sem))%nat
        then trySemesters allCourses preferences code placedBySemester rest
        else Some semIdx
      else trySemesters allCourses preferences code placedBySemester rest
  end.

(** The variables the [while] loop of [generateLocalSchedule] mutates. *)
Record SchedState : Type := mkSched {
  toPlace : list string;
  placedBySemester : list (list string);
  placed : gset string;
  changed : bool;
  passes : nat
}.

(** One iteration of [for (let i = toPlace.length - 1; i >= 0; i--)].
    [toPlace.splice(i, 1)] is [delete i]; [placedBySemester[semIdx].push]
    is [alter] at [semIdx].  The index [i] is always in range (see
    [passLoop_in_range]); out of range the model leaves the state alone. *)
Definition passBody (allCourses : Catalog) (preferences : Preferences)
    (alreadyTaken : gset string) (i : nat) (st : SchedState) : SchedState :=
  match toPlace st !! i with
  | None => st
  | Some code =>
      if bool_decide (code ∈ placed st)
      then mkSched (delete i (toPlace st)) (placedBySemester st) (placed st)
                   (changed st) (passes st)
      else
        match getEarliestSemester allCourses alreadyTaken code
                                  (placedBySemester st) with
        | None => st
        | Some earliestSem =>
            match trySemesters allCourses preferences code
                    (placedBySemester st)
                    (seq earliestSem (length SEMESTERS - earliestSem)) with
            | None => st
            | Some semIdx =>
                mkSched (delete i (toPlace st))
                        (alter (λ sem, sem ++ [code]) semIdx
                               (placedBySemester st))
                        ({[code]} ∪ placed st)
                        true
                        (passes st)
            end
        end
  end.

(** The [for] loop with [i] running from [n - 1] down to [0]. *)
Fixpoint passLoop (allCourses : Catalog) (preferences : Preferences)
    (alreadyTaken : gset string) (n : nat) (st : SchedState) : SchedState :=
  match n with
  | O => st
  | S i =>
      passLoop allCourses preferences alreadyTaken i
               (passBody allCourses preferences alreadyTaken i st)
  end.

(** Every iteration of the [for] loop run from [n] finds its index [i]
    inside [toPlace]. *)
Fixpoint passInRange (allCourses : Catalog) (preferences : Preferences)
    (alreadyTaken : gset string) (n : nat) (st : SchedState) : Prop :=
  match n with
  | O => True
  | S i =>
      is_Some (toPlace st !! i) ∧
      passInRange allCourses preferences alreadyTaken i
                  (passBody allCourses preferences alreadyTaken i st)
  end.

(** One pass: the body of the [while]. *)
Definition onePass (allCourses : Catalog) (preferences : Preferences)
    (alreadyTaken : gset string) (st : SchedState) : SchedState :=
  passLoop allCourses preferences alreadyTaken (length (toPlace st))
           (mkSched (toPlace st) (placedBySemester st) (placed st)
                    false (S (passes st))).

(** [while (changed && passes < 20)], with [fuel] iterations available;
    [None] means the loop was still running when they were used up. *)
Fixpoint whileLoop (allCourses : Catalog) (preferences : Preferences)
    (alreadyTaken : gset string) (fuel : nat) (st : SchedState)
  : option SchedState :=
  if changed st && bool_decide (passes st < 20)%nat
  then
    match fuel with
    | O => None
    | S f =>
        whileLoop allCourses preferences alreadyTaken f
                  (onePass allCourses preferences alreadyTaken st)
    end
  else Some st.

(** The state on entry to the [while]. *)
Definition initialSched (allCourses : Catalog)
    (completedCodes inProgressCodes : gset string) : SchedState :=
  let alreadyTaken := completedCodes ∪ inProgressCodes in
  mkSched (collectToPlace allCourses alreadyTaken)
          ((λ _, []) <$> SEMESTERS)
          alreadyTaken true 0.

(** [SEMESTERS.forEach((sem, idx) => { newPlan[sem.id] = placedBySemester[idx] })]
    on [newPlan = { ...EMPTY_PLAN }]. *)
Definition buildPlan (placedBySemester : list (list string)) : Plan :=
  foldl (λ newPlan (e : nat * Semester),
           objSet newPlan (sem_id e.2) (default [] (placedBySemester !! e.1)))
        (objSpread [] EMPTY_PLAN)
        (imap pair SEMESTERS).

(** The [while] loop of [generateLocalSchedule] run from its initial state
    with 20 iterations available. *)
Definition runSchedule (allCourses : Catalog) (preferences : Preferences)
    (completedCodes inProgressCodes : gset string) : option SchedState :=
  whileLoop allCourses preferences (completedCodes ∪ inProgressCodes) 20
            (initialSched allCourses completedCodes inProgressCodes).

(** [generateLocalSchedule]: the plan handed to [setSemesterPlan]. *)
Definition generateLocalSchedule (allCourses : Catalog)
    (preferences : Preferences)
    (completedCodes inProgressCodes : gset string) : option Plan :=
  st ← runSchedule allCourses preferences completedCodes inProgressCodes;
  Some (buildPlan (placedBySemester st)).

(** The planner state the two schedule paths write. *)
Record PlannerState : Type := mkPlanner {
  semesterPlan : Plan;
  autoplanWarnings : list string
}.

(** [generateOptimalSchedule].  [backend] is the answer of the [/auto-plan]
    request when it came back with [success] and a [plan] (with its
    [warnings], empty when absent), and [None] when the request failed or
    was declined, in which case the local algorithm runs. *)
Definition generateOptimalSchedule (allCourses : Catalog)
    (preferences : Preferences)
    (completedCodes inProgressCodes : gset string)
    (backend : option (Plan * list string))
    (st : PlannerState) : option PlannerState :=
  let st := mkPlanner (semesterPlan st) [] in
  match backend with
  | Some (plan, warnings) =>
      Some (mkPlanner plan
              (if bool_decide (0 < length warnings)%nat then warnings
               else autoplanWarnings st))
  | None =>
      plan ← generateLocalSchedule allCourses preferences
                                   completedCodes inProgressCodes;
      Some (mkPlanner plan (autoplanWarnings st))
  end.

(** ** Plan validator *)

(** The messages [generateLocalAnalysis] pushes are template strings; each
    constructor stands for one template and holds the interpolated values. *)
Inductive Issue : Type :=
  | IssueTooHeavy (semName : string) (credits : Z)
      (* `${sem.name}: ${credits} credits is too heavy` *)
  | IssueDifficult (semName : string) (count : nat)
      (* `${sem.name}: ${hardCourses.length} difficult courses together` *)
  | IssueMissingPrereqs (code : string).
      (* `${code}: Missing prerequisites` *)

Inductive Positive : Type :=
  | PositiveBalanced (semName : string) (credits : Z)
  | PositiveProfessor (code profName : string) (rating : Q).

Inductive Suggestion : Type :=
  | SuggestDatabases
  | SuggestAI.

Record Analysis : Type := mkAnalysis {
  overallScore : Z;
  issues : list Issue;
  suggestions : list Suggestion;
  positives : list Positive
}.

(** [allPlannedCourses] *)
Definition allPlannedCourses (semesterPlan : Plan) : gset string :=
  foldl addAll ∅ (objValues semesterPlan).

(** The body of [SEMESTERS.forEach] in [generateLocalAnalysis], on the pair
    of arrays [(issues, positives)]. *)
Definition analyzeSemester (allCourses : Catalog) (semesterPlan : Plan)
    (completedCodes inProgressCodes : gset string)
    (acc : list Issue * list Positive) (sem : Semester)
  : list Issue * list Positive :=
  let '(issues, positives) := acc in
  let courses := planOf semesterPlan (sem_id sem) in
  let credits := getSemesterCredits allCourses semesterPlan (sem_id sem) in
  let issues :=
    if bool_decide (18 < credits)%Z
    then issues ++ [IssueTooHeavy (sem_name sem) credits] else issues in
  let positives :=
    if bool_decide (15 ≤ credits)%Z && bool_decide (credits ≤ 16)%Z
    then positives ++ [PositiveBalanced (sem_name sem) credits]
    else positives in
  let hardCourses := hardCoursesOf allCourses courses in
  let issues :=
    if bool_decide (3 ≤ length hardCourses)%nat
    then issues ++ [IssueDifficult (sem_name sem) (length hardCourses)]
    else issues in
  let issues :=
    foldl (λ issues code,
             if prereqsMet allCourses semesterPlan completedCodes
                           inProgressCodes code (sem_id sem)
             then issues
             else issues ++ [IssueMissingPrereqs code])
          issues courses in
  (issues, positives).

(** [professors.sort((a, b) => b.rating - a.rating)]: a stable sort by
    descending rating. *)
Fixpoint insertByRating (p : Professor) (sorted : list Professor)
  : list Professor :=
  match sorted with
  | [] => [p]
  | q :: rest =>
      if Qle_bool (rating q) (rating p) then p :: q :: rest
      else q :: insertByRating p rest
  end.

Definition sortByRating (professors : list Professor) : list Professor :=
  foldr insertByRating [] professors.

(** The [if (preferences.bestProfessors)] block. *)
Definition professorPositives (allCourses : Catalog) (semesterPlan : Plan)
    (positives : list Positive) : list Positive :=
  foldl (λ positives code,
           match lookupCourse allCourses code with
           | None => positives
           | Some info =>
               match head (sortByRating (professors info)) with
               | None => positives
               | Some bestProf =>
                   if Qle_bool (43 # 10) (rating bestProf)
                   then positives ++
                        [PositiveProfessor code (prof_name bestProf)
                                           (rating bestProf)]
                   else positives
               end
           end)
        positives (concat (objValues semesterPlan)).

(** [generateLocalAnalysis] *)
Definition generateLocalAnalysis (allCourses : Catalog)
    (preferences : Preferences) (semesterPlan : Plan)
    (completedCodes inProgressCodes : gset string) : Analysis :=
  let '(issues, positives) :=
    foldl (analyzeSemester allCourses semesterPlan completedCodes
                           inProgressCodes)
          ([], []) SEMESTERS in
  let positives :=
    if bestProfessors preferences
    then professorPositives allCourses semesterPlan positives
    else positives in
  let planned := allPlannedCourses semesterPlan in
  let suggestions :=
    if bool_decide ("CS 4604" ∉ planned)
       && bool_decide ("CS 4604" ∉ completedCodes)
    then [SuggestDatabases] else [] in
  let suggestions :=
    if bool_decide ("CS 4804" ∉ planned)
       && bool_decide ("CS 4804" ∉ completedCodes)
    then suggestions ++ [SuggestAI] else suggestions in
  mkAnalysis
    (Z.max 0 (Z.min 100
       (100 - Z.of_nat (length issues) * 12
            + Z.of_nat (length positives) * 5)))%Z
    issues suggestions positives.

(** What one semester adds to [issues] and to [positives], in the order
    [generateLocalAnalysis] pushes it. *)
Definition semesterIssues (allCourses : Catalog) (semesterPlan : Plan)
    (completedCodes inProgressCodes : gset string) (sem : Semester)
  : list Issue :=
  let courses := planOf semesterPlan (sem_id sem) in
  let credits := getSemesterCredits allCourses semesterPlan (sem_id sem) in
  let hardCourses := hardCoursesOf allCourses courses in
  (if bool_decide (18 < credits)%Z
   then [IssueTooHeavy (sem_name sem) credits] else [])
  ++ (if bool_decide (3 ≤ length hardCourses)%nat
      then [IssueDifficult (sem_name sem) (length hardCourses)] else [])
  ++ (IssueMissingPrereqs <$>
        filter (λ code, prereqsMet allCourses semesterPlan completedCodes
                          inProgressCodes code (sem_id sem) = false)
               courses).

Definition semesterPositives (allCourses : Catalog) (semesterPlan : Plan)
    (sem : Semester) : list Positive :=
  let credits := getSemesterCredits allCourses semesterPlan (sem_id sem) in
  if bool_decide (15 ≤ credits)%Z && bool_decide (credits ≤ 16)%Z
  then [PositiveBalanced (sem_name sem) credits] else [].

(** ** Catalog loader *)

(** A course record of the [/courses] response, with the fields
    [loadCourses] reads and the [prereqs_structured] field it does not.
    Missing arrays are empty, missing numbers [0], a missing string empty. *)
Record ApiCourse : Type := mkApiCourse {
  api_code : string;
  api_name : string;
  api_prereqs : list string;
  api_prereqs_structured : option PrereqNode;
  api_credits : Z;
  api_category : string;
  api_difficulty : Z;
  api_required_for : list string;
  api_professors : list Professor
}.

(** The object literal [loadCourses] stores under [course.code]. *)
Definition convertCourse (course : ApiCourse) : CourseInfo :=
  mkCourse (api_name course)
           (api_prereqs course)
           None
           (orThree (api_credits course))
           (api_category course)
           (orThree (api_difficulty course))
           (bool_decide ("cs_major" ∈ api_required_for course))
           (api_professors course).

(** [loadCourses] as a function from the previous [allCourses] to the next;
    [response] is [data.courses] of an [ok] response, [None] when the request
    failed. *)
Definition loadCourses (response : option (list ApiCourse)) (prev : Catalog)
  : Catalog :=
  match response with
  | None => prev
  | Some courses =>
      let coursesObj :=
        foldl (λ o course, objSet o (api_code course) (convertCourse course))
              [] courses in
      if bool_decide (0 < length coursesObj)%nat
      then objSpread (objSpread [] prev) coursesObj
      else prev
  end.

(** ** Degree progress aggregator *)

Definition REQ_cs_core : list string :=
  ["CS 1114"; "CS 2114"; "CS 2505"; "CS 2506"; "CS 3114"; "CS 3214"].
Definition systemsOptions : list string := ["CS 4114"; "CS 4254"; "CS 4284"].
Definition REQ_math_core : list string := ["MATH 1225"; "MATH 1226"; "MATH 2114"].
Definition REQ_stats_from : list string := ["STAT 3006"; "STAT 4705"; "STAT 4714"].
Definition REQ_science : list string := ["PHYS 2305"; "PHYS 2306"].
Definition REQ_capstone_from : list string := ["CS 4624"; "CS 4644"; "CS 4974"].

(** [Math.round(num / den * 100)] for integers [num] and [den > 0]: the
    nearest integer, halves rounded up. *)
Definition roundPercent (num den : Z) : Z :=
  ((200 * num + den) / (2 * den))%Z.

(** [code.split(' ')] *)
Fixpoint splitSpace (s : string) : list string :=
  match s with
  | EmptyString => [EmptyString]
  | String a rest =>
      if Ascii.eqb a " "%char then EmptyString :: splitSpace rest
      else match splitSpace rest with
           | [] => [String a EmptyString]
           | piece :: pieces => String a piece :: pieces
           end
  end.

(** White space that [parseInt] skips (the ASCII part of it). *)
Definition isStrWhiteSpace (a : Ascii.ascii) : bool :=
  let n := Ascii.nat_of_ascii a in
  bool_decide (n = 9 ∨ n = 10 ∨ n = 11 ∨ n = 12 ∨ n = 13 ∨ n = 32)%nat.

Fixpoint trimStart (s : string) : string :=
  match s with
  | EmptyString => EmptyString
  | String a rest => if isStrWhiteSpace a then trimStart rest else s
  end.

Definition digitValue (a : Ascii.ascii) : option Z :=
  let n := Z.of_nat (Ascii.nat_of_ascii a) in
  if bool_decide (48 ≤ n ≤ 57)%Z then Some (n - 48)%Z
  else if bool_decide (97 ≤ n ≤ 122)%Z then Some (n - 87)%Z
  else if bool_decide (65 ≤ n ≤ 90)%Z then Some (n - 55)%Z
  else None.

(** The longest prefix of digits of [radix]; [acc] is [None] until a digit
    was read. *)
Fixpoint parseDigits (radix : Z) (s : string) (acc : option Z) : option Z :=
  match s with
  | EmptyString => acc
  | String a rest =>
      match digitValue a with
      | Some d =>
          if bool_decide (d < radix)%Z
          then parseDigits radix rest (Some (default 0 acc * radix + d)%Z)
          else acc
      | None => acc
      end
  end.

(** [parseInt(s)] with no radix argument; [None] is [NaN]. *)
Definition parseInt (s : string) : option Z :=
  let s := trimStart s in
  let '(sign, s) :=
    match s with
    | String "-"%char rest => ((-1)%Z, rest)
    | String "+"%char rest => (1%Z, rest)
    | _ => (1%Z, s)
    end in
  let magnitude :=
    match s with
    | String "0"%char (String "x"%char rest)
    | String "0"%char (String "X"%char rest) =>
        parseDigits 16 rest None
    | _ => parseDigits 10 s None
    end in
  (λ m, sign * m)%Z <$> magnitude.

(** [parseInt(code.split(' ')[1]) >= 3000]; a missing piece is
    [parseInt(undefined)], which is [NaN], and [NaN >= 3000] is false. *)
Definition levelAtLeast3000 (code : string) : bool :=
  match splitSpace code !! 1%nat with
  | None => false
  | Some piece =>
      match parseInt piece with
      | None => false
      | Some n => bool_decide (3000 ≤ n)%Z
      end
  end.

(** The pool of [cs_electives] *)
Definition csElectivesOf (allCourses : Catalog) : list string :=
  fst <$> filter (λ e : string * CourseInfo,
                    category e.2 = "cs_elective"
                    ∨ (String.prefix "CS" e.1 && levelAtLeast3000 e.1 = true))
                 allCourses.

(** [pool.filter(c => completed.has(c))] *)
Definition completedIn (completed : gset string) (pool : list string)
  : list string :=
  filter (λ c, c ∈ completed) pool.

(** [pool.filter(c => planned.has(c) && !completed.has(c))] *)
Definition plannedIn (completed planned : gset string) (pool : list string)
  : list string :=
  filter (λ c, c ∈ planned ∧ c ∉ completed) pool.

(** One requirement bucket of [degreeProgress]: the arrays and the percent
    stored in [progress], and what the bucket adds to [totalRequired],
    [totalCompleted] and [totalPlanned]. *)
Record CategoryProgress : Type := mkCategory {
  cat_completed : list string;
  cat_planned : list string;
  cat_percent : Z;
  addRequired : Z;
  addCompleted : Z;
  addPlanned : Z
}.

Definition len (l : list string) : Z := Z.of_nat (length l).

(** Buckets with an explicit required list: [cs_core], [math_core],
    [science]. *)
Definition requiredListProgress (completed planned : gset string)
    (required : list string) : CategoryProgress :=
  let finished := completedIn completed required in
  let plan := plannedIn completed planned required in
  mkCategory finished plan (roundPercent (len finished) (len required))
             (len required) (len finished) (len plan).

(** [cs_systems]: CS 4104 and one of [systemsOptions]. *)
Definition systemsProgress (completed planned : gset string)
  : CategoryProgress :=
  let systemsCompleted := completedIn completed systemsOptions in
  let systemsPlanned := plannedIn completed planned systemsOptions in
  let has4104 : Z :=
    if bool_decide ("CS 4104" ∈ completed) then 1%Z else 0%Z in
  let plans4104 : Z :=
    if bool_decide ("CS 4104" ∈ planned) && bool_decide ("CS 4104" ∉ completed)
    then 1%Z else 0%Z in
  mkCategory
    ((if bool_decide ("CS 4104" ∈ completed) then ["CS 4104"] else [])
       ++ systemsCompleted)
    ((if bool_decide ("CS 4104" ∈ planned)
         && bool_decide ("CS 4104" ∉ completed) then ["CS 4104"] else [])
       ++ systemsPlanned)
    (roundPercent (has4104 + Z.min 1 (len systemsCompleted)) 2)
    2%Z
    (has4104 + Z.min 1 (len systemsCompleted))%Z
    (plans4104 + (if bool_decide (len systemsCompleted = 0)
                  then Z.min 1 (len systemsPlanned) else 0))%Z.

(** Choose-one buckets: [stats] and [capstone]. *)
Definition chooseOneProgress (completed planned : gset string)
    (from : list string) : CategoryProgress :=
  let finished := completedIn completed from in
  let plan := plannedIn completed planned from in
  mkCategory finished plan
             (if bool_decide (0 < len finished)%Z then 100%Z else 0%Z)
             1%Z
             (Z.min 1 (len finished))
             (if bool_decide (len finished = 0) then Z.min 1 (len plan) else 0)%Z.

(** [cs_electives]: three courses of the elective pool. *)
Definition electivesProgress (allCourses : Catalog)
    (completed planned : gset string) : CategoryProgress :=
  let csElectives := csElectivesOf allCourses in
  let csElecCompleted := completedIn completed csElectives in
  let csElecPlanned := plannedIn completed planned csElectives in
  mkCategory csElecCompleted csElecPlanned
             (roundPercent (Z.min 3 (len csElecCompleted)) 3)
             3%Z
             (Z.min 3 (len csElecCompleted))
             (Z.min (3 - len csElecCompleted) (len csElecPlanned))%Z.

Record OverallProgress : Type := mkOverall {
  ov_percent : Z;
  ov_percentWithPlanned : Z;
  ov_completedCourses : Z;
  ov_plannedCourses : Z;
  ov_totalRequired : Z;
  ov_completedCredits : Z;
  ov_plannedCredits : Z;
  ov_totalCredits : Z;
  ov_remainingCredits : Z
}.

Record DegreeProgress : Type := mkProgress {
  cs_core : CategoryProgress;
  cs_systems : CategoryProgress;
  math_core : CategoryProgress;
  stats : CategoryProgress;
  science : CategoryProgress;
  cs_electives : CategoryProgress;
  capstone : CategoryProgress;
  overall : OverallProgress
}.

(** [[...set].reduce((sum, c) => sum + (allCourses[c]?.credits || 3), 0)] *)
Definition creditsOfSet (allCourses : Catalog) (s : gset string) : Z :=
  foldl (λ sum c, (sum + creditsOf allCourses c)%Z) 0%Z (elements s).

(** [degreeProgress], with [completed = completedCodes] and
    [planned = allPlannedCourses]. *)
Definition degreeProgress (allCourses : Catalog)
    (completed planned : gset string) : DegreeProgress :=
  let core := requiredListProgress completed planned REQ_cs_core in
  let systems := systemsProgress completed planned in
  let math := requiredListProgress completed planned REQ_math_core in
  let stat := chooseOneProgress completed planned REQ_stats_from in
  let sci := requiredListProgress completed planned REQ_science in
  let elec := electivesProgress allCourses completed planned in
  let cap := chooseOneProgress completed planned REQ_capstone_from in
  let buckets := [core; systems; math; stat; sci; elec; cap] in
  let totalRequired := foldl (λ t b, t + addRequired b)%Z 0%Z buckets in
  let totalCompleted := foldl (λ t b, t + addCompleted b)%Z 0%Z buckets in
  let totalPlanned := foldl (λ t b, t + addPlanned b)%Z 0%Z buckets in
  let completedCredits := creditsOfSet allCourses completed in
  let plannedCredits := creditsOfSet allCourses planned in
  mkProgress core systems math stat sci elec cap
    (mkOverall (roundPercent totalCompleted totalRequired)
               (roundPercent (totalCompleted + totalPlanned) totalRequired)
               totalCompleted totalPlanned totalRequired
               completedCredits plannedCredits 120%Z
               (Z.max 0 (120 - completedCredits - plannedCredits))%Z).

(** A catalog with every [prereqs_structured] removed. *)
Definition stripTree (info : CourseInfo) : CourseInfo :=
  mkCourse (name info) (prereqs info) None (credits info) (category info)
           (difficulty info) (required info) (professors info).

Definition stripTrees (allCourses : Catalog) : Catalog :=
  (λ e : string * CourseInfo, (e.1, stripTree e.2)) <$> allCourses.

(** ** The specification's requirement evaluator

    The three-variant requirement tree of the specification and its
    satisfaction relation, stated over a taken-set given as a predicate. *)
Inductive Satisfied (taken : string → Prop) : PrereqNode → Prop :=
  | sat_course code :
      taken code → Satisfied taken (NodeCourse code)
  | sat_and children :
      Forall (Satisfied taken) children → Satisfied taken (NodeAnd children)
  | sat_or children :
      Exists (Satisfied taken) children → Satisfied taken (NodeOr children).

(** A tree built from [COURSE], [AND] and [OR] nodes only. *)
Fixpoint isRequirementTree (node : PrereqNode) : bool :=
  match node with
  | NodeCourse _ => true
  | NodeAnd requirements | NodeOr requirements =>
      forallb isRequirementTree requirements
  | NodeNull | NodeOther => false
  end.

(** The specification's taken-set for a slot: completed, in progress, or
    placed in a slot strictly before it. *)
Definition InTakenSet (semesterPlan : Plan)
    (completedCodes inProgressCodes : gset string) (semesterId : string)
    (c : string) : Prop :=
  c ∈ completedCodes ∨ c ∈ inProgressCodes ∨
  ∃ (i j : nat) (earlier slot : Semester),
    SEMESTERS !! j = Some slot ∧ sem_id slot = semesterId ∧
    (i < j)%nat ∧ SEMESTERS !! i = Some earlier ∧
    c ∈ planOf semesterPlan (sem_id earlier).

(** The prerequisite specification of a course holds of a taken-set: its
    tree when it has one, else every code of the flat list. *)
Definition PrereqSpecSatisfied (taken : string → Prop) (info : CourseInfo)
  : Prop :=
  match prereqs_structured info with
  | Some tree => Satisfied taken tree
  | None => Forall taken (prereqs info)
  end.

(** ** Sample data *)

Definition sampleCourse (prereqs : list string) (tree : option PrereqNode)
    (credits : Z) (category : string) (difficulty : Z) (required : bool)
  : CourseInfo :=
  mkCourse EmptyString prereqs tree credits category difficulty required [].

(** Course X requires [OR(AND(A, B), C)]. *)
Definition treeX : PrereqNode :=
  NodeOr [NodeAnd [NodeCourse "A"; NodeCourse "B"]; NodeCourse "C"].

Definition catalogX : Catalog :=
  [("X", sampleCourse [] (Some treeX) 3 "cs_core" 2 true)].

(** A catalog with a prerequisite 2-cycle: A requires B, B requires A. *)
Definition catalogCycle : Catalog :=
  [("A", sampleCourse ["B"] None 3 "cs_core" 2 true);
   ("B", sampleCourse ["A"] None 3 "cs_core" 2 true)].

(** A chain of flat prerequisites with one four-credit hard course. *)
Definition catalogChain : Catalog :=
  [("CS 1114", sampleCourse [] None 3 "cs_core" 2 true);
   ("CS 2114", sampleCourse ["CS 1114"] None 3 "cs_core" 3 true);
   ("CS 3114", sampleCourse ["CS 2114"] None 4 "cs_core" 4 true);
   ("MATH 1225", sampleCourse [] None 4 "math_core" 3 false)].

(** Course X has its only prerequisite in [prereqs_structured]. *)
Definition catalogTreeOnly : Catalog :=
  [("A", sampleCourse [] None 3 "cs_elective" 2 false);
   ("X", sampleCourse [] (Some (NodeCourse "A")) 3 "cs_core" 2 true)].

(** Five 3-credit courses and one 4-credit course, all in Fall Y1. *)
Definition catalogOverload : Catalog :=
  [("C1", sampleCourse [] None 3 "cs_core" 2 true);
   ("C2", sampleCourse [] None 3 "cs_core" 2 true);
   ("C3", sampleCourse [] None 3 "cs_core" 2 true);
   ("C4", sampleCourse [] None 3 "cs_core" 2 true);
   ("C5", sampleCourse [] None 3 "cs_core" 2 true);
   ("C6", sampleCourse [] None 4 "cs_core" 2 true)].

Definition planOverload : Plan :=
  objSet EMPTY_PLAN "fall1" ["C1"; "C2"; "C3"; "C4"; "C5"; "C6"].

(** Three courses of difficulty 4 or more, one of difficulty 3 and one
    with no difficulty stored, all in Spr Y1 (15 credits). *)
Definition catalogHard : Catalog :=
  [("H1", sampleCourse [] None 3 "cs_core" 4 true);
   ("E1", sampleCourse [] None 3 "cs_core" 3 true);
   ("H2", sampleCourse [] None 3 "cs_core" 5 true);
   ("E2", sampleCourse [] None 3 "cs_core" 0 true);
   ("H3", sampleCourse [] None 3 "cs_core" 4 true)].

Definition planHard : Plan :=
  objSet EMPTY_PLAN "spring1" ["H1"; "E1"; "H2"; "E2"; "H3"].

(** Five courses of the elective pool: three by category and code, one by
    its CS 3000-level code only, one by category only; and three courses
    outside the pool. *)
Definition catalogElectives : Catalog :=
  [("CS 2114", sampleCourse [] None 3 "cs_core" 3 true);
   ("CS 3114", sampleCourse [] None 3 "cs_core" 4 true);
   ("CS 3414", sampleCourse [] None 3 "cs_elective" 3 false);
   ("CS 4114", sampleCourse [] None 3 "cs_elective" 4 false);
   ("MATH 3134", sampleCourse [] None 3 "math" 3 false);
   ("CS 4804", sampleCourse [] None 3 "cs_elective" 3 false);
   ("ECE 2564", sampleCourse [] None 3 "cs_elective" 3 false);
   ("STAT 3006", sampleCourse [] None 3 "math" 3 false)].

(** The whole elective pool of [catalogElectives] and two courses outside
    it. *)
Definition fiveElectives : gset string :=
  {["CS 3114"; "CS 3414"; "CS 4114"; "CS 4804"; "ECE 2564";
    "CS 2114"; "MATH 3134"]}.

(** Two courses of the pool and two outside it. *)
Definition twoElectives : gset string :=
  {["CS 3114"; "ECE 2564"; "CS 2114"; "MATH 3134"]}.



Definition defaultPreferences : Preferences := mkPreferences true false.

(** What the scheduler returns for [catalogTreeOnly] with nothing taken. *)
Definition planTreeOnly : Plan :=
  [("fall1", ["X"]); ("spring1", []); ("fall2", []); ("spring2", []);
   ("fall3", []); ("spring3", []); ("fall4", []); ("spring4", [])].

(** What the scheduler returns for [catalogChain] with nothing taken. *)
Definition planChain : Plan :=
  [("fall1", ["MATH 1225"; "CS 1114"]); ("spring1", ["CS 2114"]);
   ("fall2", ["CS 3114"]); ("spring2", []); ("fall3", []); ("spring3", []);
   ("fall4", []); ("spring4", [])].

(** ** The scheduler's loop invariant

    What holds of [placedBySemester] and [placed] before and after every
    iteration of the loops of [generateLocalSchedule]. *)
Record SchedInv (allCourses : Catalog) (preferences : Preferences)
    (alreadyTaken : gset string) (st : SchedState) : Prop := mkSchedInv {
  inv_length :
    length (placedBySemester st) = length SEMESTERS;
  inv_nodup :
    NoDup (concat (placedBySemester st));
  inv_placed :
    ∀ c, c ∈ concat (placedBySemester st) → c ∈ placed st;
  inv_cap :
    Forall (λ sem, (semCreditsOf allCourses sem ≤ maxCreditsOf preferences)%Z)
           (placedBySemester st);
  inv_order :
    ∀ (i : nat) (sem : list string) (c : string) (info : CourseInfo)
      (p : string),
      placedBySemester st !! i = Some sem → c ∈ sem →
      lookupCourse allCourses c = Some info → p ∈ prereqs info →
      p ∈ alreadyTaken ∨
      ∃ (j : nat) (earlier : list string),
        (j < i)%nat ∧ placedBySemester st !! j = Some earlier ∧ p ∈ earlier
}.

(** ** Plan editing

    The three handlers that edit [semesterPlan] by hand, each as the
    function from the previous plan to the next that it gives to
    [setSemesterPlan]. *)

(** [removeCourse]: [{ ...prev, [semesterId]: prev[semesterId].filter(c => c !== code) }] *)
Definition removeCourse (code semesterId : string) (prev : Plan) : Plan :=
  objSet (objSpread [] prev) semesterId
         (filter (λ c, c ≠ code) (planOf prev semesterId)).

(** [addCourseToSemester]: nothing is set when the course is already
    planned somewhere. *)
Definition addCourseToSemester (code semesterId : string) (prev : Plan)
  : Plan :=
  if bool_decide (code ∈ allPlannedCourses prev) then prev
  else objSet (objSpread [] prev) semesterId
              (planOf prev semesterId ++ [code]).

(** [handleDrop], for the course [code] read from the drag event
    ([EmptyString] when none was found, which is falsy) and the tracked
    [dragSource] ([None] is [null]).  Note that the target array is built
    from [prev], not from [newPlan]. *)
Definition handleDrop (dragSource : option string)
    (code targetSemester : string) (prev : Plan) : Plan :=
  if bool_decide (code = EmptyString) then prev
  else
    let newPlan := objSpread [] prev in
    let newPlan :=
      match dragSource with
      | Some source =>
          if bool_decide (source ≠ EmptyString ∧ source ≠ "library")
          then objSet newPlan source
                      (filter (λ c, c ≠ code) (planOf prev source))
          else newPlan
      | None => newPlan
      end in
    if bool_decide (code ∈ default [] (objGet newPlan targetSemester))
    then newPlan
    else objSet newPlan targetSemester
                (planOf prev targetSemester ++ [code]).

(** ** Prerequisite chain *)

(** The object [getPrereqChain] returns: [{ code, name, prereqs, circular }],
    with a missing [name] as [None] and a missing [circular] as [false]. *)
Inductive PrereqChain : Type :=
  | ChainNode (code : string) (name : option string)
              (prereqs : list PrereqChain) (circular : bool).

Definition chainCode (chain : PrereqChain) : string :=
  match chain with ChainNode code _ _ _ => code end.

Definition chainPrereqs (chain : PrereqChain) : list PrereqChain :=
  match chain with ChainNode _ _ prereqs _ => prereqs end.

Definition chainCircular (chain : PrereqChain) : bool :=
  match chain with ChainNode _ _ _ circular => circular end.

(** Number of nested levels of a chain. *)
Fixpoint chainDepth (chain : PrereqChain) : nat :=
  match chain with
  | ChainNode _ _ prereqs _ =>
      S (foldr (λ p acc, chainDepth p `max` acc) 0%nat prereqs)
  end.

(** [getPrereqChain], with [depth] nested calls available; [None] means
    the recursion went deeper than that.  [visited.add(code)] followed by
    [new Set(visited)] hands every child the set with [code] added. *)
Fixpoint getPrereqChain (depth : nat) (allCourses : Catalog) (code : string)
    (visited : gset string) : option PrereqChain :=
  match depth with
  | O => None
  | S d =>
      if bool_decide (code ∈ visited)
      then Some (ChainNode code None [] true)
      else
        match lookupCourse allCourses code with
        | None => Some (ChainNode code None [] false)
        | Some info =>
            prereqs ← mapM (λ p, getPrereqChain d allCourses p
                                                ({[code]} ∪ visited))
                           (prereqs info);
            Some (ChainNode code (Some (name info)) prereqs false)
        end
  end.

(** [getCoursesRequiring]: the [{ code, name }] pairs of the courses whose
    flat list includes [code]. *)
Definition getCoursesRequiring (allCourses : Catalog) (code : string)
  : list (string * string) :=
  (λ e : string * CourseInfo, (e.1, name e.2))
    <$> filter (λ e : string * CourseInfo, code ∈ prereqs e.2) allCourses.

(** The codes that are keys of the catalog. *)
Definition catalogCodes (allCourses : Catalog) : gset string :=
  list_to_set allCourses.*1.

(** A chain is well flagged below the codes [ancestors]: a node whose
    code is among them is a childless leaf marked circular, every other
    node is unmarked and its children are well flagged below the
    ancestors and itself. *)
Inductive WellFlagged : gset string → PrereqChain → Prop :=
  | flagged_circular ancestors code :
      code ∈ ancestors →
      WellFlagged ancestors (ChainNode code None [] true)
  | flagged_node ancestors code name prereqs :
      code ∉ ancestors →
      Forall (WellFlagged ({[code]} ∪ ancestors)) prereqs →
      WellFlagged ancestors (ChainNode code name prereqs false).

(** ** More of the scheduler's loop invariant *)

(** The test [info.required || [...].includes(info.category)]. *)
Definition isMandatory (info : CourseInfo) : Prop :=
  required info = true ∨ category info ∈ mandatoryCategories.

(** What holds of the scheduler state relative to the list [candidates]
    that [toPlace] starts as. *)
Record SchedTrack (allCourses : Catalog) (preferences : Preferences)
    (alreadyTaken : gset string) (candidates : list string)
    (st : SchedState) : Prop := mkSchedTrack {
  track_hard :
    balanced preferences = true →
    Forall (λ sem, (length (hardCoursesOf allCourses sem) ≤ 2)%nat)
           (placedBySemester st);
  track_placed :
    ∀ c, c ∈ placed st ↔ c ∈ alreadyTaken ∨ c ∈ concat (placedBySemester st);
  track_slots :
    ∀ c, c ∈ concat (placedBySemester st) → c ∈ candidates;
  track_toPlace :
    ∀ c, c ∈ toPlace st → c ∈ candidates;
  track_pending :
    ∀ c, c ∈ candidates →
         c ∈ toPlace st ∨ c ∈ concat (placedBySemester st)
}.

(** A slot admits [code]: the test that guards the [push]. *)
Definition slotAdmits (allCourses : Catalog) (preferences : Preferences)
    (code : string) (sem : list string) : Prop :=
  (semCreditsOf allCourses sem + creditsOf allCourses code
   ≤ maxCreditsOf preferences)%Z ∧
  ¬ (balanced preferences = true ∧
     (4 ≤ difficultyOf allCourses code)%Z ∧
     (2 ≤ length (hardCoursesOf allCourses sem))%nat).

(** An iteration of the [for] loop on [code] would leave it unplaced. *)
Definition blocked (allCourses : Catalog) (preferences : Preferences)
    (alreadyTaken : gset string) (placedBySemester : list (list string))
    (code : string) : Prop :=
  match getEarliestSemester allCourses alreadyTaken code placedBySemester with
  | None => True
  | Some earliestSem =>
      trySemesters allCourses preferences code placedBySemester
                   (seq earliestSem (length SEMESTERS - earliestSem)) = None
  end.

(** ** More sample data *)

Definition samplePlan : Plan :=
  objSet (objSet EMPTY_PLAN "fall1" ["CS 1114"; "MATH 1225"])
         "spring1" ["CS 2114"].

Definition sampleApiCourse (code : string) (credits : Z) : ApiCourse :=
  mkApiCourse code "Loaded" [] (Some (NodeCourse "CS 1114")) credits
              "cs_core" 0 ["cs_major"] [].

(** * Properties *)

(** ** Lists, sets and objects *)

Lemma elem_of_addAll (taken : gset string) (courses : list string) (c : string) :
  c ∈ addAll taken courses ↔ c ∈ taken ∨ c ∈ courses.
Proof.
  unfold addAll. revert taken.
  induction courses as [|x l IH]; intros taken; simpl.
  - rewrite elem_of_nil. tauto.
  - rewrite IH, elem_of_cons, elem_of_union, elem_of_singleton. tauto.
Qed.

Lemma forallb_bool_decide {A} (P : A → Prop) `{∀ x, Decision (P x)} (l : list A) :
  forallb (λ x, bool_decide (P x)) l = true ↔ Forall P l.
Proof.
  induction l as [|x l IH]; simpl.
  - split; [constructor | done].
  - rewrite andb_true_iff, IH, bool_decide_eq_true, Forall_cons. tauto.
Qed.

Lemma objGet_objSet_eq {V} (obj : JsObj V) (key : string) (v : V) :
  objGet (objSet obj key v) key = Some v.
Proof.
  induction obj as [|[k w] rest IH]; simpl.
  - by rewrite decide_True.
  - destruct (decide (k = key)) as [->|Hne]; simpl.
    + by rewrite decide_True.
    + by rewrite decide_False.
Qed.

Lemma objGet_objSet_ne {V} (obj : JsObj V) (key key' : string) (v : V) :
  key ≠ key' → objGet (objSet obj key v) key' = objGet obj key'.
Proof.
  intros Hne. induction obj as [|[k w] rest IH]; simpl.
  - by rewrite decide_False.
  - destruct (decide (k = key)) as [->|Hk]; simpl.
    + by rewrite !decide_False.
    + destruct (decide (k = key')); [done | apply IH].
Qed.

(** Induction on requirement trees, with the hypothesis for every child. *)
Lemma PrereqNode_forall_ind (P : PrereqNode → Prop) :
  P NodeNull →
  (∀ code, P (NodeCourse code)) →
  (∀ rs, Forall P rs → P (NodeAnd rs)) →
  (∀ rs, Forall P rs → P (NodeOr rs)) →
  P NodeOther →
  ∀ node, P node.
Proof.
  intros Hnull Hcourse Hand Hor Hother.
  fix IH 1. intros [|code|rs|rs|].
  - exact Hnull.
  - apply Hcourse.
  - apply Hand. induction rs as [|r rs IHrs]; constructor; [apply IH | exact IHrs].
  - apply Hor. induction rs as [|r rs IHrs]; constructor; [apply IH | exact IHrs].
  - exact Hother.
Qed.

(** ** Requirement evaluator *)

Lemma SEMESTERS_ids_NoDup : NoDup (sem_id <$> SEMESTERS).
Proof. apply (bool_decide_unpack _). vm_compute. exact I. Qed.

(** Membership in the set [getCoursesBeforeSemester] builds. *)
Lemma elem_of_foldl_addAll (semesterPlan : Plan) (sems : list Semester)
    (taken : gset string) (c : string) :
  c ∈ foldl (λ t sem, addAll t (planOf semesterPlan (sem_id sem))) taken sems
  ↔ c ∈ taken ∨ ∃ sem, sem ∈ sems ∧ c ∈ planOf semesterPlan (sem_id sem).
Proof.
  revert taken. induction sems as [|s sems IH]; intros taken; simpl.
  - split; [auto | intros [H | (sem & Hsem & _)]; [done | by apply elem_of_nil in Hsem]].
  - rewrite IH, elem_of_addAll. split.
    + intros [[H | H] | (sem & Hsem & Hc)]; [by left | right | right].
      * exists s. split; [left | done].
      * exists sem. split; [by right | done].
    + intros [H | (sem & Hsem & Hc)]; [by left; left |].
      apply elem_of_cons in Hsem as [-> | Hsem]; [by left; right |].
      right. by exists sem.
Qed.

Lemma semIndexOf_Some (semesterId : string) (j : nat) :
  semIndexOf semesterId = Some j ↔
  ∃ slot, SEMESTERS !! j = Some slot ∧ sem_id slot = semesterId.
Proof.
  unfold semIndexOf. split.
  - intros H. apply fmap_Some in H as ([j' slot] & Hfind & ->).
    apply list_find_Some in Hfind as (Hj & Hid & _). by exists slot.
  - intros (slot & Hj & Hid).
    destruct (list_find (λ s, sem_id s = semesterId) SEMESTERS)
      as [[j' slot']|] eqn:Hfind.
    + apply list_find_Some in Hfind as (Hj' & Hid' & _). simpl. f_equal.
      eapply (NoDup_lookup (sem_id <$> SEMESTERS));
        [apply SEMESTERS_ids_NoDup | | ].
      * rewrite list_lookup_fmap, Hj'. simpl. by rewrite Hid'.
      * rewrite list_lookup_fmap, Hj. simpl. by rewrite Hid.
    + apply list_find_None in Hfind.
      rewrite Forall_forall in Hfind.
      exfalso. apply (Hfind slot); [by eapply list_elem_of_lookup_2 | done].
Qed.

Lemma elem_of_getCoursesBeforeSemester (semesterPlan : Plan)
    (completedCodes inProgressCodes : gset string) (semesterId c : string) :
  c ∈ getCoursesBeforeSemester semesterPlan completedCodes inProgressCodes
        semesterId
  ↔ InTakenSet semesterPlan completedCodes inProgressCodes semesterId c.
Proof.
  unfold getCoursesBeforeSemester, InTakenSet.
  rewrite elem_of_foldl_addAll, elem_of_union. split.
  - intros [[H | H] | (sem & Hsem & Hc)]; [by left | by right; left |].
    right; right.
    apply list_elem_of_lookup in Hsem as [i Hi].
    apply lookup_take_Some in Hi as [Hi Hlt].
    destruct (semIndexOf semesterId) as [j|] eqn:Hj; simpl in Hlt; [|lia].
    apply semIndexOf_Some in Hj as (slot & Hslot & Hid).
    by exists i, j, sem, slot.
  - intros [H | [H | (i & j & earlier & slot & Hslot & Hid & Hlt & Hi & Hc)]];
      [by left; left | by left; right |].
    right. exists earlier. split; [|done].
    assert (semIndexOf semesterId = Some j) as ->
      by (apply semIndexOf_Some; by exists slot).
    simpl. apply list_elem_of_lookup. exists i.
    by apply lookup_take_Some.
Qed.

Lemma evaluatePrereqTree_Satisfied (taken : string → Prop) (T : gset string)
    (tree : PrereqNode) :
  (∀ c, c ∈ T ↔ taken c) →
  isRequirementTree tree = true →
  evaluatePrereqTree tree T = true ↔ Satisfied taken tree.
Proof.
  intros HT. induction tree as [|code|rs IH|rs IH|] using PrereqNode_forall_ind;
    simpl; intros Htree; try done.
  - rewrite bool_decide_eq_true, HT. split; [by constructor | by inversion 1].
  - transitivity (Forall (Satisfied taken) rs);
      [| split; [by constructor | by inversion 1]].
    induction rs as [|r rs IHrs]; simpl.
    + split; [constructor | done].
    + simpl in Htree. apply andb_true_iff in Htree as [Hr Hrs].
      apply Forall_cons in IH as [IHr IH].
      rewrite andb_true_iff, Forall_cons, IHr, IHrs by done. done.
  - transitivity (Exists (Satisfied taken) rs);
      [| split; [by constructor | by inversion 1]].
    induction rs as [|r rs IHrs]; simpl.
    + split; [done | by inversion 1].
    + simpl in Htree. apply andb_true_iff in Htree as [Hr Hrs].
      apply Forall_cons in IH as [IHr IH].
      rewrite orb_true_iff, Exists_cons, IHr, IHrs by done. done.
Qed.

Lemma evaluatePrereqTree_mono (T1 T2 : gset string) (tree : PrereqNode) :
  T1 ⊆ T2 →
  evaluatePrereqTree tree T1 = true → evaluatePrereqTree tree T2 = true.
Proof.
  intros Hsub. induction tree as [|code|rs IH|rs IH|] using PrereqNode_forall_ind;
    simpl; try done.
  - rewrite !bool_decide_eq_true. set_solver.
  - induction IH as [|r rs Hr _ IHrs]; simpl; [done|].
    rewrite !andb_true_iff. intros [H1 H2]. auto.
  - induction IH as [|r rs Hr _ IHrs]; simpl; [done|].
    rewrite !orb_true_iff. intros [H1 | H2]; auto.
Qed.

Lemma prereqsMet_unknown_course (allCourses : Catalog) (semesterPlan : Plan)
    (completedCodes inProgressCodes : gset string) (code semesterId : string) :
  lookupCourse allCourses code = None →
  prereqsMet allCourses semesterPlan completedCodes inProgressCodes
             code semesterId = true.
Proof. intros H. unfold prereqsMet. by rewrite H. Qed.

Lemma prereqsMet_iff (allCourses : Catalog) (semesterPlan : Plan)
    (completedCodes inProgressCodes : gset string) (code semesterId : string)
    (info : CourseInfo) :
  lookupCourse allCourses code = Some info →
  (∀ tree, prereqs_structured info = Some tree →
           isRequirementTree tree = true) →
  prereqsMet allCourses semesterPlan completedCodes inProgressCodes
             code semesterId = true
  ↔ PrereqSpecSatisfied
      (InTakenSet semesterPlan completedCodes inProgressCodes semesterId) info.
Proof.
  intros Hinfo Htree. unfold prereqsMet, PrereqSpecSatisfied. rewrite Hinfo.
  set (T := getCoursesBeforeSemester _ _ _ _).
  assert (∀ c, c ∈ T ↔ InTakenSet semesterPlan completedCodes
                         inProgressCodes semesterId c) as HT
    by (intros c; apply elem_of_getCoursesBeforeSemester).
  destruct (prereqs_structured info) as [tree|] eqn:Hps.
  - specialize (Htree tree eq_refl).
    rewrite <- (evaluatePrereqTree_Satisfied _ T tree HT Htree).
    by destruct tree.
  - rewrite forallb_bool_decide. by setoid_rewrite HT.
Qed.

(** C1. For a course of the catalog whose requirement tree, if any, is
    built of COURSE, AND and OR nodes, [prereqsMet] returns true exactly
    when the course's prerequisite specification holds of the taken-set
    made of [completed], [inProgress] and every course placed in a slot
    strictly before the given one: a COURSE leaf holds iff its code is
    taken, AND iff every child holds, OR iff some child holds, and without
    a tree every code of the flat list must be taken.  For a course
    requiring [OR(AND(A,B), C)] the result is true when C is taken, false
    when only A is, and true when A and B are. *)
Theorem prereqsMet_correct (allCourses : Catalog) (semesterPlan : Plan)
    (completedCodes inProgressCodes : gset string) (code semesterId : string)
    (info : CourseInfo) :
  lookupCourse allCourses code = Some info →
  (∀ tree, prereqs_structured info = Some tree →
           isRequirementTree tree = true) →
  let taken :=
    InTakenSet semesterPlan completedCodes inProgressCodes semesterId in
  let result :=
    prereqsMet allCourses semesterPlan completedCodes inProgressCodes
               code semesterId in
  (result = true ↔ PrereqSpecSatisfied taken info) ∧
  (prereqs_structured info = Some treeX →
     (taken "C" → result = true) ∧
     (taken "A" → ¬ taken "B" → ¬ taken "C" → result = false) ∧
     (taken "A" → taken "B" → result = true)).
Proof.
  intros Hinfo Htree taken result.
  pose proof (prereqsMet_iff allCourses semesterPlan completedCodes
                inProgressCodes code semesterId info Hinfo Htree) as Hiff.
  fold taken result in Hiff. split; [exact Hiff|].
  intros HX. unfold PrereqSpecSatisfied in Hiff. rewrite HX in Hiff.
  unfold treeX in Hiff. repeat split.
  - intros HC. apply Hiff. apply sat_or.
    apply Exists_cons_tl, Exists_cons_hd. by apply sat_course.
  - intros HA HB HC. apply not_true_is_false. rewrite Hiff. intros Hsat.
    inversion Hsat as [| |children Hex]; subst.
    apply Exists_cons in Hex as [Hand | Hex].
    + inversion Hand as [|children Hall|]; subst.
      apply Forall_cons in Hall as [_ Hall].
      apply Forall_cons in Hall as [Hb _]. by inversion Hb.
    + apply Exists_cons in Hex as [Hc | Hex]; [by inversion Hc |].
      by apply Exists_nil in Hex.
  - intros HA HB. apply Hiff. apply sat_or, Exists_cons_hd, sat_and.
    apply Forall_cons_2; [by apply sat_course|].
    apply Forall_cons_2; [by apply sat_course | apply Forall_nil_2].
Qed.

Lemma prereqsMet_correct_witness :
  prereqsMet catalogX EMPTY_PLAN {["A"; "B"]} ∅ "X" "fall1" = true.
Proof.
  assert (lookupCourse catalogX "X"
          = Some (sampleCourse [] (Some treeX) 3 "cs_core" 2 true)) as Hinfo
    by reflexivity.
  pose proof (prereqsMet_correct catalogX EMPTY_PLAN {["A"; "B"]} ∅ "X" "fall1"
                _ Hinfo) as H.
  destruct H as [_ H].
  - intros tree Heq. injection Heq as <-. reflexivity.
  - destruct (H eq_refl) as (_ & _ & H3).
    apply H3; left; apply elem_of_union; [left | right];
      by apply elem_of_singleton.
Defined.

(** The three concrete cases of C1, evaluated. *)
Example prereqsMet_X_taken_C :
  prereqsMet catalogX EMPTY_PLAN {["C"]} ∅ "X" "fall1" = true.
Proof. vm_compute. reflexivity. Qed.

Example prereqsMet_X_taken_A :
  prereqsMet catalogX EMPTY_PLAN {["A"]} ∅ "X" "fall1" = false.
Proof. vm_compute. reflexivity. Qed.

Example prereqsMet_X_taken_A_B :
  prereqsMet catalogX (objSet EMPTY_PLAN "fall1" ["A"]) ∅ {["B"]}
             "X" "spring1" = true.
Proof. vm_compute. reflexivity. Qed.

Lemma getCoursesBeforeSemester_mono (semesterPlan : Plan)
    (completed1 completed2 inProgressCodes : gset string) (semesterId : string) :
  completed1 ⊆ completed2 →
  getCoursesBeforeSemester semesterPlan completed1 inProgressCodes semesterId
  ⊆ getCoursesBeforeSemester semesterPlan completed2 inProgressCodes semesterId.
Proof.
  intros Hsub c. rewrite !elem_of_getCoursesBeforeSemester.
  unfold InTakenSet. intros [H | [H | H]]; [left | by right; left | by right; right].
  by apply Hsub.
Qed.

(** C7. With the course, the slot, the plan and [inProgress] fixed, a
    larger [completed] set never turns a true [prereqsMet] into false. *)
Theorem prereqsMet_monotone (allCourses : Catalog) (semesterPlan : Plan)
    (completed1 completed2 inProgressCodes : gset string)
    (code semesterId : string) :
  completed1 ⊆ completed2 →
  prereqsMet allCourses semesterPlan completed1 inProgressCodes
             code semesterId = true →
  prereqsMet allCourses semesterPlan completed2 inProgressCodes
             code semesterId = true.
Proof.
  intros Hsub. unfold prereqsMet.
  destruct (lookupCourse allCourses code) as [info|]; [|done].
  pose proof (getCoursesBeforeSemester_mono semesterPlan completed1 completed2
                inProgressCodes semesterId Hsub) as HT.
  set (T1 := getCoursesBeforeSemester _ completed1 _ _) in *.
  set (T2 := getCoursesBeforeSemester _ completed2 _ _) in *.
  assert (forallb (λ p, bool_decide (p ∈ T1)) (prereqs info) = true →
          forallb (λ p, bool_decide (p ∈ T2)) (prereqs info) = true) as Hflat.
  { rewrite !forallb_bool_decide. intros H.
    eapply Forall_impl; [exact H|]. intros p. apply HT. }
  destruct (prereqs_structured info) as [tree|]; [|exact Hflat].
  destruct tree; try exact Hflat; by apply evaluatePrereqTree_mono.
Qed.

Lemma prereqsMet_monotone_witness :
  prereqsMet catalogX EMPTY_PLAN {["C"; "A"]} ∅ "X" "fall1" = true.
Proof.
  apply (prereqsMet_monotone catalogX EMPTY_PLAN {["C"]} {["C"; "A"]} ∅
                             "X" "fall1").
  - apply union_subseteq_l.
  - vm_compute. reflexivity.
Defined.

(** ** The evaluator on node graphs *)

Lemma height_le_fold (ts : list PrereqNode) :
  Forall (λ t, height t ≤ foldr (λ r acc, height r `max` acc) 0 ts)%nat ts.
Proof.
  induction ts as [|t ts IH]; constructor; simpl; [lia|].
  eapply Forall_impl; [exact IH|]. simpl. intros; lia.
Qed.

Lemma everyM_forallb {A B} (f : A → option bool) (g : B → bool)
    (l : list A) (k : list B) :
  Forall2 (λ a b, f a = Some (g b)) l k →
  everyM f l = Some (forallb g k).
Proof.
  induction 1 as [|a b l k Hab _ IH]; simpl; [done|].
  rewrite Hab. destruct (g b); [exact IH | done].
Qed.

Lemma someM_existsb {A B} (f : A → option bool) (g : B → bool)
    (l : list A) (k : list B) :
  Forall2 (λ a b, f a = Some (g b)) l k →
  someM f l = Some (existsb g k).
Proof.
  induction 1 as [|a b l k Hab _ IH]; simpl; [done|].
  rewrite Hab. destruct (g b); [done | exact IH].
Qed.

Lemma children_agree (heap : NodeHeap) (T : gset string) (d : nat)
    (rs : list nat) (ts : list PrereqNode) :
  Forall (λ t, ∀ r depth, Unfolds heap r t → (height t ≤ depth)%nat →
            evaluatePrereqRef depth heap r T
            = Some (evaluatePrereqTree t T)) ts →
  Forall2 (Unfolds heap) rs ts →
  (foldr (λ r acc, height r `max` acc) 0 ts ≤ d)%nat →
  Forall2 (λ r t, evaluatePrereqRef d heap r T
                  = Some (evaluatePrereqTree t T)) rs ts.
Proof.
  intros IH Hunf Hd.
  pose proof (height_le_fold ts) as Hh.
  induction Hunf as [|r t rs ts Hrt _ IHl]; constructor.
  - apply Forall_cons in IH as [IHt _]. apply Forall_cons in Hh as [Ht _].
    simpl in Ht, Hd. apply IHt; [done | lia].
  - apply Forall_cons in IH as [_ IH].
    simpl in Hd. apply IHl; [done | lia | apply height_le_fold].
Qed.

(** C2, as the code has it.  [evaluatePrereqTree] keeps no record of the
    nodes it has visited.  On every node graph that unfolds to a finite
    tree (shared nodes allowed) the evaluation returns, at a recursion
    depth bounded by the height of the tree, the value of the tree; a node
    reached twice is evaluated twice. *)
Theorem evaluatePrereqRef_finite (heap : NodeHeap) (T : gset string)
    (tree : PrereqNode) (r depth : nat) :
  Unfolds heap r tree →
  (height tree ≤ depth)%nat →
  evaluatePrereqRef depth heap r T = Some (evaluatePrereqTree tree T).
Proof.
  revert r depth.
  induction tree as [|code|ts IH|ts IH|] using PrereqNode_forall_ind;
    intros r depth Hunf Hdepth; inversion Hunf as [? H|? ? H|? rs ? H Hrs|? rs ? H Hrs|? H];
    subst; simpl in Hdepth; (destruct depth as [|d]; [lia|]); simpl; rewrite H;
    try done.
  - apply everyM_forallb. eapply children_agree; [exact IH | done | lia].
  - apply someM_existsb. eapply children_agree; [exact IH | done | lia].
Qed.

Lemma evaluatePrereqRef_finite_witness :
  evaluatePrereqRef 2 {[ 0 := ObjAnd [1; 1]; 1 := ObjCourse "A" ]} 0 {["A"]}
  = Some true.
Proof.
  rewrite (evaluatePrereqRef_finite
             {[ 0 := ObjAnd [1; 1]; 1 := ObjCourse "A" ]} {["A"]}
             (NodeAnd [NodeCourse "A"; NodeCourse "A"]) 0 2).
  - vm_compute. reflexivity.
  - eapply unfolds_and; [reflexivity|].
    repeat constructor; reflexivity.
  - simpl. lia.
Defined.

Lemma evaluatePrereqRef_selfLoop_None (depth : nat) (T : gset string) :
  evaluatePrereqRef depth selfLoopHeap 0 T = None.
Proof.
  induction depth as [|d IH]; simpl; [done|].
  unfold selfLoopHeap at 1. rewrite lookup_singleton_eq. simpl.
  by rewrite IH.
Qed.

(** C2 as stated fails: on a node that lists itself among its
    requirements the evaluation returns at no recursion depth, so in
    particular it never answers "unsatisfied". *)
Lemma evaluatePrereqRef_cycle_diverges :
  ¬ ∃ depth result, evaluatePrereqRef depth selfLoopHeap 0 ∅ = Some result.
Proof.
  intros (depth & result & H).
  by rewrite evaluatePrereqRef_selfLoop_None in H.
Qed.

(** ** Scheduler *)

Lemma concat_alter_snoc (l : list (list string)) (i : nat) (c : string) :
  (i < length l)%nat →
  concat (alter (λ sem, sem ++ [c]) i l) ≡ₚ c :: concat l.
Proof.
  revert i. induction l as [|sem l IH]; intros i Hi; simpl in Hi; [lia|].
  destruct i as [|i].
  - change (concat ((sem ++ [c]) :: l) ≡ₚ c :: sem ++ concat l). simpl.
    rewrite <- app_assoc. simpl.
    rewrite <- Permutation_middle. done.
  - change (sem ++ concat (alter (λ sem, sem ++ [c]) i l)
            ≡ₚ c :: sem ++ concat l).
    rewrite IH by lia. by rewrite Permutation_middle.
Qed.

Lemma lookup_alter_snoc (l : list (list string)) (i j : nat) (c : string)
    (sem : list string) :
  alter (λ sem, sem ++ [c]) i l !! j = Some sem →
  ∃ old, l !! j = Some old ∧
         ((i = j ∧ sem = old ++ [c]) ∨ (i ≠ j ∧ sem = old)).
Proof.
  destruct (decide (i = j)) as [->|Hne].
  - rewrite list_lookup_alter_eq. intros H.
    apply fmap_Some in H as (old & Hold & ->). exists old. auto.
  - rewrite list_lookup_alter_ne by done. intros H. exists sem. auto.
Qed.

Lemma lookup_alter_snoc_grows (l : list (list string)) (i j : nat)
    (c : string) (old : list string) :
  l !! j = Some old →
  ∃ sem, alter (λ sem, sem ++ [c]) i l !! j = Some sem ∧ old ⊆ sem.
Proof.
  intros Hold. destruct (decide (i = j)) as [->|Hne].
  - exists (old ++ [c]). rewrite list_lookup_alter_eq, Hold. split; [done|].
    intros x Hx. apply elem_of_app. by left.
  - exists old. by rewrite list_lookup_alter_ne.
Qed.

Lemma semCreditsOf_snoc (allCourses : Catalog) (sem : list string) (c : string) :
  semCreditsOf allCourses (sem ++ [c])
  = (semCreditsOf allCourses sem + creditsOf allCourses c)%Z.
Proof. unfold semCreditsOf. by rewrite foldl_app. Qed.

Lemma findPrereqSem_Some (placedBySemester : list (list string))
    (prereq : string) (j : nat) :
  findPrereqSem placedBySemester prereq = Some j →
  ∃ sem, placedBySemester !! j = Some sem ∧ prereq ∈ sem
         ∧ (j < length SEMESTERS)%nat.
Proof.
  unfold findPrereqSem. intros H.
  apply fmap_Some in H as ([j' sem] & Hfind & ->). simpl.
  apply list_find_Some in Hfind as (Hj & Hin & _).
  apply lookup_take_Some in Hj as [Hj Hlt]. by exists sem.
Qed.

Lemma earliestLoop_Some (alreadyTaken : gset string)
    (placedBySemester : list (list string)) (prereqs : list string)
    (minSemester earliest : nat) :
  earliestLoop alreadyTaken placedBySemester prereqs minSemester
  = Some earliest →
  (minSemester ≤ earliest)%nat ∧
  ∀ p, p ∈ prereqs →
       p ∈ alreadyTaken ∨
       ∃ j, findPrereqSem placedBySemester p = Some j ∧ (j < earliest)%nat.
Proof.
  revert minSemester. induction prereqs as [|q rest IH]; intros m; simpl.
  - intros [= <-]. split; [lia|]. intros p Hp. by apply elem_of_nil in Hp.
  - case_bool_decide as Hq.
    + intros H. apply IH in H as [Hle Hall]. split; [done|].
      intros p Hp. apply elem_of_cons in Hp as [-> | Hp]; auto.
    + destruct (findPrereqSem placedBySemester q) as [j|] eqn:Hj; [|done].
      intros H. apply IH in H as [Hle Hall]. split; [lia|].
      intros p Hp. apply elem_of_cons in Hp as [-> | Hp]; [|auto].
      right. exists j. split; [done | lia].
Qed.

Lemma getEarliestSemester_Some (allCourses : Catalog)
    (alreadyTaken : gset string) (code : string)
    (placedBySemester : list (list string)) (earliest : nat)
    (info : CourseInfo) :
  getEarliestSemester allCourses alreadyTaken code placedBySemester
  = Some earliest →
  lookupCourse allCourses code = Some info →
  ∀ p, p ∈ prereqs info →
       p ∈ alreadyTaken ∨
       ∃ j sem, (j < earliest)%nat ∧ placedBySemester !! j = Some sem ∧ p ∈ sem.
Proof.
  unfold getEarliestSemester. intros H Hinfo. rewrite Hinfo in H.
  intros p Hp.
  destruct (prereqs info) as [|q rest] eqn:Hpre;
    [by apply elem_of_nil in Hp|].
  apply earliestLoop_Some in H as [_ Hall].
  destruct (Hall p Hp) as [Ht | (j & Hj & Hlt)]; [by left|].
  right. apply findPrereqSem_Some in Hj as (sem & Hsem & Hin & _).
  by exists j, sem.
Qed.

Lemma trySemesters_Some (allCourses : Catalog) (preferences : Preferences)
    (code : string) (placedBySemester : list (list string))
    (semIdxs : list nat) (semIdx : nat) :
  trySemesters allCourses preferences code placedBySemester semIdxs
  = Some semIdx →
  semIdx ∈ semIdxs ∧
  (semCreditsOf allCourses (default [] (placedBySemester !! semIdx))
   + creditsOf allCourses code ≤ maxCreditsOf preferences)%Z.
Proof.
  induction semIdxs as [|k rest IH]; simpl; [done|].
  case_bool_decide as Hfit.
  - destruct (balanced preferences && _ && _).
    + intros H. apply IH in H as [Hin Hle]. split; [by right | done].
    + intros [= <-]. split; [by left | done].
  - intros H. apply IH in H as [Hin Hle]. split; [by right | done].
Qed.

Section SchedulerInvariant.
Variable allCourses : Catalog.
Variable preferences : Preferences.
Variable alreadyTaken : gset string.

Local Abbreviation Inv := (SchedInv allCourses preferences alreadyTaken).

(** Pushing [code] to slot [semIdx] keeps the invariant when the slot is
    at or after the earliest eligible one and has room. *)
Lemma SchedInv_push (st : SchedState) (toPlace' : list string)
    (code : string) (earliestSem semIdx : nat) (changed' : bool) :
  Inv st →
  code ∉ placed st →
  getEarliestSemester allCourses alreadyTaken code (placedBySemester st)
  = Some earliestSem →
  (earliestSem ≤ semIdx < length SEMESTERS)%nat →
  (semCreditsOf allCourses (default [] (placedBySemester st !! semIdx))
   + creditsOf allCourses code ≤ maxCreditsOf preferences)%Z →
  Inv (mkSched toPlace'
               (alter (λ sem, sem ++ [code]) semIdx (placedBySemester st))
               ({[code]} ∪ placed st) changed' (passes st)).
Proof.
  intros [Hlen Hnd Hpl Hcap Hord] Hfresh Hearliest Hidx Hfit.
  assert (semIdx < length (placedBySemester st))%nat as Hlt by lia.
  pose proof (concat_alter_snoc (placedBySemester st) semIdx code Hlt)
    as Hperm.
  constructor; simpl.
  - by rewrite length_alter.
  - rewrite Hperm. apply NoDup_cons. split; [|done].
    intros Hin. by apply Hpl in Hin.
  - intros c. rewrite Hperm, elem_of_cons, elem_of_union, elem_of_singleton.
    intros [-> | Hin]; [by left | right; by apply Hpl].
  - apply Forall_lookup. intros j sem Hj.
    apply lookup_alter_snoc in Hj
      as (old & Hold & [[-> ->] | [Hne ->]]).
    + rewrite semCreditsOf_snoc. by rewrite Hold in Hfit.
    + by eapply (Forall_lookup_1 _ _ _ _ Hcap).
  - intros i sem c info p Hi Hc Hinfo Hp.
    assert (∀ k, (k < i)%nat →
              ∀ earlier, placedBySemester st !! k = Some earlier →
                p ∈ earlier →
              ∃ j earlier',
                (j < i)%nat ∧
                alter (λ sem, sem ++ [code]) semIdx (placedBySemester st)
                  !! j = Some earlier' ∧ p ∈ earlier') as Hgrow.
    { intros k Hk earlier Hearlier Hpin.
      destruct (lookup_alter_snoc_grows (placedBySemester st) semIdx k code
                  earlier Hearlier) as (earlier' & Hlook & Hsub).
      exists k, earlier'. repeat split; [done | done | by apply Hsub]. }
    assert (c ∈ default [] (placedBySemester st !! i) ∨ (i = semIdx ∧ c = code))
      as [Hold | [-> ->]].
    { apply lookup_alter_snoc in Hi as (old & Hold & [[-> ->] | [Hne ->]]).
      - apply elem_of_app in Hc as [Hc | Hc].
        + left. by rewrite Hold.
        + right. apply list_elem_of_singleton in Hc. done.
      - left. by rewrite Hold. }
    + destruct (placedBySemester st !! i) as [old|] eqn:Hi';
        [|by apply elem_of_nil in Hold].
      destruct (Hord i old c info p Hi' Hold Hinfo Hp)
        as [Ht | (j & earlier & Hj & Hearlier & Hpin)]; [by left|].
      right. by eapply Hgrow.
    + destruct (getEarliestSemester_Some _ _ _ _ _ _ Hearliest Hinfo p Hp)
        as [Ht | (j & earlier & Hj & Hearlier & Hpin)]; [by left|].
      right. eapply (Hgrow j); [lia | done | done].
Qed.

Lemma SchedInv_passBody (i : nat) (st : SchedState) :
  Inv st → Inv (passBody allCourses preferences alreadyTaken i st).
Proof.
  intros HI. unfold passBody.
  destruct (toPlace st !! i) as [code|]; [|done].
  case_bool_decide as Hplaced.
  { destruct HI. by constructor. }
  destruct (getEarliestSemester allCourses alreadyTaken code
              (placedBySemester st)) as [earliestSem|] eqn:Hearliest; [|done].
  destruct (trySemesters allCourses preferences code (placedBySemester st)
              (seq earliestSem (length SEMESTERS - earliestSem)))
    as [semIdx|] eqn:Htry; [|done].
  apply trySemesters_Some in Htry as [Hin Hfit].
  apply elem_of_seq in Hin.
  eapply SchedInv_push; [done | done | done | lia | done].
Qed.

Lemma SchedInv_passLoop (n : nat) (st : SchedState) :
  Inv st → Inv (passLoop allCourses preferences alreadyTaken n st).
Proof.
  revert st. induction n as [|i IH]; intros st HI; simpl; [done|].
  by apply IH, SchedInv_passBody.
Qed.

Lemma SchedInv_onePass (st : SchedState) :
  Inv st → Inv (onePass allCourses preferences alreadyTaken st).
Proof.
  intros HI. apply SchedInv_passLoop. destruct HI. by constructor.
Qed.

Lemma SchedInv_whileLoop (fuel : nat) (st st' : SchedState) :
  Inv st →
  whileLoop allCourses preferences alreadyTaken fuel st = Some st' →
  Inv st'.
Proof.
  revert st. induction fuel as [|f IH]; intros st HI; simpl.
  - destruct (changed st && _); [done | by intros [= <-]].
  - destruct (changed st && _); [| by intros [= <-]].
    apply IH. by apply SchedInv_onePass.
Qed.

(** The pass counter: the [for] loop leaves it alone, a pass adds one. *)
Lemma passes_passBody (i : nat) (st : SchedState) :
  passes (passBody allCourses preferences alreadyTaken i st) = passes st.
Proof.
  unfold passBody. repeat (case_match; simpl; try done).
Qed.

Lemma passes_passLoop (n : nat) (st : SchedState) :
  passes (passLoop allCourses preferences alreadyTaken n st) = passes st.
Proof.
  revert st. induction n as [|i IH]; intros st; simpl; [done|].
  by rewrite IH, passes_passBody.
Qed.

Lemma passes_onePass (st : SchedState) :
  passes (onePass allCourses preferences alreadyTaken st) = S (passes st).
Proof. unfold onePass. by rewrite passes_passLoop. Qed.

(** The loop index is always inside [toPlace]: an iteration removes at
    most the entry it looks at. *)
Lemma length_toPlace_passBody (i : nat) (st : SchedState) :
  (i < length (toPlace st))%nat →
  (i ≤ length (toPlace (passBody allCourses preferences alreadyTaken i st)))%nat.
Proof.
  intros Hi. unfold passBody.
  repeat (case_match; simpl; try lia);
    rewrite length_delete by (by eapply mk_is_Some); lia.
Qed.

Lemma passLoop_in_range (n : nat) (st : SchedState) :
  (n ≤ length (toPlace st))%nat →
  passInRange allCourses preferences alreadyTaken n st.
Proof.
  revert st. induction n as [|i IH]; intros st Hn; simpl; [done|].
  split; [apply lookup_lt_is_Some; lia|].
  apply IH, length_toPlace_passBody. lia.
Qed.

(** A pass that ends with [changed = false] pushed no course. *)
Lemma passBody_unchanged (i : nat) (st : SchedState) :
  changed (passBody allCourses preferences alreadyTaken i st) = false →
  changed st = false ∧
  placedBySemester (passBody allCourses preferences alreadyTaken i st)
  = placedBySemester st.
Proof. unfold passBody. repeat (case_match; simpl; try done). Qed.

Lemma changed_passBody_mono (i : nat) (st : SchedState) :
  changed st = true →
  changed (passBody allCourses preferences alreadyTaken i st) = true.
Proof. unfold passBody. repeat (case_match; simpl; try done). Qed.

Lemma passLoop_unchanged (n : nat) (st : SchedState) :
  changed (passLoop allCourses preferences alreadyTaken n st) = false →
  placedBySemester (passLoop allCourses preferences alreadyTaken n st)
  = placedBySemester st ∧ changed st = false.
Proof.
  revert st. induction n as [|i IH]; intros st; simpl; [done|].
  intros H. apply IH in H as [Heq Hch].
  apply passBody_unchanged in Hch as [Hch Heq']. split; [congruence | done].
Qed.

(** The [while] loop returns within the iterations that the pass limit
    leaves, with at most 20 passes counted, and it stops either because
    the last pass changed nothing or because the limit is reached. *)
Lemma whileLoop_terminates (fuel : nat) (st : SchedState) :
  (20 ≤ fuel + passes st)%nat →
  ∃ st', whileLoop allCourses preferences alreadyTaken fuel st = Some st' ∧
         (passes st' ≤ 20 `max` passes st)%nat ∧
         (changed st' = false ∨ (20 ≤ passes st')%nat).
Proof.
  revert st. induction fuel as [|f IH]; intros st Hfuel; simpl.
  - destruct (changed st) eqn:Hch; simpl.
    + rewrite bool_decide_eq_false_2 by lia.
      exists st. split; [done|]. split; [lia | right; lia].
    + exists st. split; [done|]. split; [lia | by left].
  - destruct (changed st) eqn:Hch; simpl.
    + case_bool_decide as Hlt.
      * destruct (IH (onePass allCourses preferences alreadyTaken st))
          as (st' & Hrun & Hle & Hstop).
        { rewrite passes_onePass. lia. }
        exists st'. split; [done|]. rewrite passes_onePass in Hle.
        split; [lia | done].
      * exists st. split; [done|]. split; [lia | right; lia].
    + exists st. split; [done|]. split; [lia | by left].
Qed.
End SchedulerInvariant.

Lemma SchedInv_initial (allCourses : Catalog) (preferences : Preferences)
    (completedCodes inProgressCodes : gset string) :
  SchedInv allCourses preferences (completedCodes ∪ inProgressCodes)
           (initialSched allCourses completedCodes inProgressCodes).
Proof.
  assert (∀ i sem, ((λ _ : Semester, @nil string) <$> SEMESTERS) !! i = Some sem
                   → sem = []) as Hempty.
  { intros i sem H. apply list_lookup_fmap_Some in H as (? & -> & _). done. }
  constructor; simpl.
  - done.
  - apply NoDup_nil_2.
  - intros c Hc. by apply elem_of_nil in Hc.
  - apply Forall_lookup. intros i sem Hi.
    apply Hempty in Hi as ->. unfold semCreditsOf, maxCreditsOf. simpl.
    destruct (balanced preferences); lia.
  - intros i sem c info p Hi Hc. apply Hempty in Hi as ->.
    by apply elem_of_nil in Hc.
Qed.

(** The plan [generateLocalSchedule] returns holds slot [i] of
    [placedBySemester] under the id of semester [i], in semester order. *)
Lemma buildPlan_zip (pbs : list (list string)) :
  length pbs = length SEMESTERS →
  buildPlan pbs
  = (λ e : Semester * list string, (sem_id e.1, e.2)) <$> zip SEMESTERS pbs.
Proof.
  intros H. do 9 (destruct pbs as [|? pbs]; try discriminate H). reflexivity.
Qed.

Lemma buildPlan_values (pbs : list (list string)) :
  length pbs = length SEMESTERS → objValues (buildPlan pbs) = pbs.
Proof.
  intros H. do 9 (destruct pbs as [|? pbs]; try discriminate H). reflexivity.
Qed.

Lemma buildPlan_planOf (pbs : list (list string)) (i : nat) (sem : Semester) :
  length pbs = length SEMESTERS →
  SEMESTERS !! i = Some sem →
  planOf (buildPlan pbs) (sem_id sem) = default [] (pbs !! i).
Proof.
  intros H Hi. do 9 (destruct pbs as [|? pbs]; try discriminate H).
  do 8 (destruct i as [|i]; [injection Hi as <-; reflexivity|]).
  discriminate Hi.
Qed.

Lemma objGet_Some_elem_of {V} (obj : JsObj V) (key : string) (v : V) :
  objGet obj key = Some v → (key, v) ∈ obj.
Proof.
  induction obj as [|[k w] rest IH]; simpl; [done|].
  destruct (decide (k = key)) as [->|Hne].
  - intros [= ->]. by left.
  - intros H. right. by apply IH.
Qed.

Lemma buildPlan_planOf_any (pbs : list (list string)) (id : string) :
  length pbs = length SEMESTERS →
  planOf (buildPlan pbs) id = [] ∨ planOf (buildPlan pbs) id ∈ pbs.
Proof.
  intros H. unfold planOf.
  destruct (objGet (buildPlan pbs) id) as [courses|] eqn:Hget; [|by left].
  right. simpl. apply objGet_Some_elem_of in Hget.
  rewrite buildPlan_zip in Hget by done.
  apply list_elem_of_fmap in Hget as ([sem courses'] & [= _ ->] & Hin).
  by apply elem_of_zip_r in Hin.
Qed.

Lemma elem_of_concat_lookup (l : list (list string)) (k : nat)
    (y : list string) (c : string) :
  l !! k = Some y → c ∈ y → c ∈ concat l.
Proof.
  revert k. induction l as [|x l IH]; intros k Hk Hc; [done|].
  simpl. apply elem_of_app. destruct k as [|k]; simpl in Hk.
  - injection Hk as ->. by left.
  - right. by eapply IH.
Qed.

Lemma NoDup_concat_same_slot (l : list (list string)) (i j : nat)
    (a b : list string) (c : string) :
  NoDup (concat l) → l !! i = Some a → l !! j = Some b →
  c ∈ a → c ∈ b → i = j.
Proof.
  revert i j. induction l as [|x l IH]; intros i j Hnd Hi Hj Ha Hb; [done|].
  simpl in Hnd. apply NoDup_app in Hnd as (_ & Hdisj & Hnd).
  pose proof (elem_of_concat_lookup l) as Hin.
  destruct i as [|i], j as [|j]; simpl in Hi, Hj.
  - done.
  - injection Hi as <-. exfalso. eapply Hdisj; [done | by eapply Hin].
  - injection Hj as <-. exfalso. eapply Hdisj; [done | by eapply Hin].
  - f_equal. by eapply IH.
Qed.

(** The scheduler always returns, and its final state satisfies the
    invariant. *)
Lemma runSchedule_returns (allCourses : Catalog) (preferences : Preferences)
    (completedCodes inProgressCodes : gset string) :
  ∃ st, runSchedule allCourses preferences completedCodes inProgressCodes
        = Some st ∧
        (passes st ≤ 20)%nat ∧
        (changed st = false ∨ passes st = 20%nat) ∧
        SchedInv allCourses preferences (completedCodes ∪ inProgressCodes) st.
Proof.
  unfold runSchedule.
  destruct (whileLoop_terminates allCourses preferences
              (completedCodes ∪ inProgressCodes) 20
              (initialSched allCourses completedCodes inProgressCodes))
    as (st & Hrun & Hle & Hstop); [simpl; lia|].
  simpl in Hle. exists st. split; [done|]. split; [lia|]. split.
  - destruct Hstop; [by left | right; lia].
  - eapply SchedInv_whileLoop; [apply SchedInv_initial | exact Hrun].
Qed.

Lemma generateLocalSchedule_Some (allCourses : Catalog)
    (preferences : Preferences)
    (completedCodes inProgressCodes : gset string) (plan : Plan) :
  generateLocalSchedule allCourses preferences completedCodes inProgressCodes
  = Some plan →
  ∃ st, plan = buildPlan (placedBySemester st) ∧
        SchedInv allCourses preferences (completedCodes ∪ inProgressCodes) st.
Proof.
  unfold generateLocalSchedule.
  destruct (runSchedule_returns allCourses preferences completedCodes
              inProgressCodes) as (st & -> & _ & _ & HI).
  simpl. intros [= <-]. by exists st.
Qed.

(** C3 as stated fails: with the 2-cycle catalog and no backend answer the
    planner state ends with A and B in no slot and with an empty list of
    warnings. *)
Lemma cycle_unplaced_without_warning :
  ∃ st,
    generateOptimalSchedule catalogCycle defaultPreferences ∅ ∅ None
                            (mkPlanner EMPTY_PLAN []) = Some st ∧
    ("A" ∉ allPlannedCourses (semesterPlan st)) ∧
    ("B" ∉ allPlannedCourses (semesterPlan st)) ∧
    autoplanWarnings st = [].
Proof.
  exists (mkPlanner EMPTY_PLAN []).
  split; [vm_compute; reflexivity|].
  split; [|split; [|reflexivity]];
    apply (bool_decide_unpack _); vm_compute; exact I.
Qed.

(** C3, as the code has it.  For every catalog, preference and student
    state the local plan generation returns: the loop ends after at most
    20 passes, before that only when a pass ends with [changed] false, which
    it does only when it has placed nothing, and the plan built from the
    slots filled so far is stored.  Nothing is reported about
    a course left unplaced: the list of warnings is left empty.  With the
    2-cycle catalog the returned plan has every slot empty. *)
Theorem generateLocalSchedule_terminates (allCourses : Catalog)
    (preferences : Preferences)
    (completedCodes inProgressCodes : gset string) (st0 : PlannerState) :
  (∃ sched st,
     runSchedule allCourses preferences completedCodes inProgressCodes
     = Some sched ∧
     (passes sched ≤ 20)%nat ∧
     (changed sched = false ∨ passes sched = 20%nat) ∧
     generateOptimalSchedule allCourses preferences completedCodes
                             inProgressCodes None st0 = Some st ∧
     semesterPlan st = buildPlan (placedBySemester sched) ∧
     objValues (semesterPlan st) = placedBySemester sched ∧
     autoplanWarnings st = []) ∧
  (∀ sched,
     changed (onePass allCourses preferences
                      (completedCodes ∪ inProgressCodes) sched) = false →
     placedBySemester (onePass allCourses preferences
                               (completedCodes ∪ inProgressCodes) sched)
     = placedBySemester sched) ∧
  generateLocalSchedule catalogCycle preferences ∅ ∅ = Some EMPTY_PLAN.
Proof.
  split; [|split].
  - destruct (runSchedule_returns allCourses preferences completedCodes
                inProgressCodes) as (sched & Hrun & Hle & Hstop & HI).
    exists sched, (mkPlanner (buildPlan (placedBySemester sched)) []).
    split; [done|]. split; [done|]. split; [done|].
    split; [|split; [done | split; [|done]]].
    + unfold generateOptimalSchedule, generateLocalSchedule.
      rewrite Hrun. reflexivity.
    + simpl. apply buildPlan_values. by destruct HI.
  - intros sched Hsame. unfold onePass in *.
    by apply passLoop_unchanged in Hsame as [-> _].
  - destruct preferences as [[|] ?]; vm_compute; reflexivity.
Qed.

Lemma generateLocalSchedule_terminates_witness :
  placedBySemester (onePass catalogCycle defaultPreferences (∅ ∪ ∅)
                            (initialSched catalogCycle ∅ ∅))
  = placedBySemester (initialSched catalogCycle ∅ ∅).
Proof.
  pose proof (generateLocalSchedule_terminates catalogCycle defaultPreferences
                ∅ ∅ (mkPlanner EMPTY_PLAN [])) as (_ & Hsame & _).
  apply Hsame. vm_compute. reflexivity.
Defined.

(** C4. In a plan returned by the scheduler, every code of the flat
    prerequisite list of a scheduled course is completed, in progress, or
    placed in a slot of strictly smaller index than the course. *)
Theorem schedule_respects_prereq_order (allCourses : Catalog)
    (preferences : Preferences)
    (completedCodes inProgressCodes : gset string) (plan : Plan)
    (i : nat) (sem : Semester) (code : string) (info : CourseInfo)
    (p : string) :
  generateLocalSchedule allCourses preferences completedCodes inProgressCodes
  = Some plan →
  SEMESTERS !! i = Some sem →
  code ∈ planOf plan (sem_id sem) →
  lookupCourse allCourses code = Some info →
  p ∈ prereqs info →
  p ∈ completedCodes ∨ p ∈ inProgressCodes ∨
  ∃ (j : nat) (earlier : Semester),
    (j < i)%nat ∧ SEMESTERS !! j = Some earlier ∧
    p ∈ planOf plan (sem_id earlier).
Proof.
  intros Hplan Hi Hcode Hinfo Hp.
  apply generateLocalSchedule_Some in Hplan as (st & -> & HI).
  destruct HI as [Hlen _ _ _ Hord].
  rewrite (buildPlan_planOf _ i sem Hlen Hi) in Hcode.
  destruct (placedBySemester st !! i) as [courses|] eqn:Hslot;
    [|by apply elem_of_nil in Hcode].
  destruct (Hord i courses code info p Hslot Hcode Hinfo Hp)
    as [Ht | (j & earlier & Hj & Hearlier & Hpin)].
  - apply elem_of_union in Ht as [Ht | Ht]; auto.
  - right; right.
    destruct (SEMESTERS !! j) as [semj|] eqn:Hsemj.
    + exists j, semj. split; [done|]. split; [done|].
      rewrite (buildPlan_planOf _ j semj Hlen Hsemj). by rewrite Hearlier.
    + apply lookup_ge_None in Hsemj. apply lookup_lt_Some in Hi. lia.
Qed.

Lemma schedule_respects_prereq_order_witness :
  "CS 2114" ∈ (∅ : gset string) ∨ "CS 2114" ∈ (∅ : gset string) ∨
  ∃ (j : nat) (earlier : Semester),
    (j < 2)%nat ∧ SEMESTERS !! j = Some earlier ∧
    "CS 2114" ∈ planOf planChain (sem_id earlier).
Proof.
  apply (schedule_respects_prereq_order catalogChain defaultPreferences ∅ ∅
           planChain 2 (mkSemester "fall2" "Fall Y2" 2 "Fall") "CS 3114"
           (sampleCourse ["CS 2114"] None 4 "cs_core" 4 true) "CS 2114").
  - vm_compute. reflexivity.
  - reflexivity.
  - apply (bool_decide_unpack _). vm_compute. exact I.
  - reflexivity.
  - apply (bool_decide_unpack _). vm_compute. exact I.
Defined.

(** C5. In a plan returned by the scheduler, the credits of every semester
    slot sum to at most the cap, 15 in balanced mode and 18 otherwise. *)
Theorem schedule_respects_credit_cap (allCourses : Catalog)
    (preferences : Preferences)
    (completedCodes inProgressCodes : gset string) (plan : Plan)
    (semesterId : string) :
  generateLocalSchedule allCourses preferences completedCodes inProgressCodes
  = Some plan →
  (getSemesterCredits allCourses plan semesterId
   ≤ if balanced preferences then 15 else 18)%Z.
Proof.
  intros Hplan.
  apply generateLocalSchedule_Some in Hplan as (st & -> & HI).
  destruct HI as [Hlen _ _ Hcap _].
  unfold getSemesterCredits.
  destruct (buildPlan_planOf_any (placedBySemester st) semesterId Hlen)
    as [-> | Hin].
  - simpl. destruct (balanced preferences); lia.
  - rewrite Forall_forall in Hcap. apply Hcap in Hin. exact Hin.
Qed.

Lemma schedule_respects_credit_cap_witness :
  (getSemesterCredits catalogChain planChain "fall1" ≤ 15)%Z.
Proof.
  apply (schedule_respects_credit_cap catalogChain defaultPreferences ∅ ∅
           planChain "fall1").
  vm_compute. reflexivity.
Defined.

(** C6. In a plan returned by the scheduler no course code occurs twice:
    the slots taken together hold no duplicate, so a code found in two
    semester slots is found in one and the same slot. *)
Theorem schedule_places_once (allCourses : Catalog)
    (preferences : Preferences)
    (completedCodes inProgressCodes : gset string) (plan : Plan) :
  generateLocalSchedule allCourses preferences completedCodes inProgressCodes
  = Some plan →
  NoDup (concat (objValues plan)) ∧
  ∀ (i j : nat) (semi semj : Semester) (code : string),
    SEMESTERS !! i = Some semi → SEMESTERS !! j = Some semj →
    code ∈ planOf plan (sem_id semi) → code ∈ planOf plan (sem_id semj) →
    i = j.
Proof.
  intros Hplan.
  apply generateLocalSchedule_Some in Hplan as (st & -> & HI).
  destruct HI as [Hlen Hnd _ _ _].
  split; [by rewrite buildPlan_values|].
  intros i j semi semj code Hi Hj Hci Hcj.
  rewrite (buildPlan_planOf _ i semi Hlen Hi) in Hci.
  rewrite (buildPlan_planOf _ j semj Hlen Hj) in Hcj.
  destruct (placedBySemester st !! i) as [a|] eqn:Ha;
    [|by apply elem_of_nil in Hci].
  destruct (placedBySemester st !! j) as [b|] eqn:Hb;
    [|by apply elem_of_nil in Hcj].
  by eapply (NoDup_concat_same_slot (placedBySemester st)).
Qed.

Lemma schedule_places_once_witness :
  NoDup (concat (objValues planChain)).
Proof.
  apply (schedule_places_once catalogChain defaultPreferences ∅ ∅ planChain).
  vm_compute. reflexivity.
Defined.

(** ** Plan validator *)

Lemma elem_of_concat_fmap {A B} (f : A → list B) (l : list A) (x : B) :
  x ∈ concat (f <$> l) ↔ ∃ y, y ∈ l ∧ x ∈ f y.
Proof.
  induction l as [|a l IH]; simpl.
  - split; [intros H; by apply elem_of_nil in H
           | intros (y & Hy & _); by apply elem_of_nil in Hy].
  - rewrite elem_of_app, IH. split.
    + intros [H | (y & Hy & Hx)]; [exists a | exists y]; split; try done;
        [by left | by right].
    + intros (y & Hy & Hx). apply elem_of_cons in Hy as [-> | Hy];
        [by left | right; by exists y].
Qed.

Lemma missing_prereqs_foldl (check : string → bool) (courses : list string)
    (issues : list Issue) :
  foldl (λ issues code,
           if check code then issues else issues ++ [IssueMissingPrereqs code])
        issues courses
  = issues ++ (IssueMissingPrereqs <$> filter (λ code, check code = false) courses).
Proof.
  revert issues. induction courses as [|c courses IH]; intros issues; simpl.
  - by rewrite app_nil_r.
  - rewrite IH. destruct (check c) eqn:Hc.
    + by rewrite filter_cons_False by congruence.
    + rewrite filter_cons_True by done. simpl. by rewrite <- app_assoc.
Qed.

Lemma analyzeSemester_app (allCourses : Catalog) (semesterPlan : Plan)
    (completedCodes inProgressCodes : gset string)
    (issues : list Issue) (positives : list Positive) (sem : Semester) :
  analyzeSemester allCourses semesterPlan completedCodes inProgressCodes
                  (issues, positives) sem
  = (issues ++ semesterIssues allCourses semesterPlan completedCodes
                              inProgressCodes sem,
     positives ++ semesterPositives allCourses semesterPlan sem).
Proof.
  unfold analyzeSemester, semesterIssues, semesterPositives.
  rewrite missing_prereqs_foldl. f_equal.
  - repeat case_bool_decide; simpl; rewrite <- ?app_assoc, ?app_nil_r; done.
  - destruct (_ && _); by rewrite ?app_nil_r.
Qed.

Lemma analyze_foldl (allCourses : Catalog) (semesterPlan : Plan)
    (completedCodes inProgressCodes : gset string) (sems : list Semester)
    (issues : list Issue) (positives : list Positive) :
  foldl (analyzeSemester allCourses semesterPlan completedCodes
                         inProgressCodes) (issues, positives) sems
  = (issues ++ concat (semesterIssues allCourses semesterPlan completedCodes
                                      inProgressCodes <$> sems),
     positives ++ concat (semesterPositives allCourses semesterPlan <$> sems)).
Proof.
  revert issues positives.
  induction sems as [|sem sems IH]; intros issues positives;
    cbn [foldl fmap list_fmap concat].
  - by rewrite !app_nil_r.
  - by rewrite analyzeSemester_app, IH, <- !app_assoc.
Qed.

Lemma issues_generateLocalAnalysis (allCourses : Catalog)
    (preferences : Preferences) (semesterPlan : Plan)
    (completedCodes inProgressCodes : gset string) :
  issues (generateLocalAnalysis allCourses preferences semesterPlan
                                completedCodes inProgressCodes)
  = concat (semesterIssues allCourses semesterPlan completedCodes
                           inProgressCodes <$> SEMESTERS).
Proof.
  unfold generateLocalAnalysis. by rewrite analyze_foldl.
Qed.

Lemma overallScore_generateLocalAnalysis (allCourses : Catalog)
    (preferences : Preferences) (semesterPlan : Plan)
    (completedCodes inProgressCodes : gset string) :
  let analysis := generateLocalAnalysis allCourses preferences semesterPlan
                                        completedCodes inProgressCodes in
  overallScore analysis
  = Z.max 0 (Z.min 100 (100 - 12 * Z.of_nat (length (issues analysis))
                            + 5 * Z.of_nat (length (positives analysis)))).
Proof.
  unfold generateLocalAnalysis. rewrite analyze_foldl. simpl. f_equal. f_equal. lia.
Qed.

Lemma difficultyOf_hard (allCourses : Catalog) (c : string) (info : CourseInfo) :
  lookupCourse allCourses c = Some info →
  (4 ≤ difficultyOf allCourses c ↔ 4 ≤ difficulty info)%Z.
Proof.
  intros H. unfold difficultyOf, orThree. rewrite H.
  destruct (Z.eqb_spec (difficulty info) 0); lia.
Qed.

Lemma hardCoursesOf_difficulty (allCourses : Catalog) (sem : list string) :
  hardCoursesOf allCourses sem
  = filter (λ c, (4 ≤ from_option difficulty 0
                                  (lookupCourse allCourses c))%Z) sem.
Proof.
  unfold hardCoursesOf. apply list_filter_iff. intros c.
  destruct (lookupCourse allCourses c) as [info|] eqn:Hinfo.
  - by apply difficultyOf_hard.
  - unfold difficultyOf. rewrite Hinfo. simpl. lia.
Qed.

(** C8. For every plan the validator's issue list holds: for each semester
    whose credits sum to more than 18, the overload issue of that semester;
    for each semester with three or more courses whose catalog entry has a
    [difficulty] field of 4 or more (a course outside the catalog has none
    and is not counted), the difficulty issue with the number of these
    courses; for each course of a semester for which [prereqsMet] is false,
    the missing-prerequisites issue.  The overall score is
    [100 - 12 * issues + 5 * positives] clamped to 0..100.  A semester of
    five 3-credit courses and one 4-credit course (19 credits) is flagged
    as overloaded, and a semester with courses of difficulty 4, 3, 5, 0
    and 4 is flagged for its three difficult courses. *)
Theorem generateLocalAnalysis_flags (allCourses : Catalog)
    (preferences : Preferences) (semesterPlan : Plan)
    (completedCodes inProgressCodes : gset string) :
  let analysis := generateLocalAnalysis allCourses preferences semesterPlan
                                        completedCodes inProgressCodes in
  (∀ sem, sem ∈ SEMESTERS →
     (18 < getSemesterCredits allCourses semesterPlan (sem_id sem))%Z →
     IssueTooHeavy (sem_name sem)
                   (getSemesterCredits allCourses semesterPlan (sem_id sem))
     ∈ issues analysis) ∧
  (∀ sem, sem ∈ SEMESTERS →
     let hardCourses :=
       filter (λ c, (4 ≤ from_option difficulty 0
                                      (lookupCourse allCourses c))%Z)
              (planOf semesterPlan (sem_id sem)) in
     (3 ≤ length hardCourses)%nat →
     IssueDifficult (sem_name sem) (length hardCourses) ∈ issues analysis) ∧
  (∀ sem code, sem ∈ SEMESTERS →
     code ∈ planOf semesterPlan (sem_id sem) →
     prereqsMet allCourses semesterPlan completedCodes inProgressCodes
                code (sem_id sem) = false →
     IssueMissingPrereqs code ∈ issues analysis) ∧
  overallScore analysis
  = Z.max 0 (Z.min 100 (100 - 12 * Z.of_nat (length (issues analysis))
                            + 5 * Z.of_nat (length (positives analysis)))) ∧
  (0 ≤ overallScore analysis ≤ 100)%Z ∧
  IssueTooHeavy "Fall Y1" 19
  ∈ issues (generateLocalAnalysis catalogOverload preferences planOverload
                                  completedCodes inProgressCodes) ∧
  IssueDifficult "Spr Y1" 3
  ∈ issues (generateLocalAnalysis catalogHard preferences planHard
                                  completedCodes inProgressCodes).
Proof.
  intros analysis.
  assert (∀ sem x, sem ∈ SEMESTERS →
            x ∈ semesterIssues allCourses semesterPlan completedCodes
                  inProgressCodes sem → x ∈ issues analysis) as Hin.
  { intros sem x Hsem Hx. unfold analysis.
    rewrite issues_generateLocalAnalysis. apply elem_of_concat_fmap.
    by exists sem. }
  split; [|split; [|split; [|split; [|split; [|split]]]]].
  - intros sem Hsem Hheavy. apply (Hin sem _ Hsem). unfold semesterIssues.
    rewrite bool_decide_eq_true_2 by done. by left.
  - intros sem Hsem hardCourses Hhard. apply (Hin sem _ Hsem).
    unfold semesterIssues. apply elem_of_app. right.
    unfold hardCourses in *. rewrite <- hardCoursesOf_difficulty in *.
    rewrite bool_decide_eq_true_2 by done. by left.
  - intros sem code Hsem Hcode Hmet. apply (Hin sem _ Hsem).
    unfold semesterIssues. apply elem_of_app. right. apply elem_of_app. right.
    apply list_elem_of_fmap. exists code. split; [done|].
    by apply list_elem_of_filter.
  - apply overallScore_generateLocalAnalysis.
  - unfold analysis. rewrite overallScore_generateLocalAnalysis. lia.
  - rewrite issues_generateLocalAnalysis. apply elem_of_concat_fmap.
    exists (mkSemester "fall1" "Fall Y1" 1 "Fall"). split; [by left|].
    unfold semesterIssues. by left.
  - rewrite issues_generateLocalAnalysis. apply elem_of_concat_fmap.
    exists (mkSemester "spring1" "Spr Y1" 1 "Spring").
    split; [by right; left|].
    unfold semesterIssues. apply elem_of_app. right. by left.
Qed.

Lemma generateLocalAnalysis_flags_witness :
  IssueTooHeavy "Fall Y1" 19
  ∈ issues (generateLocalAnalysis catalogOverload defaultPreferences
                                  planOverload ∅ ∅) ∧
  IssueDifficult "Spr Y1" 3
  ∈ issues (generateLocalAnalysis catalogHard defaultPreferences
                                  planHard ∅ ∅).
Proof.
  split.
  - pose proof (generateLocalAnalysis_flags catalogOverload defaultPreferences
                  planOverload ∅ ∅) as (Hheavy & _).
    apply (Hheavy (mkSemester "fall1" "Fall Y1" 1 "Fall")).
    + by left.
    + vm_compute. reflexivity.
  - pose proof (generateLocalAnalysis_flags catalogHard defaultPreferences
                  planHard ∅ ∅) as (_ & Hhard & _).
    apply (Hhard (mkSemester "spring1" "Spr Y1" 1 "Spring")).
    + right. by left.
    + vm_compute. lia.
Defined.

(** ** Degree progress aggregator *)

Lemma len_nonneg (l : list string) : (0 ≤ len l)%Z.
Proof. unfold len. lia. Qed.













(** ** The scheduler and the requirement tree *)

Lemma lookupCourse_stripTrees (allCourses : Catalog) (code : string) :
  lookupCourse (stripTrees allCourses) code
  = stripTree <$> lookupCourse allCourses code.
Proof.
  unfold lookupCourse, stripTrees.
  induction allCourses as [|[k info] rest IH]; simpl; [done|].
  by destruct (decide (k = code)).
Qed.

Lemma creditsOf_stripTrees (allCourses : Catalog) (c : string) :
  creditsOf (stripTrees allCourses) c = creditsOf allCourses c.
Proof.
  unfold creditsOf. rewrite lookupCourse_stripTrees.
  by destruct (lookupCourse allCourses c).
Qed.

Lemma difficultyOf_stripTrees (allCourses : Catalog) (c : string) :
  difficultyOf (stripTrees allCourses) c = difficultyOf allCourses c.
Proof.
  unfold difficultyOf. rewrite lookupCourse_stripTrees.
  by destruct (lookupCourse allCourses c).
Qed.

Lemma semCreditsOf_stripTrees (allCourses : Catalog) (sem : list string) :
  semCreditsOf (stripTrees allCourses) sem = semCreditsOf allCourses sem.
Proof.
  unfold semCreditsOf. generalize 0%Z.
  induction sem as [|c sem IH]; intros acc; simpl; [done|].
  by rewrite creditsOf_stripTrees, IH.
Qed.

Lemma hardCoursesOf_stripTrees (allCourses : Catalog) (sem : list string) :
  hardCoursesOf (stripTrees allCourses) sem = hardCoursesOf allCourses sem.
Proof.
  unfold hardCoursesOf. apply list_filter_iff. intros c.
  by rewrite difficultyOf_stripTrees.
Qed.

Lemma trySemesters_stripTrees (allCourses : Catalog) (preferences : Preferences)
    (code : string) (pbs : list (list string)) (semIdxs : list nat) :
  trySemesters (stripTrees allCourses) preferences code pbs semIdxs
  = trySemesters allCourses preferences code pbs semIdxs.
Proof.
  induction semIdxs as [|k rest IH]; simpl; [done|].
  by rewrite semCreditsOf_stripTrees, creditsOf_stripTrees,
             difficultyOf_stripTrees, hardCoursesOf_stripTrees, IH.
Qed.

Lemma getEarliestSemester_stripTrees (allCourses : Catalog)
    (alreadyTaken : gset string) (code : string) (pbs : list (list string)) :
  getEarliestSemester (stripTrees allCourses) alreadyTaken code pbs
  = getEarliestSemester allCourses alreadyTaken code pbs.
Proof.
  unfold getEarliestSemester. rewrite lookupCourse_stripTrees.
  by destruct (lookupCourse allCourses code).
Qed.

Lemma passBody_stripTrees (allCourses : Catalog) (preferences : Preferences)
    (alreadyTaken : gset string) (i : nat) (st : SchedState) :
  passBody (stripTrees allCourses) preferences alreadyTaken i st
  = passBody allCourses preferences alreadyTaken i st.
Proof.
  unfold passBody.
  destruct (toPlace st !! i) as [code|]; [|done].
  rewrite getEarliestSemester_stripTrees.
  destruct (getEarliestSemester _ _ _ _); [|done].
  by rewrite trySemesters_stripTrees.
Qed.

Lemma passLoop_stripTrees (allCourses : Catalog) (preferences : Preferences)
    (alreadyTaken : gset string) (n : nat) (st : SchedState) :
  passLoop (stripTrees allCourses) preferences alreadyTaken n st
  = passLoop allCourses preferences alreadyTaken n st.
Proof.
  revert st. induction n as [|i IH]; intros st; simpl; [done|].
  by rewrite passBody_stripTrees, IH.
Qed.

Lemma whileLoop_stripTrees (allCourses : Catalog) (preferences : Preferences)
    (alreadyTaken : gset string) (fuel : nat) (st : SchedState) :
  whileLoop (stripTrees allCourses) preferences alreadyTaken fuel st
  = whileLoop allCourses preferences alreadyTaken fuel st.
Proof.
  revert st. induction fuel as [|f IH]; intros st; simpl; [done|].
  unfold onePass. by rewrite passLoop_stripTrees, IH.
Qed.

Lemma collectToPlace_stripTrees (allCourses : Catalog)
    (alreadyTaken : gset string) :
  collectToPlace (stripTrees allCourses) alreadyTaken
  = collectToPlace allCourses alreadyTaken.
Proof.
  unfold collectToPlace, stripTrees. f_equal.
  generalize (@nil string, (∅ : gset string)).
  induction allCourses as [|[code info] rest IH]; intros acc; simpl; [done|].
  destruct acc as [toPlace addedToPlace]. simpl. by rewrite IH.
Qed.

(** The schedule does not depend on any [prereqs_structured]. *)
Lemma generateLocalSchedule_stripTrees (allCourses : Catalog)
    (preferences : Preferences) (completedCodes inProgressCodes : gset string) :
  generateLocalSchedule (stripTrees allCourses) preferences
                        completedCodes inProgressCodes
  = generateLocalSchedule allCourses preferences
                          completedCodes inProgressCodes.
Proof.
  unfold generateLocalSchedule, runSchedule, initialSched.
  by rewrite whileLoop_stripTrees, collectToPlace_stripTrees.
Qed.

(** ** Catalog loader *)

Lemma objSpread_lookup_with {V} (P : V → Prop) (a b : JsObj V) (k : string) :
  Forall (λ e, P e.2) b →
  (k ∈ b.*1 ∨ ∃ v, objGet a k = Some v ∧ P v) →
  ∃ v, objGet (objSpread a b) k = Some v ∧ P v.
Proof.
  unfold objSpread. revert a.
  induction b as [|[k' v'] b IH]; intros a Hall Hk; simpl.
  - destruct Hk as [Hk | Hk]; [by apply elem_of_nil in Hk | done].
  - apply Forall_cons in Hall as [Hv' Hall]. apply IH; [done|].
    destruct (decide (k ∈ b.*1)) as [Hin | Hnin]; [by left | right].
    destruct (decide (k' = k)) as [-> | Hne].
    + exists v'. by rewrite objGet_objSet_eq.
    + rewrite objGet_objSet_ne by done.
      destruct Hk as [Hk | Hk]; [|done].
      simpl in Hk. apply elem_of_cons in Hk as [-> | Hk]; done.
Qed.

Lemma Forall_objSet {V} (Q : string * V → Prop) (obj : JsObj V)
    (k : string) (v : V) :
  Forall Q obj → Q (k, v) → Forall Q (objSet obj k v).
Proof.
  intros Hall Hq. induction obj as [|[k' w] rest IH]; simpl.
  - by apply Forall_cons_2.
  - apply Forall_cons in Hall as [Hw Hall].
    destruct (decide (k' = k)) as [-> | Hne]; apply Forall_cons_2; auto.
Qed.

Lemma Forall_objSpread {V} (Q : string * V → Prop) (a b : JsObj V) :
  Forall Q a → Forall Q b → Forall Q (objSpread a b).
Proof.
  unfold objSpread. revert a.
  induction b as [|[k v] b IH]; intros a Ha Hb; simpl; [done|].
  apply Forall_cons in Hb as [Hkv Hb]. apply IH; [|done].
  by apply Forall_objSet.
Qed.

Lemma coursesObj_spread (courses : list ApiCourse) (o : Catalog) :
  foldl (λ o course, objSet o (api_code course) (convertCourse course))
        o courses
  = objSpread o ((λ c, (api_code c, convertCourse c)) <$> courses).
Proof.
  unfold objSpread. revert o.
  induction courses as [|c courses IH]; intros o; simpl; [done | apply IH].
Qed.

Lemma loadCourses_drops_tree (courses : list ApiCourse) (prev : Catalog)
    (code : string) :
  code ∈ api_code <$> courses →
  ∃ info, lookupCourse (loadCourses (Some courses) prev) code = Some info
          ∧ prereqs_structured info = None.
Proof.
  intros Hcode. unfold loadCourses, lookupCourse.
  rewrite coursesObj_spread.
  set (pairs := (λ c, (api_code c, convertCourse c)) <$> courses).
  set (P := λ info : CourseInfo, prereqs_structured info = None).
  assert (Forall (λ e : string * CourseInfo, P e.2) pairs) as Hpairs.
  { unfold pairs. apply Forall_fmap, Forall_forall. by intros c _. }
  assert (code ∈ pairs.*1) as Hkey.
  { unfold pairs. by rewrite <- list_fmap_compose. }
  destruct (objSpread_lookup_with P [] pairs code Hpairs (or_introl Hkey))
    as (v & Hv & HPv).
  assert (Forall (λ e : string * CourseInfo, P e.2) (objSpread [] pairs))
    as Hall by (by apply Forall_objSpread).
  rewrite bool_decide_eq_true_2
    by (destruct (objSpread [] pairs); [discriminate Hv | simpl; lia]).
  apply objSpread_lookup_with; [done|]. left.
  apply objGet_Some_elem_of in Hv.
  apply list_elem_of_fmap. by exists (code, v).
Qed.

(** C10. The scheduler never reads [prereqs_structured]: the earliest
    eligible semester and the whole schedule are the same for a catalog and
    for that catalog with every tree removed, and a course with an empty
    flat list is eligible from slot 0 whatever its tree says.  So course X
    of [catalogTreeOnly], whose tree requires the unplaced course A, is
    placed in the first slot, where [prereqsMet] is false for it.  The
    catalog loader stores every course of the response without a tree. *)
Theorem scheduler_ignores_prereq_tree :
  (∀ (allCourses : Catalog) (alreadyTaken : gset string) (code : string)
     (placedBySemester : list (list string)),
     getEarliestSemester (stripTrees allCourses) alreadyTaken code
                         placedBySemester
     = getEarliestSemester allCourses alreadyTaken code placedBySemester) ∧
  (∀ (allCourses : Catalog) (preferences : Preferences)
     (completedCodes inProgressCodes : gset string),
     generateLocalSchedule (stripTrees allCourses) preferences
                           completedCodes inProgressCodes
     = generateLocalSchedule allCourses preferences
                             completedCodes inProgressCodes) ∧
  (∀ (allCourses : Catalog) (alreadyTaken : gset string) (code : string)
     (placedBySemester : list (list string)) (info : CourseInfo),
     lookupCourse allCourses code = Some info → prereqs info = [] →
     getEarliestSemester allCourses alreadyTaken code placedBySemester
     = Some 0%nat) ∧
  (generateLocalSchedule catalogTreeOnly defaultPreferences ∅ ∅
   = Some planTreeOnly ∧
   planOf planTreeOnly "fall1" = ["X"] ∧
   prereqsMet catalogTreeOnly planTreeOnly ∅ ∅ "X" "fall1" = false) ∧
  (∀ course, prereqs_structured (convertCourse course) = None) ∧
  (∀ (courses : list ApiCourse) (prev : Catalog) (code : string),
     code ∈ api_code <$> courses →
     ∃ info, lookupCourse (loadCourses (Some courses) prev) code = Some info
             ∧ prereqs_structured info = None).
Proof.
  split; [exact getEarliestSemester_stripTrees|].
  split; [exact generateLocalSchedule_stripTrees|].
  split; [|split; [|split; [done | exact loadCourses_drops_tree]]].
  - intros allCourses alreadyTaken code pbs info Hinfo Hpre.
    unfold getEarliestSemester. by rewrite Hinfo, Hpre.
  - repeat split; vm_compute; reflexivity.
Qed.

Lemma scheduler_ignores_prereq_tree_witness :
  getEarliestSemester catalogTreeOnly ∅ "X" [] = Some 0%nat.
Proof.
  pose proof scheduler_ignores_prereq_tree as (_ & _ & Hzero & _).
  apply (Hzero catalogTreeOnly ∅ "X" []
               (sampleCourse [] (Some (NodeCourse "A")) 3 "cs_core" 2 true));
    reflexivity.
Defined.

(** * Further properties of the planner code *)

Set Warnings "-clear-no-such-hyp".

(** ** JS objects *)

Lemma objGet_None {V} (obj : JsObj V) (key : string) :
  objGet obj key = None ↔ key ∉ obj.*1.
Proof.
  induction obj as [|[k v] rest IH]; simpl.
  - split; [intros _ H; by apply elem_of_nil in H | done].
  - rewrite not_elem_of_cons. destruct (decide (k = key)) as [->|Hne].
    + split; [done | by intros [? _]].
    + rewrite IH. split; [by intros ?; split; [congruence|] | by intros [_ ?]].
Qed.

Lemma objSet_fresh {V} (obj : JsObj V) (key : string) (v : V) :
  key ∉ obj.*1 → objSet obj key v = obj ++ [(key, v)].
Proof.
  induction obj as [|[k w] rest IH]; simpl; [done|].
  rewrite not_elem_of_cons. intros [Hne Hrest].
  rewrite decide_False by congruence. by rewrite IH.
Qed.

Lemma objSpread_NoDup_app {V} (acc obj : JsObj V) :
  NoDup (acc.*1 ++ obj.*1) → objSpread acc obj = acc ++ obj.
Proof.
  unfold objSpread. revert acc.
  induction obj as [|[k v] rest IH]; intros acc Hnd; simpl.
  - by rewrite app_nil_r.
  - assert (k ∉ acc.*1) as Hfresh.
    { apply NoDup_app in Hnd as (_ & Hdisj & _). intros Hin.
      apply (Hdisj k Hin). by left. }
    rewrite objSet_fresh by done. rewrite IH.
    + by rewrite <- app_assoc.
    + rewrite fmap_app, <- app_assoc. exact Hnd.
Qed.

(** Copying a well-formed object with [{ ...obj }] gives the same entries
    in the same order. *)
Lemma objSpread_copy {V} (obj : JsObj V) :
  NoDup obj.*1 → objSpread [] obj = obj.
Proof. intros H. by rewrite objSpread_NoDup_app. Qed.

Lemma objSet_keys_NoDup {V} (obj : JsObj V) (key : string) (v : V) :
  NoDup obj.*1 → NoDup (objSet obj key v).*1.
Proof.
  induction obj as [|[k w] rest IH]; simpl; intros Hnd.
  - apply NoDup_singleton.
  - apply NoDup_cons in Hnd as [Hk Hnd].
    destruct (decide (k = key)) as [->|Hne]; simpl.
    + by apply NoDup_cons.
    + apply NoDup_cons. split; [|by apply IH].
      intros Hin. apply Hk.
      apply list_elem_of_fmap in Hin as ([k' w'] & -> & Hin). simpl in *.
      assert (objGet (objSet rest key v) k' ≠ None) as Hget.
      { apply (not_iff_compat (objGet_None _ _)). intros Hn. apply Hn.
        apply list_elem_of_fmap. by exists (k', w'). }
      rewrite objGet_objSet_ne in Hget by done.
      apply (not_iff_compat (objGet_None _ _)) in Hget.
      by apply dec_stable in Hget.
Qed.

Lemma planOf_objSet_eq (plan : Plan) (id : string) (courses : list string) :
  planOf (objSet plan id courses) id = courses.
Proof. unfold planOf. by rewrite objGet_objSet_eq. Qed.

Lemma planOf_objSet_ne (plan : Plan) (id id' : string) (courses : list string) :
  id ≠ id' → planOf (objSet plan id courses) id' = planOf plan id'.
Proof. intros H. unfold planOf. by rewrite objGet_objSet_ne. Qed.

(** ** Planned courses *)

Lemma elem_of_foldl_addAll_concat (slots : list (list string))
    (s : gset string) (c : string) :
  c ∈ foldl addAll s slots ↔ c ∈ s ∨ c ∈ concat slots.
Proof.
  revert s. induction slots as [|x slots IH]; intros s; simpl.
  - rewrite elem_of_nil. tauto.
  - rewrite IH, elem_of_addAll, elem_of_app. tauto.
Qed.

Lemma elem_of_allPlannedCourses (plan : Plan) (c : string) :
  c ∈ allPlannedCourses plan ↔ c ∈ concat (objValues plan).
Proof.
  unfold allPlannedCourses. rewrite elem_of_foldl_addAll_concat.
  rewrite elem_of_empty. tauto.
Qed.

Lemma objValues_cons {V} (k : string) (v : V) (rest : JsObj V) :
  objValues ((k, v) :: rest) = v :: objValues rest.
Proof. reflexivity. Qed.

Lemma planOf_cons_eq (k : string) (w : list string) (rest : Plan) :
  planOf ((k, w) :: rest) k = w.
Proof. unfold planOf. simpl. by rewrite decide_True. Qed.

Lemma planOf_cons_ne (k id : string) (w : list string) (rest : Plan) :
  k ≠ id → planOf ((k, w) :: rest) id = planOf rest id.
Proof. intros H. unfold planOf. simpl. by rewrite decide_False. Qed.

Lemma objSet_cons_eq {V} (k : string) (w v : V) (rest : JsObj V) :
  objSet ((k, w) :: rest) k v = (k, v) :: rest.
Proof. simpl. by rewrite decide_True. Qed.

Lemma objSet_cons_ne {V} (k id : string) (w v : V) (rest : JsObj V) :
  k ≠ id → objSet ((k, w) :: rest) id v = (k, w) :: objSet rest id v.
Proof. intros H. simpl. by rewrite decide_False. Qed.

Lemma planOf_subseteq_concat (plan : Plan) (id : string) (c : string) :
  c ∈ planOf plan id → c ∈ concat (objValues plan).
Proof.
  induction plan as [|[k w] rest IH].
  - intros H. by apply elem_of_nil in H.
  - rewrite objValues_cons. cbn [concat]. rewrite elem_of_app.
    destruct (decide (k = id)) as [->|Hne].
    + rewrite planOf_cons_eq. auto.
    + rewrite planOf_cons_ne by done. auto.
Qed.

Lemma concat_objSet_snoc (plan : Plan) (id code : string) :
  concat (objValues (objSet plan id (planOf plan id ++ [code])))
  ≡ₚ code :: concat (objValues plan).
Proof.
  induction plan as [|[k w] rest IH]; [done|].
  destruct (decide (k = id)) as [->|Hne].
  - rewrite planOf_cons_eq, objSet_cons_eq, !objValues_cons. cbn [concat].
    rewrite <- app_assoc. simpl. by rewrite <- Permutation_middle.
  - rewrite planOf_cons_ne, objSet_cons_ne, !objValues_cons by done.
    cbn [concat]. rewrite IH. by rewrite Permutation_middle.
Qed.

Lemma concat_objSet_filter (plan : Plan) (id : string)
    (P : string → Prop) `{∀ c, Decision (P c)} :
  ∃ before old after,
    concat (objValues plan) = before ++ old ++ after ∧
    planOf plan id = old ∧
    concat (objValues (objSet plan id (filter P (planOf plan id))))
    = before ++ filter P old ++ after.
Proof.
  induction plan as [|[k w] rest IH].
  - by exists [], [], [].
  - destruct (decide (k = id)) as [->|Hne].
    + exists [], w, (concat (objValues rest)).
      by rewrite planOf_cons_eq, objSet_cons_eq, !objValues_cons.
    + destruct IH as (before & old & after & Heq & Hold & Hnew).
      exists (w ++ before), old, after.
      rewrite planOf_cons_ne, objSet_cons_ne, !objValues_cons by done.
      cbn [concat]. by rewrite Heq, Hnew, <- !app_assoc.
Qed.

(** ** Plan editing *)

(** X1. [removeCourse] on a well-formed plan: the course is gone from the
    given semester, whose other courses keep their order; every other
    semester is untouched; no course becomes planned that was not; and
    when the plan held no duplicate and the course was in that semester,
    the course is planned nowhere afterwards and the plan still holds no
    duplicate. *)
Theorem removeCourse_spec (code semesterId : string) (prev : Plan) :
  NoDup prev.*1 →
  let next := removeCourse code semesterId prev in
  planOf next semesterId = filter (λ c, c ≠ code) (planOf prev semesterId) ∧
  (code ∉ planOf next semesterId) ∧
  (∀ other, other ≠ semesterId → planOf next other = planOf prev other) ∧
  (∀ c, c ∈ allPlannedCourses next → c ∈ allPlannedCourses prev) ∧
  (NoDup (concat (objValues prev)) →
   NoDup (concat (objValues next)) ∧
   (code ∈ planOf prev semesterId → code ∉ allPlannedCourses next)).
Proof.
  intros Hkeys next. unfold next, removeCourse.
  rewrite objSpread_copy by done.
  destruct (concat_objSet_filter prev semesterId (λ c, c ≠ code))
    as (before & old & after & Hold & Hplan & Hnew).
  split; [apply planOf_objSet_eq|]. split.
  { rewrite planOf_objSet_eq. intros Hin.
    apply list_elem_of_filter in Hin as [Hne _]. done. }
  split; [intros other Hne; by apply planOf_objSet_ne|]. split.
  { intros c. rewrite !elem_of_allPlannedCourses, Hnew, Hold, !elem_of_app.
    rewrite list_elem_of_filter. tauto. }
  intros Hnd. rewrite Hold in Hnd. split.
  - rewrite Hnew. apply (sublist_NoDup _ _ Hnd).
    apply sublist_app; [done|]. apply sublist_app; [|done].
    apply sublist_filter.
  - intros Hin. rewrite elem_of_allPlannedCourses, Hnew, !elem_of_app.
    rewrite Hplan in Hin.
    apply NoDup_app in Hnd as (_ & Hb & Hnd).
    apply NoDup_app in Hnd as (_ & Ha & _).
    intros [Hc | [Hc | Hc]].
    + apply (Hb code Hc). apply elem_of_app. by left.
    + apply list_elem_of_filter in Hc as [Hne _]. done.
    + by apply (Ha code Hin).
Qed.

Lemma removeCourse_spec_witness :
  planOf (removeCourse "CS 1114" "fall1" samplePlan) "fall1" = ["MATH 1225"].
Proof.
  pose proof (removeCourse_spec "CS 1114" "fall1" samplePlan) as H.
  destruct H as (H & _).
  - apply (bool_decide_unpack _). vm_compute. exact I.
  - rewrite H. vm_compute. reflexivity.
Defined.

(** X2. [addCourseToSemester] keeps a well-formed plan free of
    duplicates: a course planned nowhere is appended to the given
    semester and to no other, a course already planned anywhere leaves
    the plan as it is, and afterwards the course is planned. *)
Theorem addCourseToSemester_spec (code semesterId : string) (prev : Plan) :
  NoDup prev.*1 →
  let next := addCourseToSemester code semesterId prev in
  code ∈ allPlannedCourses next ∧
  (code ∈ allPlannedCourses prev → next = prev) ∧
  (code ∉ allPlannedCourses prev →
   planOf next semesterId = planOf prev semesterId ++ [code] ∧
   ∀ other, other ≠ semesterId → planOf next other = planOf prev other) ∧
  (NoDup (concat (objValues prev)) → NoDup (concat (objValues next))).
Proof.
  intros Hkeys next. unfold next, addCourseToSemester.
  case_bool_decide as Hplanned.
  - split; [done|]. split; [done|]. split; [done | auto].
  - rewrite objSpread_copy by done.
    split.
    { rewrite elem_of_allPlannedCourses, concat_objSet_snoc. by left. }
    split; [done|]. split.
    { intros _. split; [apply planOf_objSet_eq|].
      intros other Hne. by apply planOf_objSet_ne. }
    intros Hnd. rewrite concat_objSet_snoc. apply NoDup_cons. split; [|done].
    by rewrite <- elem_of_allPlannedCourses.
Qed.

Lemma addCourseToSemester_spec_witness :
  "CS 3114" ∈ allPlannedCourses (addCourseToSemester "CS 3114" "fall2" samplePlan).
Proof.
  pose proof (addCourseToSemester_spec "CS 3114" "fall2" samplePlan) as H.
  destruct H as (H & _); [|exact H].
  apply (bool_decide_unpack _). vm_compute. exact I.
Defined.

Lemma filter_ne_id (code : string) (l : list string) :
  code ∉ l → filter (λ c, c ≠ code) l = l.
Proof.
  induction l as [|x l IH]; [done|].
  rewrite not_elem_of_cons. intros [Hne Hl].
  rewrite filter_cons_True by congruence. by rewrite IH.
Qed.

(** X3. Adding a course that is planned nowhere and removing it again from
    the same semester gives back, semester by semester, the plan one
    started from, and the same set of planned courses. *)
Theorem removeCourse_addCourseToSemester (code semesterId : string)
    (prev : Plan) :
  NoDup prev.*1 →
  code ∉ allPlannedCourses prev →
  let next := removeCourse code semesterId
                (addCourseToSemester code semesterId prev) in
  (∀ id, planOf next id = planOf prev id) ∧
  allPlannedCourses next = allPlannedCourses prev.
Proof.
  intros Hkeys Hnew next. unfold next, removeCourse, addCourseToSemester.
  rewrite bool_decide_eq_false_2 by done.
  rewrite (objSpread_copy prev) by done.
  rewrite objSpread_copy by (by apply objSet_keys_NoDup).
  set (mid := objSet prev semesterId (planOf prev semesterId ++ [code])).
  assert (code ∉ planOf prev semesterId) as Hslot.
  { intros Hin. apply Hnew, elem_of_allPlannedCourses.
    by eapply planOf_subseteq_concat. }
  assert (filter (λ c, c ≠ code) (planOf mid semesterId)
          = planOf prev semesterId) as Hfilter.
  { unfold mid. rewrite planOf_objSet_eq, filter_app, filter_ne_id by done.
    rewrite filter_cons_False by (intros H; by apply H).
    by rewrite filter_nil, app_nil_r. }
  split.
  - intros id. destruct (decide (semesterId = id)) as [->|Hne].
    + by rewrite planOf_objSet_eq.
    + rewrite planOf_objSet_ne by done. unfold mid.
      by rewrite planOf_objSet_ne.
  - apply set_eq. intros c. rewrite !elem_of_allPlannedCourses.
    destruct (concat_objSet_filter mid semesterId (λ c, c ≠ code))
      as (before & old & after & Hmid & Hold & Hnext).
    rewrite Hnext. rewrite <- Hold, Hfilter.
    pose proof (concat_objSet_snoc prev semesterId code) as Hperm.
    fold mid in Hperm. rewrite Hmid, <- Hold in Hperm.
    unfold mid in Hperm at 1. rewrite planOf_objSet_eq in Hperm.
    rewrite <- app_assoc in Hperm. simpl in Hperm.
    rewrite (Permutation_app_comm (planOf prev semesterId) (code :: after))
      in Hperm.
    simpl in Hperm. rewrite <- Permutation_middle in Hperm.
    apply Permutation_cons_inv in Hperm. rewrite <- Hperm.
    rewrite !elem_of_app. tauto.
Qed.

Lemma removeCourse_addCourseToSemester_witness :
  allPlannedCourses
    (removeCourse "CS 3114" "fall2"
       (addCourseToSemester "CS 3114" "fall2" samplePlan))
  = allPlannedCourses samplePlan.
Proof.
  apply (removeCourse_addCourseToSemester "CS 3114" "fall2" samplePlan).
  - apply (bool_decide_unpack _). vm_compute. exact I.
  - apply (bool_decide_unpack _). vm_compute. exact I.
Defined.

(** X4. [handleDrop] of a course dragged from one semester onto another
    (well-formed plan): the course leaves the source semester, whose other
    courses keep their order; it is appended to the target unless the
    target already lists it; every other semester is untouched. *)
Theorem handleDrop_moves (source code target : string) (prev : Plan) :
  NoDup prev.*1 →
  code ≠ EmptyString →
  source ≠ EmptyString → source ≠ "library" → source ≠ target →
  let next := handleDrop (Some source) code target prev in
  planOf next source = filter (λ c, c ≠ code) (planOf prev source) ∧
  (code ∉ planOf next source) ∧
  planOf next target
  = (if decide (code ∈ planOf prev target) then planOf prev target
     else planOf prev target ++ [code]) ∧
  code ∈ planOf next target ∧
  (∀ other, other ≠ source → other ≠ target →
            planOf next other = planOf prev other).
Proof.
  intros Hkeys Hcode Hs1 Hs2 Hst next. unfold next, handleDrop.
  rewrite bool_decide_eq_false_2 by done.
  rewrite (bool_decide_eq_true_2 (source ≠ EmptyString ∧ source ≠ "library"))
    by done.
  rewrite objSpread_copy by done.
  rewrite objGet_objSet_ne by done. fold (planOf prev target).
  assert (code ∉ filter (λ c, c ≠ code) (planOf prev source)) as Hgone.
  { intros Hin. apply list_elem_of_filter in Hin as [Hne _]. done. }
  case_bool_decide as Hin.
  - rewrite decide_True by done.
    rewrite planOf_objSet_eq, planOf_objSet_ne by done.
    repeat split; try done.
    intros other Ho _. by apply planOf_objSet_ne.
  - rewrite decide_False by done.
    rewrite planOf_objSet_eq, (planOf_objSet_ne _ target source) by done.
    rewrite planOf_objSet_eq.
    repeat split; try done.
    + apply elem_of_app. right. by left.
    + intros other Ho Ht. by rewrite !planOf_objSet_ne.
Qed.

Lemma handleDrop_moves_witness :
  planOf (handleDrop (Some "fall1") "CS 1114" "fall2" samplePlan) "fall2"
  = ["CS 1114"].
Proof.
  pose proof (handleDrop_moves "fall1" "CS 1114" "fall2" samplePlan) as H.
  destruct H as (_ & _ & H & _); try done.
  apply (bool_decide_unpack _). vm_compute. exact I.
Defined.

(** X5. [handleDrop] of a course dropped on the semester it was dragged
    from appends the course to the semester as it was before: the course
    removed from the copy is taken again from the previous state, so a
    course that was in the semester ends up in it twice. *)
Theorem handleDrop_same_semester (semesterId code : string) (prev : Plan) :
  NoDup prev.*1 →
  code ≠ EmptyString →
  semesterId ≠ EmptyString → semesterId ≠ "library" →
  let next := handleDrop (Some semesterId) code semesterId prev in
  planOf next semesterId = planOf prev semesterId ++ [code] ∧
  (∀ other, other ≠ semesterId → planOf next other = planOf prev other) ∧
  (code ∈ planOf prev semesterId → ¬ NoDup (planOf next semesterId)).
Proof.
  intros Hkeys Hcode Hs1 Hs2 next. unfold next, handleDrop.
  rewrite bool_decide_eq_false_2 by done.
  rewrite (bool_decide_eq_true_2
             (semesterId ≠ EmptyString ∧ semesterId ≠ "library")) by done.
  rewrite objSpread_copy by done.
  rewrite objGet_objSet_eq. simpl.
  rewrite bool_decide_eq_false_2.
  2:{ intros Hin. apply list_elem_of_filter in Hin as [Hne _]. done. }
  rewrite planOf_objSet_eq. split; [done|]. split.
  - intros other Ho. by rewrite !planOf_objSet_ne.
  - intros Hin Hnd. apply NoDup_app in Hnd as (_ & Hdisj & _).
    apply (Hdisj code Hin). by left.
Qed.

Lemma handleDrop_same_semester_witness :
  planOf (handleDrop (Some "fall1") "CS 1114" "fall1" samplePlan) "fall1"
  = ["CS 1114"; "MATH 1225"; "CS 1114"].
Proof.
  pose proof (handleDrop_same_semester "fall1" "CS 1114" samplePlan) as H.
  destruct H as (H & _); try done.
  apply (bool_decide_unpack _). vm_compute. exact I.
Defined.

(** X6. [handleDrop] of a course dragged from the library looks at the
    target semester only: the course is appended unless the target lists
    it already, and no other semester changes.  Unlike
    [addCourseToSemester] it does not look at the other semesters, so a
    course planned elsewhere ends up planned twice. *)
Theorem handleDrop_from_library (code target : string) (prev : Plan) :
  NoDup prev.*1 →
  code ≠ EmptyString →
  let next := handleDrop (Some "library") code target prev in
  planOf next target
  = (if decide (code ∈ planOf prev target) then planOf prev target
     else planOf prev target ++ [code]) ∧
  (∀ other, other ≠ target → planOf next other = planOf prev other) ∧
  (code ∈ allPlannedCourses prev → code ∉ planOf prev target →
   ¬ NoDup (concat (objValues next))).
Proof.
  intros Hkeys Hcode next. unfold next, handleDrop.
  rewrite bool_decide_eq_false_2 by done.
  rewrite (bool_decide_eq_false_2 ("library" ≠ EmptyString ∧ "library" ≠ "library"))
    by (by intros [_ ?]).
  rewrite objSpread_copy by done. fold (planOf prev target).
  case_bool_decide as Hin.
  - rewrite decide_True by done. done.
  - rewrite decide_False by done. rewrite planOf_objSet_eq.
    split; [done|]. split.
    + intros other Ho. by rewrite planOf_objSet_ne.
    + intros Hplanned _ Hnd. rewrite concat_objSet_snoc in Hnd.
      apply NoDup_cons in Hnd as [Hfresh _]. apply Hfresh.
      by apply elem_of_allPlannedCourses.
Qed.

Lemma handleDrop_from_library_witness :
  planOf (handleDrop (Some "library") "CS 1114" "fall2" samplePlan) "fall2"
  = ["CS 1114"].
Proof.
  pose proof (handleDrop_from_library "CS 1114" "fall2" samplePlan) as H.
  destruct H as (H & _); try done.
  apply (bool_decide_unpack _). vm_compute. exact I.
Defined.

(** ** Credits and prerequisites under plan edits *)

Lemma getSemesterCredits_snoc (allCourses : Catalog) (plan : Plan)
    (id code : string) :
  getSemesterCredits allCourses
    (objSet plan id (planOf plan id ++ [code])) id
  = (getSemesterCredits allCourses plan id + creditsOf allCourses code)%Z.
Proof.
  unfold getSemesterCredits. rewrite planOf_objSet_eq. by rewrite foldl_app.
Qed.

(** X7. Adding a course that is planned nowhere raises the credits of its
    semester by what the course counts for ([credits || 3], and 3 for a
    course the catalog does not know) and leaves the credits of every other
    semester as they were. *)
Theorem getSemesterCredits_addCourseToSemester (allCourses : Catalog)
    (code semesterId : string) (prev : Plan) :
  NoDup prev.*1 →
  code ∉ allPlannedCourses prev →
  let next := addCourseToSemester code semesterId prev in
  getSemesterCredits allCourses next semesterId
  = (getSemesterCredits allCourses prev semesterId
     + creditsOf allCourses code)%Z ∧
  (∀ other, other ≠ semesterId →
     getSemesterCredits allCourses next other
     = getSemesterCredits allCourses prev other) ∧
  (lookupCourse allCourses code = None → creditsOf allCourses code = 3%Z) ∧
  creditsOf allCourses code ≠ 0%Z.
Proof.
  intros Hkeys Hnew next. unfold next, addCourseToSemester.
  rewrite bool_decide_eq_false_2 by done. rewrite objSpread_copy by done.
  split; [apply getSemesterCredits_snoc|]. split.
  - intros other Ho. unfold getSemesterCredits.
    by rewrite planOf_objSet_ne.
  - unfold creditsOf, orThree. split.
    + by intros ->.
    + destruct (lookupCourse allCourses code) as [info|]; [|done].
      destruct (Z.eqb_spec (credits info) 0); done.
Qed.

Lemma getSemesterCredits_addCourseToSemester_witness :
  getSemesterCredits catalogChain
    (addCourseToSemester "CS 3114" "fall2" samplePlan) "fall2"
  = (getSemesterCredits catalogChain samplePlan "fall2"
     + creditsOf catalogChain "CS 3114")%Z.
Proof.
  apply (getSemesterCredits_addCourseToSemester catalogChain "CS 3114" "fall2"
           samplePlan).
  - apply (bool_decide_unpack _). vm_compute. exact I.
  - apply (bool_decide_unpack _). vm_compute. exact I.
Defined.

Lemma InTakenSet_plan_mono (plan1 plan2 : Plan)
    (completedCodes inProgressCodes : gset string) (semesterId c : string) :
  (∀ id x, x ∈ planOf plan1 id → x ∈ planOf plan2 id) →
  InTakenSet plan1 completedCodes inProgressCodes semesterId c →
  InTakenSet plan2 completedCodes inProgressCodes semesterId c.
Proof.
  intros Hsub [H | [H | (i & j & earlier & slot & H1 & H2 & H3 & H4 & H5)]];
    [by left | by right; left |].
  right; right. exists i, j, earlier, slot. repeat split; try done.
  by apply Hsub.
Qed.

Lemma prereqsMet_taken_mono (allCourses : Catalog) (plan1 plan2 : Plan)
    (completedCodes inProgressCodes : gset string)
    (code semester1 semester2 : string) :
  getCoursesBeforeSemester plan1 completedCodes inProgressCodes semester1
  ⊆ getCoursesBeforeSemester plan2 completedCodes inProgressCodes semester2 →
  prereqsMet allCourses plan1 completedCodes inProgressCodes code semester1
  = true →
  prereqsMet allCourses plan2 completedCodes inProgressCodes code semester2
  = true.
Proof.
  intros HT. unfold prereqsMet.
  destruct (lookupCourse allCourses code) as [info|]; [|done].
  set (T1 := getCoursesBeforeSemester plan1 _ _ _) in *.
  set (T2 := getCoursesBeforeSemester plan2 _ _ _) in *.
  assert (forallb (λ p, bool_decide (p ∈ T1)) (prereqs info) = true →
          forallb (λ p, bool_decide (p ∈ T2)) (prereqs info) = true) as Hflat.
  { rewrite !forallb_bool_decide. intros H.
    eapply Forall_impl; [exact H|]. intros p. apply HT. }
  destruct (prereqs_structured info) as [tree|]; [|exact Hflat].
  destruct tree; try exact Hflat; by apply evaluatePrereqTree_mono.
Qed.

(** X8. Editing the plan and prerequisites: adding a course to the plan
    never turns a met prerequisite check of any course in any semester
    into an unmet one, and removing a course never turns an unmet check
    into a met one. *)
Theorem prereqsMet_under_edits (allCourses : Catalog) (prev : Plan)
    (completedCodes inProgressCodes : gset string)
    (added addedTo checked semesterId : string) :
  NoDup prev.*1 →
  (prereqsMet allCourses prev completedCodes inProgressCodes
              checked semesterId = true →
   prereqsMet allCourses (addCourseToSemester added addedTo prev)
              completedCodes inProgressCodes checked semesterId = true) ∧
  (prereqsMet allCourses (removeCourse added addedTo prev)
              completedCodes inProgressCodes checked semesterId = true →
   prereqsMet allCourses prev completedCodes inProgressCodes
              checked semesterId = true).
Proof.
  intros Hkeys. split; apply prereqsMet_taken_mono; intros c;
    rewrite !elem_of_getCoursesBeforeSemester; apply InTakenSet_plan_mono;
    intros id x.
  - unfold addCourseToSemester. case_bool_decide; [done|].
    rewrite objSpread_copy by done.
    destruct (decide (addedTo = id)) as [->|Hne].
    + rewrite planOf_objSet_eq, elem_of_app. by left.
    + by rewrite planOf_objSet_ne.
  - unfold removeCourse. rewrite objSpread_copy by done.
    destruct (decide (addedTo = id)) as [->|Hne].
    + rewrite planOf_objSet_eq, list_elem_of_filter. by intros [_ ?].
    + by rewrite planOf_objSet_ne.
Qed.

Lemma prereqsMet_under_edits_witness :
  prereqsMet catalogChain (addCourseToSemester "CS 3114" "fall2" samplePlan)
             ∅ ∅ "CS 2114" "spring1" = true.
Proof.
  pose proof (prereqsMet_under_edits catalogChain samplePlan ∅ ∅
                "CS 3114" "fall2" "CS 2114" "spring1") as H.
  destruct H as (H & _).
  - apply (bool_decide_unpack _). vm_compute. exact I.
  - apply H. vm_compute. reflexivity.
Defined.

Lemma semIndexOf_lookup (i : nat) (sem : Semester) :
  SEMESTERS !! i = Some sem → semIndexOf (sem_id sem) = Some i.
Proof. intros H. apply semIndexOf_Some. by exists sem. Qed.

(** X9. Prerequisites met in a semester stay met in every later semester:
    moving a course to a later slot never breaks its own prerequisite
    check. *)
Theorem prereqsMet_later_semester (allCourses : Catalog) (plan : Plan)
    (completedCodes inProgressCodes : gset string) (code : string)
    (i j : nat) (semi semj : Semester) :
  SEMESTERS !! i = Some semi → SEMESTERS !! j = Some semj → (i ≤ j)%nat →
  prereqsMet allCourses plan completedCodes inProgressCodes
             code (sem_id semi) = true →
  prereqsMet allCourses plan completedCodes inProgressCodes
             code (sem_id semj) = true.
Proof.
  intros Hi Hj Hle. apply prereqsMet_taken_mono. intros c.
  rewrite !elem_of_getCoursesBeforeSemester. unfold InTakenSet.
  intros [H | [H | (k & i' & earlier & slot & H1 & H2 & H3 & H4 & H5)]];
    [by left | by right; left |].
  right; right.
  assert (i' = i) as ->.
  { assert (semIndexOf (sem_id semi) = Some i') as Hi'
      by (apply semIndexOf_Some; by exists slot).
    rewrite (semIndexOf_lookup i semi Hi) in Hi'. congruence. }
  exists k, j, earlier, semj. repeat split; try done. lia.
Qed.

Lemma prereqsMet_later_semester_witness :
  prereqsMet catalogChain samplePlan ∅ ∅ "CS 2114" "fall3" = true.
Proof.
  apply (prereqsMet_later_semester catalogChain samplePlan ∅ ∅ "CS 2114" 1 4
           (mkSemester "spring1" "Spr Y1" 1 "Spring")
           (mkSemester "fall3" "Fall Y3" 3 "Fall")).
  - reflexivity.
  - reflexivity.
  - lia.
  - vm_compute. reflexivity.
Defined.

(** X10. In the first semester, and for an id that is no semester at all,
    the taken-set is [completed] and [inProgress] only: the prerequisite
    check does not depend on the plan, and a flat prerequisite that is
    neither completed nor in progress makes it fail whatever is planned. *)
Theorem prereqsMet_first_semester (allCourses : Catalog) (plan : Plan)
    (completedCodes inProgressCodes : gset string)
    (code semesterId : string) :
  semesterId = "fall1" ∨ semIndexOf semesterId = None →
  getCoursesBeforeSemester plan completedCodes inProgressCodes semesterId
  = completedCodes ∪ inProgressCodes ∧
  prereqsMet allCourses plan completedCodes inProgressCodes code semesterId
  = prereqsMet allCourses [] completedCodes inProgressCodes code semesterId ∧
  (∀ info p,
     lookupCourse allCourses code = Some info →
     prereqs_structured info = None →
     p ∈ prereqs info → p ∉ completedCodes → p ∉ inProgressCodes →
     prereqsMet allCourses plan completedCodes inProgressCodes
                code semesterId = false).
Proof.
  intros Hsem.
  assert (∀ plan', getCoursesBeforeSemester plan' completedCodes
                     inProgressCodes semesterId
                   = completedCodes ∪ inProgressCodes) as Htaken.
  { intros plan'. unfold getCoursesBeforeSemester.
    destruct Hsem as [-> | ->]; reflexivity. }
  split; [apply Htaken|]. split.
  - unfold prereqsMet. by rewrite !Htaken.
  - intros info p Hinfo Htree Hp Hc Hi. unfold prereqsMet.
    rewrite Hinfo, Htree, Htaken. apply not_true_is_false.
    rewrite forallb_bool_decide, Forall_forall. intros Hall.
    specialize (Hall p Hp). apply elem_of_union in Hall as [?|?]; done.
Qed.

Lemma prereqsMet_first_semester_witness :
  prereqsMet catalogChain samplePlan ∅ ∅ "CS 2114" "fall1" = false.
Proof.
  pose proof (prereqsMet_first_semester catalogChain samplePlan ∅ ∅
                "CS 2114" "fall1" (or_introl eq_refl)) as (_ & _ & H).
  apply (H (sampleCourse ["CS 1114"] None 3 "cs_core" 3 true) "CS 1114").
  - reflexivity.
  - reflexivity.
  - by left.
  - apply not_elem_of_empty.
  - apply not_elem_of_empty.
Defined.

(** ** Scheduler: candidates, difficulty cap, maximality *)

Lemma isMandatory_test (info : CourseInfo) :
  required info || bool_decide (category info ∈ mandatoryCategories) = true
  ↔ isMandatory info.
Proof.
  unfold isMandatory. by rewrite orb_true_iff, bool_decide_eq_true.
Qed.

Lemma collectToPlace_step (alreadyTaken : gset string)
    (rest : Catalog) (acc : list string * gset string) (c : string) :
  (∀ x, x ∈ acc.2 ↔ x ∈ acc.1) →
  c ∈ (foldl (λ (acc : list string * gset string) (e : string * CourseInfo),
                let '(toPlace, addedToPlace) := acc in
                let '(code, info) := e in
                if bool_decide (code ∉ alreadyTaken)
                   && bool_decide (code ∉ addedToPlace)
                then
                  if required info
                     || bool_decide (category info ∈ mandatoryCategories)
                  then (toPlace ++ [code], {[code]} ∪ addedToPlace)
                  else acc
                else acc) acc rest).1
  ↔ c ∈ acc.1 ∨
    ((c ∉ alreadyTaken) ∧ ∃ info, (c, info) ∈ rest ∧ isMandatory info).
Proof.
  revert acc. induction rest as [|[code info] rest IH]; intros acc Hacc.
  - simpl. split; [by left|].
    intros [H | (_ & info & Hin & _)]; [done | by apply elem_of_nil in Hin].
  - cbn [foldl]. destruct acc as [toPlace addedToPlace]. simpl in Hacc.
    assert (∀ P, (∃ i, (c, i) ∈ (code, info) :: rest ∧ P i)
                 ↔ (c = code ∧ P info) ∨ ∃ i, (c, i) ∈ rest ∧ P i) as Hex.
    { intros P. split.
      - intros (i & Hin & HP). apply elem_of_cons in Hin as [[= -> ->] | Hin];
          [by left | right; by exists i].
      - intros [[-> HP] | (i & Hin & HP)];
          [exists info; split; [by left | done]
          | exists i; split; [by right | done]]. }
    rewrite Hex. clear Hex.
    destruct (bool_decide (code ∉ alreadyTaken)) eqn:Htaken;
      [apply bool_decide_eq_true in Htaken
      | apply bool_decide_eq_false in Htaken].
    + destruct (bool_decide (code ∉ addedToPlace)) eqn:Hadded;
        [apply bool_decide_eq_true in Hadded
        | apply bool_decide_eq_false in Hadded]; cbn [andb].
      * destruct (required info
                  || bool_decide (category info ∈ mandatoryCategories))
          eqn:Hm.
        -- apply isMandatory_test in Hm. rewrite IH.
           ++ simpl. rewrite elem_of_app, list_elem_of_singleton.
              naive_solver.
           ++ intros x. simpl.
              rewrite elem_of_union, elem_of_singleton, elem_of_app,
                list_elem_of_singleton, Hacc. tauto.
        -- rewrite IH by done. simpl.
           assert (¬ isMandatory info) as Hnm
             by (rewrite <- isMandatory_test; congruence).
           naive_solver.
      * rewrite IH by done. simpl.
        apply dec_stable in Hadded. apply Hacc in Hadded. simpl in Hadded.
        naive_solver.
    + cbn [andb]. rewrite IH by done. simpl. naive_solver.
Qed.

(** The candidates are the catalog courses that are not already taken and
    are required or of a mandatory category. *)
Lemma elem_of_collectToPlace (allCourses : Catalog)
    (alreadyTaken : gset string) (c : string) :
  c ∈ collectToPlace allCourses alreadyTaken
  ↔ (c ∉ alreadyTaken) ∧ ∃ info, (c, info) ∈ allCourses ∧ isMandatory info.
Proof.
  unfold collectToPlace. rewrite collectToPlace_step.
  - simpl. rewrite elem_of_nil. tauto.
  - intros x. simpl. rewrite elem_of_nil, elem_of_empty. tauto.
Qed.

Lemma hardCoursesOf_snoc (allCourses : Catalog) (sem : list string)
    (code : string) :
  hardCoursesOf allCourses (sem ++ [code])
  = hardCoursesOf allCourses sem
    ++ (if decide (4 ≤ difficultyOf allCourses code)%Z then [code] else []).
Proof.
  unfold hardCoursesOf. by rewrite filter_app.
Qed.

Lemma trySemesters_Some_admits (allCourses : Catalog)
    (preferences : Preferences) (code : string)
    (placedBySemester : list (list string)) (semIdxs : list nat)
    (semIdx : nat) :
  trySemesters allCourses preferences code placedBySemester semIdxs
  = Some semIdx →
  semIdx ∈ semIdxs ∧
  slotAdmits allCourses preferences code
             (default [] (placedBySemester !! semIdx)).
Proof.
  unfold slotAdmits.
  induction semIdxs as [|k rest IH]; simpl; [done|].
  case_bool_decide as Hfit.
  - destruct (balanced preferences) eqn:Hb; simpl.
    + case_bool_decide as Hhard; simpl.
      * case_bool_decide as Hcount; simpl.
        -- intros H. apply IH in H as [Hin Hadm]. split; [by right | done].
        -- intros [= <-]. split; [by left|]. split; [done|]. tauto.
      * intros [= <-]. split; [by left|]. split; [done|]. tauto.
    + intros [= <-]. split; [by left|]. split; [done|]. by intros [? _].
  - intros H. apply IH in H as [Hin Hadm]. split; [by right | done].
Qed.

Lemma trySemesters_None (allCourses : Catalog)
    (preferences : Preferences) (code : string)
    (placedBySemester : list (list string)) (semIdxs : list nat) :
  trySemesters allCourses preferences code placedBySemester semIdxs = None →
  ∀ k, k ∈ semIdxs →
       ¬ slotAdmits allCourses preferences code
                    (default [] (placedBySemester !! k)).
Proof.
  unfold slotAdmits.
  induction semIdxs as [|k rest IH]; simpl.
  - intros _ k Hk. by apply elem_of_nil in Hk.
  - case_bool_decide as Hfit.
    + destruct (balanced preferences) eqn:Hb; simpl; [|done].
      case_bool_decide as Hhard; simpl; [|done].
      case_bool_decide as Hcount; simpl; [|done].
      intros H k' Hk'. apply elem_of_cons in Hk' as [-> | Hk'];
        [|by apply IH]. intros [_ Hno]. by apply Hno.
    + intros H k' Hk'. apply elem_of_cons in Hk' as [-> | Hk'];
        [|by apply IH]. by intros [? _].
Qed.

Lemma elem_of_delete_or (l : list string) (i : nat) (c : string) :
  c ∈ l → c ∈ delete i l ∨ l !! i = Some c.
Proof.
  intros Hin. apply list_elem_of_lookup in Hin as [j Hj].
  destruct (decide (i = j)) as [->|Hne]; [by right | left].
  rewrite delete_take_drop. apply elem_of_app.
  destruct (decide (j < i)%nat).
  - left. apply elem_of_take. by exists j.
  - right. apply list_elem_of_lookup. exists (j - S i)%nat.
    rewrite lookup_drop. rewrite <- Hj. f_equal. lia.
Qed.

Section SchedulerTracking.
Variable allCourses : Catalog.
Variable preferences : Preferences.
Variable alreadyTaken : gset string.
Variable candidates : list string.
Hypothesis candidates_fresh : ∀ c, c ∈ candidates → c ∉ alreadyTaken.

Local Abbreviation Track :=
  (λ st, SchedInv allCourses preferences alreadyTaken st
         ∧ SchedTrack allCourses preferences alreadyTaken candidates st).

Lemma SchedTrack_drop_entry (st : SchedState) (i : nat) (code : string) :
  SchedTrack allCourses preferences alreadyTaken candidates st →
  toPlace st !! i = Some code →
  code ∈ placed st →
  SchedTrack allCourses preferences alreadyTaken candidates
             (mkSched (delete i (toPlace st)) (placedBySemester st)
                      (placed st) (changed st) (passes st)).
Proof.
  intros [Hhard Hpl Hslots Hto Hpend] Hi Hplaced. constructor; simpl; try done.
  - intros c Hc. apply Hto. eapply elem_of_sublist; [exact Hc|].
    apply sublist_delete.
  - intros c Hc. destruct (Hpend c Hc) as [Hin | Hin]; [|by right].
    destruct (elem_of_delete_or _ i c Hin) as [Hdel | Hsame]; [by left|].
    right. assert (c = code) as -> by congruence.
    apply Hpl in Hplaced as [Ht | Hs]; [|done].
    by apply candidates_fresh in Hc.
Qed.

Lemma SchedTrack_push (st : SchedState) (i : nat) (code : string)
    (semIdx : nat) :
  SchedInv allCourses preferences alreadyTaken st →
  SchedTrack allCourses preferences alreadyTaken candidates st →
  toPlace st !! i = Some code →
  (semIdx < length SEMESTERS)%nat →
  slotAdmits allCourses preferences code
             (default [] (placedBySemester st !! semIdx)) →
  SchedTrack allCourses preferences alreadyTaken candidates
             (mkSched (delete i (toPlace st))
                      (alter (λ sem, sem ++ [code]) semIdx
                             (placedBySemester st))
                      ({[code]} ∪ placed st) true (passes st)).
Proof.
  intros HI [Hhard Hpl Hslots Hto Hpend] Hi Hidx [_ Hadm].
  assert (semIdx < length (placedBySemester st))%nat as Hlt
    by (rewrite (inv_length _ _ _ _ HI); done).
  pose proof (concat_alter_snoc (placedBySemester st) semIdx code Hlt)
    as Hperm.
  assert (code ∈ candidates) as Hcand
    by (apply Hto; by eapply list_elem_of_lookup_2).
  constructor; simpl.
  - intros Hb. specialize (Hhard Hb). apply Forall_lookup. intros j sem Hj.
    apply lookup_alter_snoc in Hj as (old & Hold & [[-> ->] | [Hne ->]]).
    + rewrite hardCoursesOf_snoc, length_app.
      pose proof (Forall_lookup_1 _ _ _ _ Hhard Hold) as Hle. simpl in Hle.
      rewrite Hold in Hadm. simpl in Hadm.
      destruct (decide (4 ≤ difficultyOf allCourses code)%Z); simpl; [|lia].
      destruct (decide (2 ≤ length (hardCoursesOf allCourses old))%nat);
        [|lia].
      exfalso. by apply Hadm.
    + by eapply (Forall_lookup_1 _ _ _ _ Hhard).
  - intros c. rewrite Hperm, elem_of_union, elem_of_singleton, elem_of_cons,
      Hpl. tauto.
  - intros c. rewrite Hperm, elem_of_cons. intros [-> | Hc]; auto.
  - intros c Hc. apply Hto. eapply elem_of_sublist; [exact Hc|].
    apply sublist_delete.
  - intros c Hc. rewrite Hperm, elem_of_cons.
    destruct (Hpend c Hc) as [Hin | Hin]; [|by right; right].
    destruct (elem_of_delete_or _ i c Hin) as [Hdel | Hsame]; [by left|].
    right; left. congruence.
Qed.

Lemma Track_passBody (i : nat) (st : SchedState) :
  Track st → Track (passBody allCourses preferences alreadyTaken i st).
Proof.
  intros [HI HT]. split; [by apply SchedInv_passBody|].
  unfold passBody.
  destruct (toPlace st !! i) as [code|] eqn:Hi; [|done].
  case_bool_decide as Hplaced; [by eapply SchedTrack_drop_entry|].
  destruct (getEarliestSemester allCourses alreadyTaken code
              (placedBySemester st)) as [earliestSem|]; [|done].
  destruct (trySemesters allCourses preferences code (placedBySemester st)
              (seq earliestSem (length SEMESTERS - earliestSem)))
    as [semIdx|] eqn:Htry; [|done].
  apply trySemesters_Some_admits in Htry as [Hin Hadm].
  apply elem_of_seq in Hin.
  eapply SchedTrack_push; [done | done | done | lia | done].
Qed.

Lemma Track_passLoop (n : nat) (st : SchedState) :
  Track st → Track (passLoop allCourses preferences alreadyTaken n st).
Proof.
  revert st. induction n as [|i IH]; intros st H; simpl; [done|].
  by apply IH, Track_passBody.
Qed.

Lemma Track_whileLoop (fuel : nat) (st st' : SchedState) :
  Track st →
  whileLoop allCourses preferences alreadyTaken fuel st = Some st' →
  Track st'.
Proof.
  assert (∀ st, Track st → Track (onePass allCourses preferences
                                          alreadyTaken st)) as Hpass.
  { intros s [HI HT]. apply Track_passLoop. split.
    - destruct HI. by constructor.
    - destruct HT. by constructor. }
  revert st. induction fuel as [|f IH]; intros st H; simpl.
  - destruct (changed st && _); [done | by intros [= <-]].
  - destruct (changed st && _); [| by intros [= <-]].
    apply IH. by apply Hpass.
Qed.

(** A pass that ends with [changed] false leaves in [toPlace] only courses
    that an iteration cannot place. *)
Lemma passLoop_blocked (n : nat) (st : SchedState) :
  (n ≤ length (toPlace st))%nat →
  changed (passLoop allCourses preferences alreadyTaken n st) = false →
  ∃ X, toPlace (passLoop allCourses preferences alreadyTaken n st)
       = X ++ drop n (toPlace st) ∧
       Forall (blocked allCourses preferences alreadyTaken
                       (placedBySemester st)) X.
Proof.
  revert st. induction n as [|i IH]; intros st Hn Hch.
  - exists []. by rewrite drop_0.
  - cbn [passLoop] in *.
    set (st1 := passBody allCourses preferences alreadyTaken i st) in *.
    pose proof (passLoop_unchanged allCourses preferences alreadyTaken
                  i st1 Hch) as [_ Hch1].
    pose proof (passBody_unchanged allCourses preferences alreadyTaken
                  i st Hch1) as [_ Hpbs]. fold st1 in Hpbs.
    destruct (IH st1) as (X & HX & Hblocked); [|done|].
    { apply length_toPlace_passBody. lia. }
    rewrite Hpbs in Hblocked. rewrite HX. clear HX IH Hch.
    destruct (lookup_lt_is_Some_2 (toPlace st) i) as [code Hi]; [lia|].
    unfold st1, passBody in *. rewrite Hi in *.
    destruct (bool_decide (code ∈ placed st)).
    { exists X. split; [|done]. simpl. f_equal.
      rewrite delete_take_drop.
      rewrite drop_app_length'; [done|]. rewrite length_take_le; lia. }
    pose proof (drop_S _ _ _ Hi) as Hdrop.
    destruct (getEarliestSemester allCourses alreadyTaken code
                (placedBySemester st)) as [earliestSem|] eqn:Hearliest.
    + destruct (trySemesters allCourses preferences code (placedBySemester st)
                  (seq earliestSem (length SEMESTERS - earliestSem)))
        as [semIdx|] eqn:Htry; [discriminate Hch1|].
      exists (X ++ [code]). rewrite Hdrop, <- app_assoc. split; [done|].
      apply Forall_app. split; [done|]. apply Forall_singleton.
      unfold blocked. by rewrite Hearliest.
    + exists (X ++ [code]). rewrite Hdrop, <- app_assoc. split; [done|].
      apply Forall_app. split; [done|]. apply Forall_singleton.
      unfold blocked. by rewrite Hearliest.
Qed.

Lemma onePass_blocked (st : SchedState) :
  changed (onePass allCourses preferences alreadyTaken st) = false →
  Forall (blocked allCourses preferences alreadyTaken
            (placedBySemester (onePass allCourses preferences
                                       alreadyTaken st)))
         (toPlace (onePass allCourses preferences alreadyTaken st)).
Proof.
  intros Hch. unfold onePass in *.
  set (st0 := mkSched (toPlace st) (placedBySemester st) (placed st) false
                      (S (passes st))) in *.
  change (length (toPlace st)) with (length (toPlace st0)) in *.
  destruct (passLoop_blocked _ st0 (Nat.le_refl _) Hch) as (X & HX & Hb).
  apply passLoop_unchanged in Hch as [Hpbs _].
  rewrite HX, Hpbs. by rewrite drop_all, app_nil_r.
Qed.

Lemma whileLoop_last (fuel : nat) (st st' : SchedState) :
  changed st = true → (passes st < 20)%nat →
  whileLoop allCourses preferences alreadyTaken fuel st = Some st' →
  ∃ prev, st' = onePass allCourses preferences alreadyTaken prev.
Proof.
  revert st. induction fuel as [|f IH]; intros st Hch Hp; simpl;
    rewrite Hch, bool_decide_eq_true_2 by done; simpl; [done|].
  set (st1 := onePass allCourses preferences alreadyTaken st).
  destruct (changed st1 && bool_decide (passes st1 < 20)%nat) eqn:Hcond.
  - apply andb_true_iff in Hcond as [H1 H2].
    apply bool_decide_eq_true in H2. by apply IH.
  - intros Hrun. exists st. fold st1.
    destruct f as [|f]; cbn [whileLoop] in Hrun; rewrite Hcond in Hrun;
      by injection Hrun as <-.
Qed.
End SchedulerTracking.

Lemma elem_of_concat (l : list (list string)) (c : string) :
  c ∈ concat l ↔ ∃ y, y ∈ l ∧ c ∈ y.
Proof.
  induction l as [|x l IH]; simpl.
  - split; [intros H; by apply elem_of_nil in H
           | intros (y & Hy & _); by apply elem_of_nil in Hy].
  - rewrite elem_of_app, IH. split.
    + intros [H | (y & Hy & Hc)]; [exists x | exists y]; split; try done;
        [by left | by right].
    + intros (y & Hy & Hc). apply elem_of_cons in Hy as [-> | Hy];
        [by left | right; by exists y].
Qed.

Lemma SchedTrack_initial (allCourses : Catalog) (preferences : Preferences)
    (completedCodes inProgressCodes : gset string) :
  SchedTrack allCourses preferences (completedCodes ∪ inProgressCodes)
    (collectToPlace allCourses (completedCodes ∪ inProgressCodes))
    (initialSched allCourses completedCodes inProgressCodes).
Proof.
  constructor; simpl.
  - intros _. repeat constructor.
  - intros c. rewrite elem_of_nil. tauto.
  - intros c Hc. by apply elem_of_nil in Hc.
  - done.
  - intros c Hc. by left.
Qed.

(** The final state of the scheduler satisfies both invariants. *)
Lemma runSchedule_tracked (allCourses : Catalog) (preferences : Preferences)
    (completedCodes inProgressCodes : gset string) (st : SchedState) :
  runSchedule allCourses preferences completedCodes inProgressCodes
  = Some st →
  SchedInv allCourses preferences (completedCodes ∪ inProgressCodes) st ∧
  SchedTrack allCourses preferences (completedCodes ∪ inProgressCodes)
    (collectToPlace allCourses (completedCodes ∪ inProgressCodes)) st.
Proof.
  intros Hrun.
  eapply (Track_whileLoop allCourses preferences
            (completedCodes ∪ inProgressCodes)
            (collectToPlace allCourses (completedCodes ∪ inProgressCodes)));
    [| |exact Hrun].
  - intros c Hc. by apply elem_of_collectToPlace in Hc as [? _].
  - split; [apply SchedInv_initial | apply SchedTrack_initial].
Qed.

Lemma generateLocalSchedule_tracked (allCourses : Catalog)
    (preferences : Preferences)
    (completedCodes inProgressCodes : gset string) (plan : Plan) :
  generateLocalSchedule allCourses preferences completedCodes inProgressCodes
  = Some plan →
  ∃ st, plan = buildPlan (placedBySemester st) ∧
        objValues plan = placedBySemester st ∧
        SchedInv allCourses preferences (completedCodes ∪ inProgressCodes) st ∧
        SchedTrack allCourses preferences (completedCodes ∪ inProgressCodes)
          (collectToPlace allCourses (completedCodes ∪ inProgressCodes)) st.
Proof.
  unfold generateLocalSchedule.
  destruct (runSchedule allCourses preferences completedCodes inProgressCodes)
    as [st|] eqn:Hrun; [|done].
  simpl. intros [= <-].
  destruct (runSchedule_tracked _ _ _ _ _ Hrun) as [HI HT].
  exists st. split; [done|]. split; [|done].
  apply buildPlan_values. by destruct HI.
Qed.

(** X11. In balanced mode no semester of a scheduler plan holds more than
    two courses of difficulty 4 or more (counted as the code counts them,
    [difficulty || 3]). *)
Theorem schedule_respects_difficulty_cap (allCourses : Catalog)
    (preferences : Preferences)
    (completedCodes inProgressCodes : gset string) (plan : Plan)
    (semesterId : string) :
  generateLocalSchedule allCourses preferences completedCodes inProgressCodes
  = Some plan →
  balanced preferences = true →
  (length (filter (λ c, (4 ≤ difficultyOf allCourses c)%Z)
                  (planOf plan semesterId)) ≤ 2)%nat.
Proof.
  intros Hplan Hb.
  apply generateLocalSchedule_tracked in Hplan as (st & -> & _ & HI & HT).
  destruct (buildPlan_planOf_any (placedBySemester st) semesterId
              (inv_length _ _ _ _ HI)) as [-> | Hin].
  - simpl. lia.
  - pose proof (track_hard _ _ _ _ _ HT Hb) as Hhard.
    rewrite Forall_forall in Hhard. exact (Hhard _ Hin).
Qed.

Lemma schedule_respects_difficulty_cap_witness :
  (length (filter (λ c, (4 ≤ difficultyOf catalogChain c)%Z)
                  (planOf planChain "fall2")) ≤ 2)%nat.
Proof.
  apply (schedule_respects_difficulty_cap catalogChain defaultPreferences
           ∅ ∅ planChain "fall2").
  - vm_compute. reflexivity.
  - reflexivity.
Defined.

(** X12. The scheduler places candidates only: every course of a scheduler
    plan is an entry of the catalog that is required or of a mandatory
    category, and is neither completed nor in progress.  Electives are
    never placed, and nothing is placed that the student already has. *)
Theorem schedule_places_candidates_only (allCourses : Catalog)
    (preferences : Preferences)
    (completedCodes inProgressCodes : gset string) (plan : Plan)
    (c : string) :
  generateLocalSchedule allCourses preferences completedCodes inProgressCodes
  = Some plan →
  c ∈ allPlannedCourses plan →
  (c ∉ completedCodes) ∧ (c ∉ inProgressCodes) ∧
  ∃ info, (c, info) ∈ allCourses ∧
          (required info = true ∨ category info ∈ mandatoryCategories).
Proof.
  intros Hplan Hc.
  apply generateLocalSchedule_tracked in Hplan as (st & _ & Hvals & _ & HT).
  apply elem_of_allPlannedCourses in Hc. rewrite Hvals in Hc.
  apply (track_slots _ _ _ _ _ HT) in Hc.
  apply elem_of_collectToPlace in Hc as (Hfresh & info & Hin & Hm).
  rewrite not_elem_of_union in Hfresh. destruct Hfresh.
  split; [done|]. split; [done|]. by exists info.
Qed.

Lemma schedule_places_candidates_only_witness :
  ("CS 3114" ∉ (∅ : gset string)) ∧ ("CS 3114" ∉ (∅ : gset string)) ∧
  ∃ info, ("CS 3114", info) ∈ catalogChain ∧
          (required info = true ∨ category info ∈ mandatoryCategories).
Proof.
  apply (schedule_places_candidates_only catalogChain defaultPreferences
           ∅ ∅ planChain "CS 3114").
  - vm_compute. reflexivity.
  - apply (bool_decide_unpack _). vm_compute. exact I.
Defined.

Lemma earliestLoop_None (alreadyTaken : gset string)
    (placedBySemester : list (list string)) (prereqs : list string)
    (minSemester : nat) :
  earliestLoop alreadyTaken placedBySemester prereqs minSemester = None →
  ∃ p, p ∈ prereqs ∧ (p ∉ alreadyTaken) ∧
       findPrereqSem placedBySemester p = None.
Proof.
  revert minSemester. induction prereqs as [|q rest IH]; intros m; simpl;
    [done|].
  case_bool_decide as Hq.
  - intros H. apply IH in H as (p & Hp & Hrest). exists p.
    split; [by right | done].
  - destruct (findPrereqSem placedBySemester q) as [j|] eqn:Hj.
    + intros H. apply IH in H as (p & Hp & Hrest). exists p.
      split; [by right | done].
    + intros _. exists q. split; [by left | done].
Qed.

Lemma findPrereqSem_None (placedBySemester : list (list string))
    (prereq : string) :
  length placedBySemester = length SEMESTERS →
  findPrereqSem placedBySemester prereq = None →
  prereq ∉ concat placedBySemester.
Proof.
  unfold findPrereqSem. intros Hlen H.
  apply fmap_None, list_find_None in H.
  rewrite take_ge in H by lia. rewrite Forall_forall in H.
  intros Hin. apply elem_of_concat in Hin as (sem & Hsem & Hp).
  by apply (H sem Hsem).
Qed.

(** X13. The schedule is maximal when the loop stops before the pass
    limit: a candidate left out of the plan is one that no further pass
    could place.  Either one of its flat prerequisites is neither
    completed, in progress nor placed, or every slot from its earliest
    eligible semester on lacks room for it (credit cap, or the difficulty
    cap in balanced mode). *)
Theorem schedule_is_maximal (allCourses : Catalog)
    (preferences : Preferences)
    (completedCodes inProgressCodes : gset string) (st : SchedState)
    (code : string) :
  runSchedule allCourses preferences completedCodes inProgressCodes
  = Some st →
  (passes st < 20)%nat →
  code ∈ collectToPlace allCourses (completedCodes ∪ inProgressCodes) →
  code ∉ concat (placedBySemester st) →
  generateLocalSchedule allCourses preferences completedCodes inProgressCodes
  = Some (buildPlan (placedBySemester st)) ∧
  ((∃ info p,
      lookupCourse allCourses code = Some info ∧ p ∈ prereqs info ∧
      (p ∉ completedCodes) ∧ (p ∉ inProgressCodes) ∧
      (p ∉ concat (placedBySemester st))) ∨
   (∃ earliestSem,
      getEarliestSemester allCourses (completedCodes ∪ inProgressCodes)
                          code (placedBySemester st) = Some earliestSem ∧
      ∀ k sem, (earliestSem ≤ k)%nat →
               placedBySemester st !! k = Some sem →
               ¬ slotAdmits allCourses preferences code sem)).
Proof.
  intros Hrun Hpasses Hcand Hunplaced.
  split; [unfold generateLocalSchedule; by rewrite Hrun|].
  destruct (runSchedule_tracked _ _ _ _ _ Hrun) as [HI HT].
  destruct (runSchedule_returns allCourses preferences completedCodes
              inProgressCodes) as (st' & Hrun' & _ & Hstop & _).
  rewrite Hrun in Hrun'. injection Hrun' as <-.
  destruct Hstop as [Hch | Hlim]; [|lia].
  unfold runSchedule in Hrun.
  apply whileLoop_last in Hrun as [prev ->]; [|done | simpl; lia].
  pose proof (onePass_blocked _ _ _ _ Hch) as Hblocked.
  rewrite Forall_forall in Hblocked.
  destruct (track_pending _ _ _ _ _ HT code Hcand) as [Hin | Hin]; [|done].
  specialize (Hblocked code Hin). unfold blocked in Hblocked.
  set (final := onePass allCourses preferences
                        (completedCodes ∪ inProgressCodes) prev) in *.
  destruct (getEarliestSemester allCourses (completedCodes ∪ inProgressCodes)
              code (placedBySemester final)) as [earliestSem|] eqn:Hearliest.
  - right. exists earliestSem. split; [done|]. intros k sem Hk Hsem.
    pose proof (trySemesters_None _ _ _ _ _ Hblocked k) as Hno.
    rewrite Hsem in Hno. apply Hno. apply elem_of_seq.
    apply lookup_lt_Some in Hsem. rewrite (inv_length _ _ _ _ HI) in Hsem.
    lia.
  - left. unfold getEarliestSemester in Hearliest.
    destruct (lookupCourse allCourses code) as [info|] eqn:Hinfo; [|done].
    destruct (prereqs info) as [|q rest] eqn:Hpre; [done|].
    apply earliestLoop_None in Hearliest as (p & Hp & Hfresh & Hnone).
    apply findPrereqSem_None in Hnone; [|by destruct HI].
    rewrite not_elem_of_union in Hfresh. destruct Hfresh.
    exists info, p. rewrite Hpre. done.
Qed.

Lemma schedule_is_maximal_witness :
  ∃ st, runSchedule catalogCycle defaultPreferences ∅ ∅ = Some st ∧
        ((∃ info p,
            lookupCourse catalogCycle "A" = Some info ∧ p ∈ prereqs info ∧
            (p ∉ (∅ : gset string)) ∧ (p ∉ (∅ : gset string)) ∧
            (p ∉ concat (placedBySemester st))) ∨
         (∃ earliestSem,
            getEarliestSemester catalogCycle (∅ ∪ ∅) "A" (placedBySemester st)
            = Some earliestSem ∧
            ∀ k sem, (earliestSem ≤ k)%nat →
                     placedBySemester st !! k = Some sem →
                     ¬ slotAdmits catalogCycle defaultPreferences "A" sem)).
Proof.
  exists (mkSched ["A"; "B"] [[]; []; []; []; []; []; []; []] ∅ false 1).
  split; [vm_compute; reflexivity|].
  apply (schedule_is_maximal catalogCycle defaultPreferences ∅ ∅
           (mkSched ["A"; "B"] [[]; []; []; []; []; []; []; []] ∅ false 1) "A").
  - vm_compute. reflexivity.
  - simpl. lia.
  - apply (bool_decide_unpack _). vm_compute. exact I.
  - simpl. apply not_elem_of_nil.
Defined.

(** X14. With nothing to place the scheduler returns the empty plan: this
    is so whenever every required or mandatory-category entry of the
    catalog is already completed or in progress, and in particular for an
    empty catalog. *)
Theorem schedule_nothing_to_place (allCourses : Catalog)
    (preferences : Preferences)
    (completedCodes inProgressCodes : gset string) :
  (∀ c info, (c, info) ∈ allCourses →
             required info = true ∨ category info ∈ mandatoryCategories →
             c ∈ completedCodes ∨ c ∈ inProgressCodes) →
  generateLocalSchedule allCourses preferences completedCodes inProgressCodes
  = Some EMPTY_PLAN.
Proof.
  intros Hall.
  assert (collectToPlace allCourses (completedCodes ∪ inProgressCodes) = [])
    as Hnil.
  { destruct (collectToPlace _ _) as [|c l] eqn:Hc; [done|]. exfalso.
    assert (c ∈ collectToPlace allCourses (completedCodes ∪ inProgressCodes))
      as Hin by (rewrite Hc; by left).
    apply elem_of_collectToPlace in Hin as (Hfresh & info & Hin & Hm).
    apply Hfresh, elem_of_union. by eapply Hall. }
  unfold generateLocalSchedule, runSchedule, initialSched. rewrite Hnil.
  reflexivity.
Qed.

Lemma schedule_nothing_to_place_witness :
  generateLocalSchedule catalogChain defaultPreferences
                        {["CS 1114"; "CS 2114"; "CS 3114"]} {["MATH 1225"]}
  = Some EMPTY_PLAN.
Proof.
  apply (schedule_nothing_to_place catalogChain defaultPreferences
           {["CS 1114"; "CS 2114"; "CS 3114"]} {["MATH 1225"]}).
  intros c info Hin _. unfold catalogChain in Hin.
  repeat (apply elem_of_cons in Hin as [Hin | Hin];
          [injection Hin as -> _; set_solver|]).
  by apply elem_of_nil in Hin.
Defined.

(** ** Validator *)

Lemma getSemesterCredits_semCreditsOf (allCourses : Catalog) (plan : Plan)
    (id : string) :
  getSemesterCredits allCourses plan id
  = semCreditsOf allCourses (planOf plan id).
Proof. reflexivity. Qed.

Lemma elem_of_semesterIssues (allCourses : Catalog) (plan : Plan)
    (completedCodes inProgressCodes : gset string) (sem : Semester)
    (x : Issue) :
  x ∈ semesterIssues allCourses plan completedCodes inProgressCodes sem ↔
  (x = IssueTooHeavy (sem_name sem)
         (getSemesterCredits allCourses plan (sem_id sem)) ∧
   (18 < getSemesterCredits allCourses plan (sem_id sem))%Z) ∨
  (x = IssueDifficult (sem_name sem)
         (length (hardCoursesOf allCourses (planOf plan (sem_id sem)))) ∧
   (3 ≤ length (hardCoursesOf allCourses (planOf plan (sem_id sem))))%nat) ∨
  (∃ code, x = IssueMissingPrereqs code ∧
           code ∈ planOf plan (sem_id sem) ∧
           prereqsMet allCourses plan completedCodes inProgressCodes
                      code (sem_id sem) = false).
Proof.
  unfold semesterIssues. rewrite !elem_of_app.
  rewrite list_elem_of_fmap.
  setoid_rewrite list_elem_of_filter.
  repeat case_bool_decide; rewrite ?list_elem_of_singleton, ?elem_of_nil;
    naive_solver.
Qed.

Lemma elem_of_issues (allCourses : Catalog) (preferences : Preferences)
    (plan : Plan) (completedCodes inProgressCodes : gset string) (x : Issue) :
  x ∈ issues (generateLocalAnalysis allCourses preferences plan
                                    completedCodes inProgressCodes)
  ↔ ∃ sem, sem ∈ SEMESTERS ∧
           x ∈ semesterIssues allCourses plan completedCodes
                 inProgressCodes sem.
Proof. rewrite issues_generateLocalAnalysis. apply elem_of_concat_fmap. Qed.

(** X15. The validator raises no false alarm: every issue it lists is
    backed by a semester of the plan: an overload issue by a semester
    whose credits exceed 18 (and it quotes those credits), a difficulty
    issue by a semester with three or more hard courses (and it quotes
    their number), a missing-prerequisites issue by a course of some
    semester for which [prereqsMet] is false there. *)
Theorem generateLocalAnalysis_issues_sound (allCourses : Catalog)
    (preferences : Preferences) (plan : Plan)
    (completedCodes inProgressCodes : gset string) (x : Issue) :
  x ∈ issues (generateLocalAnalysis allCourses preferences plan
                                    completedCodes inProgressCodes) →
  ∃ sem, sem ∈ SEMESTERS ∧
    match x with
    | IssueTooHeavy semName credits =>
        semName = sem_name sem ∧
        credits = getSemesterCredits allCourses plan (sem_id sem) ∧
        (18 < credits)%Z
    | IssueDifficult semName count =>
        semName = sem_name sem ∧
        count = length (filter (λ c, (4 ≤ difficultyOf allCourses c)%Z)
                               (planOf plan (sem_id sem))) ∧
        (3 ≤ count)%nat
    | IssueMissingPrereqs code =>
        code ∈ planOf plan (sem_id sem) ∧
        prereqsMet allCourses plan completedCodes inProgressCodes
                   code (sem_id sem) = false
    end.
Proof.
  intros Hx. apply elem_of_issues in Hx as (sem & Hsem & Hx).
  exists sem. split; [done|].
  apply elem_of_semesterIssues in Hx
    as [[-> H] | [[-> H] | (code & -> & Hin & Hmet)]]; done.
Qed.

Lemma generateLocalAnalysis_issues_sound_witness :
  ∃ sem, sem ∈ SEMESTERS ∧
         "Fall Y1" = sem_name sem ∧
         19%Z = getSemesterCredits catalogOverload planOverload (sem_id sem) ∧
         (18 < 19)%Z.
Proof.
  apply (generateLocalAnalysis_issues_sound catalogOverload defaultPreferences
           planOverload ∅ ∅ (IssueTooHeavy "Fall Y1" 19)).
  apply elem_of_issues. exists (mkSemester "fall1" "Fall Y1" 1 "Fall").
  split; [by left|]. apply elem_of_semesterIssues. left. split.
  - vm_compute. reflexivity.
  - vm_compute. reflexivity.
Defined.

Lemma scheduled_prereqsMet (allCourses : Catalog) (preferences : Preferences)
    (completedCodes inProgressCodes : gset string) (st : SchedState)
    (i : nat) (sem : Semester) (code : string) :
  SchedInv allCourses preferences (completedCodes ∪ inProgressCodes) st →
  (∀ c info, lookupCourse allCourses c = Some info →
             prereqs_structured info = None) →
  SEMESTERS !! i = Some sem →
  code ∈ planOf (buildPlan (placedBySemester st)) (sem_id sem) →
  prereqsMet allCourses (buildPlan (placedBySemester st))
             completedCodes inProgressCodes code (sem_id sem) = true.
Proof.
  intros [Hlen _ _ _ Hord] Hflat Hi Hcode. unfold prereqsMet.
  destruct (lookupCourse allCourses code) as [info|] eqn:Hinfo; [|done].
  rewrite (Hflat code info Hinfo).
  rewrite forallb_bool_decide, Forall_forall. intros p Hp.
  apply elem_of_getCoursesBeforeSemester. unfold InTakenSet.
  rewrite (buildPlan_planOf _ i sem Hlen Hi) in Hcode.
  destruct (placedBySemester st !! i) as [courses|] eqn:Hslot;
    [|by apply elem_of_nil in Hcode].
  destruct (Hord i courses code info p Hslot Hcode Hinfo Hp)
    as [Ht | (j & earlier & Hj & Hearlier & Hpin)].
  - apply elem_of_union in Ht as [Ht | Ht]; auto.
  - right; right.
    destruct (SEMESTERS !! j) as [semj|] eqn:Hsemj.
    + exists j, i, semj, sem. repeat split; try done.
      rewrite (buildPlan_planOf _ j semj Hlen Hsemj). by rewrite Hearlier.
    + apply lookup_ge_None in Hsemj. apply lookup_lt_Some in Hi. lia.
Qed.

(** X16. A plan made by the scheduler passes the validator: for a catalog
    whose courses carry no requirement tree (as every course of the
    built-in catalog and every course loaded from the API), the validator
    finds no overload and no missing prerequisite in it; the only issues
    it can raise are difficulty clusters, and only outside balanced mode.
    In balanced mode the issue list is empty and the score is 100. *)
Theorem scheduled_plan_validates (allCourses : Catalog)
    (preferences : Preferences)
    (completedCodes inProgressCodes : gset string) (plan : Plan) :
  generateLocalSchedule allCourses preferences completedCodes inProgressCodes
  = Some plan →
  (∀ c info, lookupCourse allCourses c = Some info →
             prereqs_structured info = None) →
  let analysis := generateLocalAnalysis allCourses preferences plan
                                        completedCodes inProgressCodes in
  (∀ x, x ∈ issues analysis →
        balanced preferences = false ∧
        ∃ semName count, x = IssueDifficult semName count) ∧
  (balanced preferences = true →
   issues analysis = [] ∧ overallScore analysis = 100%Z).
Proof.
  intros Hplan Hflat analysis.
  apply generateLocalSchedule_tracked in Hplan as (st & -> & _ & HI & HT).
  assert (∀ x, x ∈ issues analysis →
               balanced preferences = false ∧
               ∃ semName count, x = IssueDifficult semName count) as Honly.
  { intros x Hx. apply elem_of_issues in Hx as (sem & Hsem & Hx).
    pose proof (buildPlan_planOf_any (placedBySemester st) (sem_id sem)
                  (inv_length _ _ _ _ HI)) as Hslot.
    apply elem_of_semesterIssues in Hx
      as [[-> H] | [[-> H] | (code & -> & Hin & Hmet)]].
    - exfalso. rewrite getSemesterCredits_semCreditsOf in H.
      assert (semCreditsOf allCourses
                (planOf (buildPlan (placedBySemester st)) (sem_id sem))
              ≤ maxCreditsOf preferences)%Z as Hcap.
      { destruct Hslot as [-> | Hin].
        - unfold semCreditsOf, maxCreditsOf. simpl.
          destruct (balanced preferences); lia.
        - pose proof (inv_cap _ _ _ _ HI) as Hcap.
          rewrite Forall_forall in Hcap. by apply Hcap. }
      unfold maxCreditsOf in Hcap. destruct (balanced preferences); lia.
    - destruct (balanced preferences) eqn:Hb; [exfalso | eauto].
      destruct Hslot as [Heq | Hin].
      + rewrite Heq in H. simpl in H. lia.
      + pose proof (track_hard _ _ _ _ _ HT Hb) as Hhard.
        rewrite Forall_forall in Hhard. specialize (Hhard _ Hin).
        simpl in Hhard. lia.
    - exfalso. apply list_elem_of_lookup in Hsem as [i Hi].
      rewrite (scheduled_prereqsMet _ _ _ _ _ i sem code HI Hflat Hi Hin)
        in Hmet. done. }
  split; [exact Honly|]. intros Hb.
  assert (issues analysis = []) as Hnil.
  { destruct (issues analysis) as [|x l] eqn:Hiss; [done|]. exfalso.
    destruct (Honly x) as [Hf _]; [by left | congruence]. }
  split; [done|].
  pose proof (overallScore_generateLocalAnalysis allCourses preferences
                (buildPlan (placedBySemester st)) completedCodes
                inProgressCodes) as Hscore.
  cbv zeta in Hscore. fold analysis in Hscore. rewrite Hscore, Hnil.
  cbn [length]. lia.
Qed.

Lemma scheduled_plan_validates_witness :
  issues (generateLocalAnalysis catalogChain defaultPreferences planChain ∅ ∅)
  = [].
Proof.
  pose proof (scheduled_plan_validates catalogChain defaultPreferences ∅ ∅
                planChain) as H.
  destruct H as [_ H].
  - vm_compute. reflexivity.
  - intros c info Hc. unfold lookupCourse in Hc. simpl in Hc.
    repeat (case_decide; [by injection Hc as <-|]). done.
  - by destruct (H eq_refl).
Defined.

Lemma head_insertByRating (p : Professor) (sorted : list Professor) :
  head (insertByRating p sorted)
  = Some (match head sorted with
          | None => p
          | Some q => if Qle_bool (rating q) (rating p) then p else q
          end).
Proof.
  destruct sorted as [|q rest]; simpl; [done|].
  by destruct (Qle_bool (rating q) (rating p)).
Qed.

(** The first professor after sorting is one of the list with the highest
    rating. *)
Lemma sortByRating_head (professors : list Professor) :
  match head (sortByRating professors) with
  | None => professors = []
  | Some best =>
      best ∈ professors ∧
      ∀ p, p ∈ professors → (rating p <= rating best)%Q
  end.
Proof.
  induction professors as [|p l IH]; [done|].
  change (sortByRating (p :: l)) with (insertByRating p (sortByRating l)).
  rewrite head_insertByRating.
  destruct (head (sortByRating l)) as [q|].
  - destruct IH as [Hq Hmax].
    destruct (Qle_bool (rating q) (rating p)) eqn:Hle.
    + apply Qle_bool_iff in Hle. split; [by left|].
      intros x Hx. apply elem_of_cons in Hx as [-> | Hx]; [apply Qle_refl|].
      eapply Qle_trans; [by apply Hmax | done].
    + assert (rating p <= rating q)%Q as Hpq.
      { apply Qlt_le_weak, Qnot_le_lt. intros H.
        apply Qle_bool_iff in H. congruence. }
      split; [by right|].
      intros x Hx. apply elem_of_cons in Hx as [-> | Hx]; [done | by apply Hmax].
  - subst l. split; [by left|].
    intros x Hx. apply list_elem_of_singleton in Hx as ->. apply Qle_refl.
Qed.

Lemma elem_of_professorPositives (allCourses : Catalog) (plan : Plan)
    (acc : list Positive) (x : Positive) :
  x ∈ professorPositives allCourses plan acc ↔
  x ∈ acc ∨
  ∃ code info best,
    code ∈ concat (objValues plan) ∧
    lookupCourse allCourses code = Some info ∧
    head (sortByRating (professors info)) = Some best ∧
    Qle_bool (43 # 10) (rating best) = true ∧
    x = PositiveProfessor code (prof_name best) (rating best).
Proof.
  unfold professorPositives. generalize (concat (objValues plan)).
  intros codes. revert acc.
  induction codes as [|c codes IH]; intros acc; cbn [foldl].
  - split; [by left|]. intros [H | (code & ? & ? & H & _)]; [done|].
    by apply elem_of_nil in H.
  - rewrite IH. clear IH.
    assert (∀ P : string → Prop,
              (∃ code, code ∈ c :: codes ∧ P code)
              ↔ P c ∨ ∃ code, code ∈ codes ∧ P code) as Hex.
    { intros P. split.
      - intros (code & Hin & HP).
        apply elem_of_cons in Hin as [-> | Hin]; [by left | right; eauto].
      - intros [HP | (code & Hin & HP)];
          [exists c; split; [by left | done]
          | exists code; split; [by right | done]]. }
    transitivity
      (x ∈ acc ∨
       (∃ info best,
          lookupCourse allCourses c = Some info ∧
          head (sortByRating (professors info)) = Some best ∧
          Qle_bool (43 # 10) (rating best) = true ∧
          x = PositiveProfessor c (prof_name best) (rating best)) ∨
       (∃ code info best,
          code ∈ codes ∧
          lookupCourse allCourses code = Some info ∧
          head (sortByRating (professors info)) = Some best ∧
          Qle_bool (43 # 10) (rating best) = true ∧
          x = PositiveProfessor code (prof_name best) (rating best))).
    + destruct (lookupCourse allCourses c) as [info|] eqn:Hinfo.
      2:{ split; [intros [H | H]; [by left | by right; right]|].
          intros [H | [(i & b & Hi & _) | H]];
            [by left | discriminate Hi | by right]. }
      destruct (head (sortByRating (professors info))) as [best|] eqn:Hbest.
      2:{ split; [intros [H | H]; [by left | by right; right]|].
          intros [H | [(i & b & Hi & Hb & _) | H]]; [by left | | by right].
          injection Hi as <-. rewrite Hbest in Hb. discriminate Hb. }
      destruct (Qle_bool (43 # 10) (rating best)) eqn:Hgood.
      2:{ split; [intros [H | H]; [by left | by right; right]|].
          intros [H | [(i & b & Hi & Hb & Hg & _) | H]]; [by left | | by right].
          injection Hi as <-. rewrite Hbest in Hb. injection Hb as <-.
          congruence. }
      rewrite elem_of_app, list_elem_of_singleton. split.
      * intros [[H | ->] | H]; [by left | | by right; right].
        right; left. by exists info, best.
      * intros [H | [(i & b & Hi & Hb & Hg & ->) | H]];
          [by left; left | | by right].
        injection Hi as <-. rewrite Hbest in Hb. injection Hb as <-.
        by left; right.
    + split.
      * intros [H | [(info & best & H) | (code & info & best & Hin & H)]];
          [by left | right; exists c, info, best | right; exists code, info, best];
          (split; [by (left + right) | done]).
      * intros [H | (code & info & best & Hin & H)]; [by left|].
        apply elem_of_cons in Hin as [-> | Hin];
          [right; left; by exists info, best
          | right; right; by exists code, info, best].
Qed.

Lemma positives_generateLocalAnalysis (allCourses : Catalog)
    (preferences : Preferences) (plan : Plan)
    (completedCodes inProgressCodes : gset string) :
  positives (generateLocalAnalysis allCourses preferences plan
                                   completedCodes inProgressCodes)
  = let balancedOnes :=
      concat (semesterPositives allCourses plan <$> SEMESTERS) in
    if bestProfessors preferences
    then professorPositives allCourses plan balancedOnes
    else balancedOnes.
Proof.
  unfold generateLocalAnalysis. by rewrite analyze_foldl.
Qed.

Lemma semesterPositives_balanced (allCourses : Catalog) (plan : Plan)
    (x : Positive) :
  x ∈ concat (semesterPositives allCourses plan <$> SEMESTERS) →
  ∃ semName credits, x = PositiveBalanced semName credits
                     ∧ (15 ≤ credits ≤ 16)%Z.
Proof.
  intros Hx. apply elem_of_concat_fmap in Hx as (sem & _ & Hx).
  unfold semesterPositives in Hx.
  destruct (bool_decide (15 ≤ _)%Z) eqn:H1; [|by apply elem_of_nil in Hx].
  destruct (bool_decide (_ ≤ 16)%Z) eqn:H2; [|by apply elem_of_nil in Hx].
  apply bool_decide_eq_true in H1, H2. simpl in Hx.
  apply list_elem_of_singleton in Hx as ->. eauto.
Qed.

(** X17. Professor notes of the validator.  With the [bestProfessors]
    preference off there is none.  With it on, a course gets a professor
    note exactly when it is planned, is in the catalog and has some
    professor rated 4.3 or more; the note names a professor of the course
    whose rating no other professor of the course exceeds. *)
Theorem professor_positive_spec (allCourses : Catalog)
    (preferences : Preferences) (plan : Plan)
    (completedCodes inProgressCodes : gset string) (code : string) :
  let analysis := generateLocalAnalysis allCourses preferences plan
                                        completedCodes inProgressCodes in
  (bestProfessors preferences = false →
   ∀ pname r, PositiveProfessor code pname r ∉ positives analysis) ∧
  (bestProfessors preferences = true →
   ((∃ pname r, PositiveProfessor code pname r ∈ positives analysis) ↔
    code ∈ allPlannedCourses plan ∧
    ∃ info p, lookupCourse allCourses code = Some info ∧
              p ∈ professors info ∧ (43 # 10 <= rating p)%Q) ∧
   (∀ pname r,
      PositiveProfessor code pname r ∈ positives analysis →
      ∃ info, lookupCourse allCourses code = Some info ∧
              mkProfessor pname r ∈ professors info ∧
              ∀ p, p ∈ professors info → (rating p <= r)%Q)).
Proof.
  intros analysis. unfold analysis.
  rewrite positives_generateLocalAnalysis. cbv zeta.
  assert (∀ pname r,
            PositiveProfessor code pname r
            ∉ concat (semesterPositives allCourses plan <$> SEMESTERS))
    as Hnot.
  { intros pname r Hx.
    apply semesterPositives_balanced in Hx as (? & ? & Hx & _). done. }
  split.
  - intros ->. exact Hnot.
  - intros ->.
    assert (∀ pname r,
              PositiveProfessor code pname r
              ∈ professorPositives allCourses plan
                  (concat (semesterPositives allCourses plan <$> SEMESTERS))
              ↔ code ∈ concat (objValues plan) ∧
                ∃ info best,
                  lookupCourse allCourses code = Some info ∧
                  head (sortByRating (professors info)) = Some best ∧
                  Qle_bool (43 # 10) (rating best) = true ∧
                  pname = prof_name best ∧ r = rating best) as Hchar.
    { intros pname r. rewrite elem_of_professorPositives. split.
      - intros [Hx | (c & info & best & Hin & Hinfo & Hbest & Hgood & Heq)];
          [by apply Hnot in Hx|].
        injection Heq as -> -> ->. split; [done|]. by exists info, best.
      - intros (Hin & info & best & Hinfo & Hbest & Hgood & -> & ->).
        right. by exists code, info, best. }
    split.
    + rewrite elem_of_allPlannedCourses. split.
      * intros (pname & r & Hx).
        apply Hchar in Hx as (Hin & info & best & Hinfo & Hbest & Hgood & _).
        split; [done|]. exists info, best. split; [done|].
        pose proof (sortByRating_head (professors info)) as Hmax.
        rewrite Hbest in Hmax. destruct Hmax as [Hbin _].
        split; [done | by apply Qle_bool_iff].
      * intros (Hin & info & p & Hinfo & Hp & Hgood).
        pose proof (sortByRating_head (professors info)) as Hmax.
        destruct (head (sortByRating (professors info))) as [best|] eqn:Hbest.
        -- destruct Hmax as [_ Hmax].
           exists (prof_name best), (rating best). apply Hchar.
           split; [done|]. exists info, best. repeat split; try done.
           apply Qle_bool_iff. eapply Qle_trans; [exact Hgood|].
           by apply Hmax.
        -- rewrite Hmax in Hp. by apply elem_of_nil in Hp.
    + intros pname r Hx.
      apply Hchar in Hx as (_ & info & best & Hinfo & Hbest & _ & -> & ->).
      exists info. split; [done|].
      pose proof (sortByRating_head (professors info)) as Hmax.
      rewrite Hbest in Hmax. by destruct best.
Qed.

Lemma professor_positive_spec_witness :
  ∃ pname r,
    PositiveProfessor "CS 1114" pname r
    ∈ positives
        (generateLocalAnalysis
           [("CS 1114",
             mkCourse "Intro" [] None 3 "cs_core" 2 true
                      [mkProfessor "McQuain" (42 # 10);
                       mkProfessor "Barnette" (45 # 10)])]
           (mkPreferences true true)
           (objSet EMPTY_PLAN "fall1" ["CS 1114"]) ∅ ∅).
Proof.
  pose proof (professor_positive_spec
                [("CS 1114",
                  mkCourse "Intro" [] None 3 "cs_core" 2 true
                           [mkProfessor "McQuain" (42 # 10);
                            mkProfessor "Barnette" (45 # 10)])]
                (mkPreferences true true)
                (objSet EMPTY_PLAN "fall1" ["CS 1114"]) ∅ ∅ "CS 1114")
    as [_ H].
  destruct (H eq_refl) as [Hiff _]. apply Hiff. split.
  - apply (bool_decide_unpack _). vm_compute. exact I.
  - eexists. exists (mkProfessor "Barnette" (45 # 10)).
    split; [reflexivity|]. split.
    + right. by left.
    + unfold Qle. simpl. lia.
Defined.

(** ** Catalog loader *)

Lemma objGet_snoc {V} (obj : JsObj V) (k key : string) (v : V) :
  objGet (obj ++ [(k, v)]) key
  = match objGet obj key with
    | Some x => Some x
    | None => if decide (k = key) then Some v else None
    end.
Proof.
  induction obj as [|[k' w] rest IH]; simpl; [done|].
  by destruct (decide (k' = key)).
Qed.

(** In [{ ...a, ...b }] the last entry of [b] for a key wins, and [a] is
    read for the keys [b] does not have. *)
Lemma objGet_objSpread {V} (a b : JsObj V) (key : string) :
  objGet (objSpread a b) key
  = match objGet (reverse b) key with
    | Some v => Some v
    | None => objGet a key
    end.
Proof.
  unfold objSpread. revert a.
  induction b as [|[k v] b IH]; intros a; cbn [foldl]; [done|].
  rewrite IH, reverse_cons, objGet_snoc. simpl.
  destruct (objGet (reverse b) key); [done|].
  destruct (decide (k = key)) as [->|Hne].
  - apply objGet_objSet_eq.
  - by apply objGet_objSet_ne.
Qed.

Lemma objSpread_keys_NoDup {V} (a b : JsObj V) :
  NoDup a.*1 → NoDup (objSpread a b).*1.
Proof.
  unfold objSpread. revert a.
  induction b as [|[k v] b IH]; intros a Ha; cbn [foldl]; [done|].
  apply IH. by apply objSet_keys_NoDup.
Qed.

Lemma objGet_reverse {V} (obj : JsObj V) (key : string) :
  NoDup obj.*1 → objGet (reverse obj) key = objGet obj key.
Proof.
  induction obj as [|[k v] rest IH]; [done|].
  rewrite fmap_cons, NoDup_cons. intros [Hk Hnd]. simpl in Hk.
  rewrite reverse_cons, objGet_snoc, IH by done. simpl.
  destruct (decide (k = key)) as [->|Hne]; [|by destruct (objGet rest key)].
  apply objGet_None in Hk. by rewrite Hk.
Qed.

Lemma objGet_reverse_pairs (courses : list ApiCourse) (code : string) :
  objGet (reverse ((λ c, (api_code c, convertCourse c)) <$> courses)) code
  = convertCourse <$> last (filter (λ c, api_code c = code) courses).
Proof.
  induction courses as [|c courses IH]; [done|].
  rewrite fmap_cons, reverse_cons, objGet_snoc, IH.
  destruct (decide (api_code c = code)) as [Heq|Hne].
  - rewrite filter_cons_True by done. rewrite last_cons.
    by destruct (last (filter _ courses)).
  - rewrite filter_cons_False by done.
    by destruct (last (filter _ courses)).
Qed.

Lemma lookupCourse_loadCourses (courses : list ApiCourse) (prev : Catalog)
    (code : string) :
  NoDup prev.*1 →
  lookupCourse (loadCourses (Some courses) prev) code
  = match last (filter (λ c, api_code c = code) courses) with
    | Some c => Some (convertCourse c)
    | None => lookupCourse prev code
    end.
Proof.
  intros Hkeys. unfold loadCourses, lookupCourse.
  rewrite coursesObj_spread.
  set (pairs := (λ c, (api_code c, convertCourse c)) <$> courses).
  assert (objGet (objSpread [] pairs) code
          = convertCourse <$> last (filter (λ c, api_code c = code) courses))
    as Hobj.
  { rewrite objGet_objSpread. unfold pairs. rewrite objGet_reverse_pairs.
    by destruct (last _). }
  case_bool_decide as Hlen.
  - rewrite objGet_objSpread, (objSpread_copy prev) by done.
    rewrite objGet_reverse by (apply objSpread_keys_NoDup, NoDup_nil_2).
    rewrite Hobj. by destruct (last _).
  - destruct (objSpread [] pairs) as [|e l]; [|simpl in Hlen; lia].
    simpl in Hobj. by destruct (last _).
Qed.

Lemma orThree_idemp (x : Z) : orThree (orThree x) = orThree x.
Proof.
  unfold orThree. destruct (Z.eqb_spec x 0) as [->|H]; [reflexivity|].
  by destruct (Z.eqb_spec x 0).
Qed.

Lemma orThree_nonzero (x : Z) : orThree x ≠ 0%Z.
Proof. unfold orThree. destruct (Z.eqb_spec x 0); done. Qed.

(** X18. What [loadCourses] stores, for a well-formed previous catalog.
    A failed request and an empty response leave the catalog as it was.
    Otherwise a code that the response does not mention keeps its previous
    entry; a code that it mentions gets the converted record of the last
    course of the response with that code, whatever the catalog held
    before; the stored credits are never 0, so such a course counts for
    its own credits, or 3 when the response gave none; and the result is
    again an object with distinct keys. *)
Theorem loadCourses_spec (courses : list ApiCourse) (prev : Catalog)
    (code : string) :
  NoDup prev.*1 →
  let next := loadCourses (Some courses) prev in
  loadCourses None prev = prev ∧
  loadCourses (Some []) prev = prev ∧
  NoDup next.*1 ∧
  (code ∉ api_code <$> courses →
   lookupCourse next code = lookupCourse prev code) ∧
  (∀ c, last (filter (λ c, api_code c = code) courses) = Some c →
        lookupCourse next code = Some (convertCourse c) ∧
        creditsOf next code = orThree (api_credits c) ∧
        creditsOf next code ≠ 0%Z ∧
        difficultyOf next code = orThree (api_difficulty c)).
Proof.
  intros Hkeys next. split; [done|]. split; [done|]. split; [|split].
  - unfold next, loadCourses. case_bool_decide; [|done].
    apply objSpread_keys_NoDup. by rewrite objSpread_copy.
  - intros Hnot. unfold next. rewrite lookupCourse_loadCourses by done.
    destruct (last (filter _ courses)) as [c|] eqn:Hlast; [|done].
    exfalso. apply Hnot. apply last_Some_elem_of in Hlast.
    apply list_elem_of_filter in Hlast as [<- Hin].
    apply list_elem_of_fmap. by exists c.
  - intros c Hlast.
    assert (lookupCourse next code = Some (convertCourse c)) as Hlook.
    { unfold next. rewrite lookupCourse_loadCourses by done.
      by rewrite Hlast. }
    unfold creditsOf, difficultyOf. rewrite Hlook. simpl.
    rewrite !orThree_idemp. repeat split; try done. apply orThree_nonzero.
Qed.

Lemma loadCourses_spec_witness :
  lookupCourse (loadCourses (Some [sampleApiCourse "CS 9999" 0;
                                   sampleApiCourse "CS 9999" 4])
                            catalogChain) "CS 1114"
  = lookupCourse catalogChain "CS 1114".
Proof.
  pose proof (loadCourses_spec [sampleApiCourse "CS 9999" 0;
                                sampleApiCourse "CS 9999" 4]
                catalogChain "CS 1114") as H.
  destruct H as (_ & _ & _ & H & _).
  - apply (bool_decide_unpack _). vm_compute. exact I.
  - apply H. apply (bool_decide_unpack _). vm_compute. exact I.
Defined.

(** ** Degree progress *)

Lemma len_completedIn_mono (completed completed' : gset string)
    (pool : list string) :
  completed ⊆ completed' →
  (len (completedIn completed pool) ≤ len (completedIn completed' pool))%Z.
Proof.
  intros Hsub. unfold len, completedIn.
  induction pool as [|c pool IH]; [done|].
  destruct (decide (c ∈ completed)) as [Hc|Hc].
  - rewrite !filter_cons_True by auto. simpl. lia.
  - rewrite (filter_cons_False _ c pool Hc).
    destruct (decide (c ∈ completed')).
    + rewrite filter_cons_True by done. simpl. lia.
    + by rewrite filter_cons_False.
Qed.

Lemma roundPercent_mono (n m den : Z) :
  (0 ≤ den)%Z → (n ≤ m)%Z → (roundPercent n den ≤ roundPercent m den)%Z.
Proof.
  intros Hden Hnm. unfold roundPercent.
  destruct (decide (den = 0%Z)) as [->|Hne].
  - by rewrite !Z.div_0_r.
  - apply Z.div_le_mono; lia.
Qed.

(** X19. Completing more courses never lowers the progress report: when
    the completed set grows (whatever happens to the planned set), the
    percent of each of the seven requirement buckets, the number of
    requirements counted as completed and the overall percent can only
    stay or go up. *)
Theorem degreeProgress_monotone (allCourses : Catalog)
    (completed completed' planned planned' : gset string) :
  completed ⊆ completed' →
  let before := degreeProgress allCourses completed planned in
  let after := degreeProgress allCourses completed' planned' in
  Forall (λ bucket : DegreeProgress → CategoryProgress,
            (cat_percent (bucket before) ≤ cat_percent (bucket after))%Z
            ∧ (addCompleted (bucket before) ≤ addCompleted (bucket after))%Z)
         [cs_core; cs_systems; math_core; stats; science; cs_electives;
          capstone] ∧
  (ov_completedCourses (overall before)
   ≤ ov_completedCourses (overall after))%Z ∧
  (ov_percent (overall before) ≤ ov_percent (overall after))%Z.
Proof.
  intros Hsub before after.
  pose proof (λ pool, len_completedIn_mono completed completed' pool Hsub)
    as Hlen.
  pose proof (λ pool, len_nonneg (completedIn completed pool)) as Hpos.
  assert (∀ required,
            let b := requiredListProgress completed planned required in
            let a := requiredListProgress completed' planned' required in
            (cat_percent b ≤ cat_percent a)%Z
            ∧ (addCompleted b ≤ addCompleted a)%Z) as Hreq.
  { intros required. simpl. split; [|apply Hlen].
    apply roundPercent_mono; [apply len_nonneg | apply Hlen]. }
  assert (∀ from,
            let b := chooseOneProgress completed planned from in
            let a := chooseOneProgress completed' planned' from in
            (cat_percent b ≤ cat_percent a)%Z
            ∧ (addCompleted b ≤ addCompleted a)%Z) as Hone.
  { intros from. simpl. specialize (Hlen from). specialize (Hpos from).
    split; [repeat case_bool_decide; lia | lia]. }
  assert (let b := systemsProgress completed planned in
          let a := systemsProgress completed' planned' in
          (cat_percent b ≤ cat_percent a)%Z
          ∧ (addCompleted b ≤ addCompleted a)%Z) as Hsys.
  { simpl. specialize (Hlen systemsOptions).
    assert ((if bool_decide ("CS 4104" ∈ completed) then 1 else 0)
            ≤ (if bool_decide ("CS 4104" ∈ completed') then 1 else 0))%Z
      as H4104.
    { repeat case_bool_decide; try lia. exfalso. auto. }
    split; [apply roundPercent_mono|]; lia. }
  assert (let b := electivesProgress allCourses completed planned in
          let a := electivesProgress allCourses completed' planned' in
          (cat_percent b ≤ cat_percent a)%Z
          ∧ (addCompleted b ≤ addCompleted a)%Z) as Helec.
  { simpl. specialize (Hlen (csElectivesOf allCourses)).
    split; [apply roundPercent_mono|]; lia. }
  pose proof (Hreq REQ_cs_core) as Hcore.
  pose proof (Hreq REQ_math_core) as Hmath.
  pose proof (Hreq REQ_science) as Hsci.
  pose proof (Hone REQ_stats_from) as Hstats.
  pose proof (Hone REQ_capstone_from) as Hcap.
  cbv zeta in Hcore, Hmath, Hsci, Hstats, Hcap, Hsys, Helec.
  assert (ov_completedCourses (overall before)
          ≤ ov_completedCourses (overall after))%Z as Htotal.
  { unfold before, after, degreeProgress.
    cbn [overall ov_completedCourses foldl]. lia. }
  split; [|split; [exact Htotal|]].
  - repeat (apply Forall_cons_2; [done|]). apply Forall_nil_2.
  - unfold before, after, degreeProgress in *.
    cbn [overall ov_percent ov_completedCourses foldl] in *.
    apply roundPercent_mono; [|exact Htotal].
    cbn -[Z.add Z.of_nat]. unfold len. lia.
Qed.

Lemma degreeProgress_monotone_witness :
  (ov_percent (overall (degreeProgress catalogChain ∅ ∅))
   ≤ ov_percent (overall (degreeProgress catalogChain {["CS 1114"]} ∅)))%Z.
Proof.
  pose proof (degreeProgress_monotone catalogChain ∅ {["CS 1114"]} ∅ ∅) as H.
  destruct H as (_ & _ & H); [|exact H].
  apply empty_subseteq.
Defined.

Lemma len_plannedIn_nonneg (completed planned : gset string)
    (pool : list string) : (0 ≤ len (plannedIn completed planned pool))%Z.
Proof. apply len_nonneg. Qed.

(** X20. Planned courses in the progress report.  As long as at most three
    electives of the pool are completed, no bucket counts a negative number
    of planned courses and the percent with planned courses is at least
    the percent without.  Once more than three are completed, the elective
    bucket contributes the negative number [3 - n] to the planned total. *)
Theorem degreeProgress_planned (allCourses : Catalog)
    (completed planned : gset string) :
  let progress := degreeProgress allCourses completed planned in
  let n := len (cat_completed (cs_electives progress)) in
  ((n ≤ 3)%Z →
   (0 ≤ ov_plannedCourses (overall progress))%Z ∧
   (ov_percent (overall progress)
    ≤ ov_percentWithPlanned (overall progress))%Z) ∧
  ((3 < n)%Z →
   addPlanned (cs_electives progress) = (3 - n)%Z ∧
   (addPlanned (cs_electives progress) < 0)%Z).
Proof.
  intros progress n. unfold n, progress, degreeProgress.
  cbn [cs_electives overall ov_plannedCourses ov_percent
       ov_percentWithPlanned foldl].
  set (elec := electivesProgress allCourses completed planned).
  pose proof (len_nonneg (plannedIn completed planned
                                    (csElectivesOf allCourses))) as Hpe.
  split.
  - intros Hn.
    pose proof (len_nonneg (plannedIn completed planned REQ_cs_core)).
    pose proof (len_nonneg (plannedIn completed planned REQ_math_core)).
    pose proof (len_nonneg (plannedIn completed planned REQ_science)).
    pose proof (len_nonneg (plannedIn completed planned systemsOptions)).
    pose proof (len_nonneg (plannedIn completed planned REQ_stats_from)).
    pose proof (len_nonneg (plannedIn completed planned REQ_capstone_from)).
    assert (0 ≤ addPlanned (requiredListProgress completed planned REQ_cs_core)
            ∧ 0 ≤ addPlanned (systemsProgress completed planned)
            ∧ 0 ≤ addPlanned (requiredListProgress completed planned
                                                    REQ_math_core)
            ∧ 0 ≤ addPlanned (chooseOneProgress completed planned
                                                REQ_stats_from)
            ∧ 0 ≤ addPlanned (requiredListProgress completed planned
                                                   REQ_science)
            ∧ 0 ≤ addPlanned elec
            ∧ 0 ≤ addPlanned (chooseOneProgress completed planned
                                                REQ_capstone_from))%Z
      as (Ha & Hb & Hc & Hd & He & Hf & Hg).
    { unfold elec. simpl in *. repeat split; try done;
        repeat case_bool_decide; simpl; lia. }
    assert (0 ≤ 0 + addPlanned (requiredListProgress completed planned
                                                      REQ_cs_core)
                  + addPlanned (systemsProgress completed planned)
                  + addPlanned (requiredListProgress completed planned
                                                     REQ_math_core)
                  + addPlanned (chooseOneProgress completed planned
                                                  REQ_stats_from)
                  + addPlanned (requiredListProgress completed planned
                                                     REQ_science)
                  + addPlanned elec
                  + addPlanned (chooseOneProgress completed planned
                                                  REQ_capstone_from))%Z
      as Hsum by lia.
    split; [exact Hsum|].
    apply roundPercent_mono; [|lia].
    cbn -[Z.add Z.of_nat]. unfold len. lia.
  - intros Hn. unfold elec. simpl in *. lia.
Qed.

Lemma degreeProgress_planned_witness :
  (let progress :=
     degreeProgress catalogElectives twoElectives
                    {["CS 4804"; "CS 1114"; "STAT 3006"]} in
   (0 ≤ ov_plannedCourses (overall progress))%Z ∧
   (ov_percent (overall progress)
    ≤ ov_percentWithPlanned (overall progress))%Z) ∧
  (let progress :=
     degreeProgress catalogElectives fiveElectives {["CS 1114"]} in
   addPlanned (cs_electives progress) = (-2)%Z ∧
   (addPlanned (cs_electives progress) < 0)%Z).
Proof.
  split.
  - pose proof (degreeProgress_planned catalogElectives twoElectives
                  {["CS 4804"; "CS 1114"; "STAT 3006"]}) as [H _].
    apply H. vm_compute. discriminate.
  - pose proof (degreeProgress_planned catalogElectives fiveElectives
                  {["CS 1114"]}) as [_ H].
    apply H. vm_compute. reflexivity.
Defined.

(** ** Prerequisite chain *)

Lemma lookupCourse_in_catalogCodes (allCourses : Catalog) (code : string)
    (info : CourseInfo) :
  lookupCourse allCourses code = Some info → code ∈ catalogCodes allCourses.
Proof.
  intros H. apply objGet_Some_elem_of in H.
  apply elem_of_list_to_set, list_elem_of_fmap. by exists (code, info).
Qed.

Lemma getPrereqChain_depth_mono (allCourses : Catalog) (d d' : nat)
    (code : string) (visited : gset string) (chain : PrereqChain) :
  (d ≤ d')%nat →
  getPrereqChain d allCourses code visited = Some chain →
  getPrereqChain d' allCourses code visited = Some chain.
Proof.
  revert d' code visited chain.
  induction d as [|d IH]; intros d' code visited chain Hd; [done|].
  destruct d' as [|d']; [lia|]. cbn [getPrereqChain].
  case_bool_decide; [done|].
  destruct (lookupCourse allCourses code) as [info|]; [|done].
  destruct (mapM (λ p, getPrereqChain d allCourses p ({[code]} ∪ visited))
                 (prereqs info)) as [kids|] eqn:Hkids; [|done].
  simpl. intros [= <-].
  apply mapM_Some in Hkids.
  assert (mapM (λ p, getPrereqChain d' allCourses p ({[code]} ∪ visited))
               (prereqs info) = Some kids) as ->; [|done].
  apply mapM_Some. eapply Forall2_impl; [exact Hkids|].
  intros p kid Hp. apply IH; [lia | done].
Qed.

(** The recursion returns as soon as the depth exceeds the number of
    catalog codes not yet visited. *)
Lemma getPrereqChain_returns (allCourses : Catalog) (d : nat)
    (code : string) (visited : gset string) :
  (size (catalogCodes allCourses ∖ visited) < d)%nat →
  is_Some (getPrereqChain d allCourses code visited).
Proof.
  revert code visited. induction d as [|d IH]; intros code visited Hd; [lia|].
  cbn [getPrereqChain]. case_bool_decide as Hvisited; [by eexists|].
  destruct (lookupCourse allCourses code) as [info|] eqn:Hinfo; [|by eexists].
  apply lookupCourse_in_catalogCodes in Hinfo.
  assert (size (catalogCodes allCourses ∖ ({[code]} ∪ visited)) < d)%nat
    as Hless.
  { assert (catalogCodes allCourses ∖ ({[code]} ∪ visited)
            ⊂ catalogCodes allCourses ∖ visited) as Hsub.
    { split; [set_solver|]. intros Hsup.
      assert (code ∈ catalogCodes allCourses ∖ ({[code]} ∪ visited))
        as Hin by (apply Hsup; set_solver).
      set_solver. }
    apply subset_size in Hsub. lia. }
  destruct (mapM_is_Some_2
              (λ p, getPrereqChain d allCourses p ({[code]} ∪ visited))
              (prereqs info)) as [kids ->]; [|by eexists].
  apply Forall_forall. intros p _. by apply IH.
Qed.

Lemma chainDepth_fold_le (kids : list PrereqChain) (n : nat) :
  Forall (λ kid, chainDepth kid ≤ n)%nat kids →
  (foldr (λ p acc, chainDepth p `max` acc) 0 kids ≤ n)%nat.
Proof. induction 1; simpl; lia. Qed.

Lemma getPrereqChain_depth_le (allCourses : Catalog) (d : nat)
    (code : string) (visited : gset string) (chain : PrereqChain) :
  getPrereqChain d allCourses code visited = Some chain →
  (chainDepth chain ≤ S (size (catalogCodes allCourses ∖ visited)))%nat.
Proof.
  revert code visited chain.
  induction d as [|d IH]; intros code visited chain; [done|].
  cbn [getPrereqChain]. case_bool_decide as Hvisited.
  { intros [= <-]. simpl. lia. }
  destruct (lookupCourse allCourses code) as [info|] eqn:Hinfo.
  2:{ intros [= <-]. simpl. lia. }
  apply lookupCourse_in_catalogCodes in Hinfo.
  destruct (mapM (λ p, getPrereqChain d allCourses p ({[code]} ∪ visited))
                 (prereqs info)) as [kids|] eqn:Hkids; [|done].
  simpl. intros [= <-]. simpl. apply le_n_S.
  assert (S (size (catalogCodes allCourses ∖ ({[code]} ∪ visited)))
          ≤ size (catalogCodes allCourses ∖ visited))%nat as Hless.
  { assert (catalogCodes allCourses ∖ ({[code]} ∪ visited)
            ⊂ catalogCodes allCourses ∖ visited) as Hsub.
    { split; [set_solver|]. intros Hsup.
      assert (code ∈ catalogCodes allCourses ∖ ({[code]} ∪ visited))
        as Hin by (apply Hsup; set_solver).
      set_solver. }
    apply subset_size in Hsub. lia. }
  apply chainDepth_fold_le.
  apply mapM_Some in Hkids. eapply Forall2_Forall_r; [exact Hkids|].
  apply Forall_forall. intros p _ kid Hp. apply IH in Hp. lia.
Qed.

Lemma getPrereqChain_flagged (allCourses : Catalog) (d : nat)
    (code : string) (visited : gset string) (chain : PrereqChain) :
  getPrereqChain d allCourses code visited = Some chain →
  WellFlagged visited chain.
Proof.
  revert code visited chain.
  induction d as [|d IH]; intros code visited chain; [done|].
  cbn [getPrereqChain]. case_bool_decide as Hvisited.
  { intros [= <-]. by constructor. }
  destruct (lookupCourse allCourses code) as [info|] eqn:Hinfo.
  2:{ intros [= <-]. by constructor. }
  destruct (mapM (λ p, getPrereqChain d allCourses p ({[code]} ∪ visited))
                 (prereqs info)) as [kids|] eqn:Hkids; [|done].
  simpl. intros [= <-]. constructor; [done|].
  apply mapM_Some in Hkids. eapply Forall2_Forall_r; [exact Hkids|].
  apply Forall_forall. intros p _ kid Hp. by eapply IH.
Qed.

(** X21. [getPrereqChain] returns for every catalog, cyclic ones included:
    from a depth of one more than the number of catalog codes on, the call
    from the empty visited set returns one and the same chain, and that
    chain is no deeper than that bound. *)
Theorem getPrereqChain_terminates (allCourses : Catalog) (code : string) :
  ∃ chain,
    (∀ d, (size (catalogCodes allCourses) < d)%nat →
          getPrereqChain d allCourses code ∅ = Some chain) ∧
    (chainDepth chain ≤ S (size (catalogCodes allCourses)))%nat ∧
    chainCode chain = code.
Proof.
  assert (catalogCodes allCourses ∖ ∅ = catalogCodes allCourses) as Hall
    by set_solver.
  destruct (getPrereqChain_returns allCourses
              (S (size (catalogCodes allCourses))) code ∅) as [chain Hchain].
  { rewrite Hall. lia. }
  exists chain. split; [|split].
  - intros d Hd. eapply getPrereqChain_depth_mono; [|exact Hchain]. lia.
  - apply getPrereqChain_depth_le in Hchain. by rewrite Hall in Hchain.
  - cbn [getPrereqChain] in Hchain.
    rewrite bool_decide_eq_false_2 in Hchain by set_solver.
    destruct (lookupCourse allCourses code) as [info|];
      [|by injection Hchain as <-].
    destruct (mapM _ _); [|done]. simpl in Hchain. by injection Hchain as <-.
Qed.

(** X22. The revisit guard of [getPrereqChain]: in every chain it returns
    no code occurs twice on a path from the root, except at a leaf marked
    circular, and a node is marked circular exactly when its code is that
    of one of its ancestors (or was handed in as visited); such a node has
    no children. *)
Theorem getPrereqChain_guard (allCourses : Catalog) (d : nat)
    (code : string) (visited : gset string) (chain : PrereqChain) :
  getPrereqChain d allCourses code visited = Some chain →
  WellFlagged visited chain ∧
  chainCode chain = code ∧
  (chainCircular chain = true ↔ code ∈ visited) ∧
  (chainCircular chain = true → chainPrereqs chain = []).
Proof.
  intros Hchain. split; [by eapply getPrereqChain_flagged|].
  destruct d as [|d]; [done|]. cbn [getPrereqChain] in Hchain.
  case_bool_decide as Hvisited.
  { injection Hchain as <-. simpl. done. }
  destruct (lookupCourse allCourses code) as [info|].
  2:{ injection Hchain as <-. simpl. split; [done|]. split; [|done].
      split; [done | by intros ?]. }
  destruct (mapM _ _); [|done]. simpl in Hchain. injection Hchain as <-.
  simpl. split; [done|]. split; [|done]. split; [done | by intros ?].
Qed.

Lemma getPrereqChain_guard_witness :
  WellFlagged ∅
    (ChainNode "A" (Some EmptyString)
       [ChainNode "B" (Some EmptyString)
          [ChainNode "A" None [] true] false] false).
Proof.
  apply (getPrereqChain_guard catalogCycle 3 "A" ∅).
  vm_compute. reflexivity.
Defined.

Lemma objGet_elem_of_NoDup {V} (obj : JsObj V) (key : string) (v : V) :
  NoDup obj.*1 → (key, v) ∈ obj → objGet obj key = Some v.
Proof.
  induction obj as [|[k w] rest IH]; [by intros _ H; apply elem_of_nil in H|].
  rewrite fmap_cons, NoDup_cons. simpl. intros [Hk Hnd] Hin.
  apply elem_of_cons in Hin as [[= -> ->] | Hin].
  - by rewrite decide_True.
  - rewrite decide_False; [by apply IH|].
    intros ->. apply Hk. apply list_elem_of_fmap. by exists (key, v).
Qed.

(** X23. [getCoursesRequiring] is the converse of the first level of
    [getPrereqChain]: in a well-formed catalog a course is listed as
    requiring [code] exactly when it is a catalog course whose flat list
    holds [code], which is exactly when [code] is among the direct
    prerequisites its own chain shows. *)
Theorem getCoursesRequiring_spec (allCourses : Catalog)
    (code course : string) :
  NoDup allCourses.*1 →
  (course ∈ (getCoursesRequiring allCourses code).*1 ↔
   ∃ info, lookupCourse allCourses course = Some info ∧
           code ∈ prereqs info) ∧
  (∀ d chain,
     getPrereqChain d allCourses course ∅ = Some chain →
     (course ∈ (getCoursesRequiring allCourses code).*1 ↔
      code ∈ chainCode <$> chainPrereqs chain)).
Proof.
  intros Hkeys.
  assert (course ∈ (getCoursesRequiring allCourses code).*1 ↔
          ∃ info, lookupCourse allCourses course = Some info ∧
                  code ∈ prereqs info) as Hiff.
  { unfold getCoursesRequiring. rewrite <- list_fmap_compose. split.
    - intros Hin. apply list_elem_of_fmap in Hin as ([k info] & -> & Hin).
      apply list_elem_of_filter in Hin as [Hreq Hin]. simpl in *.
      exists info. split; [by apply objGet_elem_of_NoDup | done].
    - intros (info & Hinfo & Hreq). apply list_elem_of_fmap.
      exists (course, info). split; [done|].
      apply list_elem_of_filter. split; [done|].
      by apply objGet_Some_elem_of. }
  split; [exact Hiff|].
  intros d chain Hchain. rewrite Hiff. clear Hiff.
  destruct d as [|d]; [done|]. cbn [getPrereqChain] in Hchain.
  rewrite bool_decide_eq_false_2 in Hchain by set_solver.
  destruct (lookupCourse allCourses course) as [info|].
  2:{ injection Hchain as <-. simpl. split; [by intros (? & ? & _)|].
      intros H. by apply elem_of_nil in H. }
  destruct (mapM (λ p, getPrereqChain d allCourses p ({[course]} ∪ ∅))
                 (prereqs info)) as [kids|] eqn:Hkids; [|done].
  simpl in Hchain. injection Hchain as <-. simpl.
  assert (chainCode <$> kids = prereqs info) as ->.
  { apply mapM_Some in Hkids. clear -Hkids.
    induction Hkids as [|p kid ps kids Hp _ IH]; [done|].
    simpl. f_equal; [|exact IH].
    destruct d as [|d]; [done|]. cbn [getPrereqChain] in Hp.
    destruct (bool_decide _); [by injection Hp as <-|].
    destruct (lookupCourse allCourses p); [|by injection Hp as <-].
    destruct (mapM _ _); [|done]. simpl in Hp. by injection Hp as <-. }
  split; [by intros (i & [= <-] & ?) | intros ?; by exists info].
Qed.

Lemma getCoursesRequiring_spec_witness :
  "CS 2114" ∈ (getCoursesRequiring catalogChain "CS 1114").*1.
Proof.
  pose proof (getCoursesRequiring_spec catalogChain "CS 1114" "CS 2114")
    as [H _].
  - apply (bool_decide_unpack _). vm_compute. exact I.
  - apply H. eexists. split; [reflexivity|]. by left.
Defined.

Lemma getPrereqChain_terminates_witness :
  ∃ chain, getPrereqChain 3 catalogCycle "A" ∅ = Some chain.
Proof.
  destruct (getPrereqChain_terminates catalogCycle "A") as (chain & H & _).
  exists chain. apply H. vm_compute. lia.
Defined.

(** ** Requirement trees *)

Lemma evaluatePrereqTree_leaves (codes : list string) (T : gset string) :
  evaluatePrereqTree (NodeAnd (NodeCourse <$> codes)) T
  = forallb (λ p, bool_decide (p ∈ T)) codes.
Proof.
  induction codes as [|c codes IH]; [done|].
  rewrite fmap_cons. cbn [evaluatePrereqTree forallb] in *. by rewrite IH.
Qed.

(** X24. A requirement tree that is the AND of COURSE leaves for the codes
    of the flat list changes nothing: [prereqsMet] gives the same answer
    as for the catalog without trees, in every semester of every plan. *)
Theorem prereqsMet_lowered_tree (allCourses : Catalog) (plan : Plan)
    (completedCodes inProgressCodes : gset string)
    (code semesterId : string) (info : CourseInfo) :
  lookupCourse allCourses code = Some info →
  prereqs_structured info = Some (NodeAnd (NodeCourse <$> prereqs info)) →
  prereqsMet allCourses plan completedCodes inProgressCodes code semesterId
  = prereqsMet (stripTrees allCourses) plan completedCodes inProgressCodes
               code semesterId.
Proof.
  intros Hinfo Htree. unfold prereqsMet.
  rewrite lookupCourse_stripTrees, Hinfo. simpl. rewrite Htree.
  apply evaluatePrereqTree_leaves.
Qed.

Lemma prereqsMet_lowered_tree_witness :
  prereqsMet [("X", sampleCourse ["A"] (Some (NodeAnd [NodeCourse "A"]))
                                 3 "cs_core" 2 true)]
             EMPTY_PLAN ∅ ∅ "X" "fall1"
  = prereqsMet (stripTrees
                  [("X", sampleCourse ["A"] (Some (NodeAnd [NodeCourse "A"]))
                                      3 "cs_core" 2 true)])
               EMPTY_PLAN ∅ ∅ "X" "fall1".
Proof.
  apply (prereqsMet_lowered_tree _ EMPTY_PLAN ∅ ∅ "X" "fall1"
           (sampleCourse ["A"] (Some (NodeAnd [NodeCourse "A"]))
                         3 "cs_core" 2 true)); reflexivity.
Defined.

(** X25. Edge cases of [evaluatePrereqTree].  An AND without children is
    satisfied and an OR without children is not.  A [null] child and a
    child of unrecognised type count as satisfied: inside an AND they are
    ignored, inside an OR they satisfy the whole OR whatever has been
    taken.  In particular a course whose tree is an OR holding such a
    child has its prerequisites met in every semester of every plan. *)
Theorem evaluatePrereqTree_edge_cases (T : gset string)
    (before after : list PrereqNode) (odd : PrereqNode) :
  odd = NodeNull ∨ odd = NodeOther →
  evaluatePrereqTree (NodeAnd []) T = true ∧
  evaluatePrereqTree (NodeOr []) T = false ∧
  evaluatePrereqTree odd T = true ∧
  evaluatePrereqTree (NodeAnd (before ++ odd :: after)) T
  = evaluatePrereqTree (NodeAnd (before ++ after)) T ∧
  evaluatePrereqTree (NodeOr (before ++ odd :: after)) T = true ∧
  (∀ allCourses plan completedCodes inProgressCodes code semesterId info,
     lookupCourse allCourses code = Some info →
     prereqs_structured info = Some (NodeOr (before ++ odd :: after)) →
     prereqsMet allCourses plan completedCodes inProgressCodes
                code semesterId = true).
Proof.
  intros Hodd.
  assert (evaluatePrereqTree odd T = true) as Ht by (by destruct Hodd as [-> | ->]).
  assert (∀ T', evaluatePrereqTree (NodeOr (before ++ odd :: after)) T' = true)
    as Hor.
  { intros T'. simpl. rewrite existsb_app. simpl.
    assert (evaluatePrereqTree odd T' = true) as ->
      by (by destruct Hodd as [-> | ->]).
    by rewrite orb_true_r. }
  split; [done|]. split; [done|]. split; [done|]. split; [|split; [apply Hor|]].
  - simpl. rewrite !forallb_app. simpl. by rewrite Ht.
  - intros allCourses plan completedCodes inProgressCodes code semesterId info
           Hinfo Htree.
    unfold prereqsMet. rewrite Hinfo, Htree. apply Hor.
Qed.

Lemma evaluatePrereqTree_edge_cases_witness :
  evaluatePrereqTree (NodeOr ([NodeCourse "A"] ++ NodeNull :: [])) ∅ = true.
Proof.
  pose proof (evaluatePrereqTree_edge_cases ∅ [NodeCourse "A"] [] NodeNull
                (or_introl eq_refl)) as (_ & _ & _ & _ & H & _).
  exact H.
Defined.

Lemma forallb_Permutation {A} (f : A → bool) (l k : list A) :
  l ≡ₚ k → forallb f l = forallb f k.
Proof.
  induction 1 as [|x l k _ IH|x y l|l k m _ IH1 _ IH2]; simpl.
  - done.
  - by rewrite IH.
  - by rewrite !andb_assoc, (andb_comm (f y)).
  - congruence.
Qed.

Lemma existsb_Permutation {A} (f : A → bool) (l k : list A) :
  l ≡ₚ k → existsb f l = existsb f k.
Proof.
  induction 1 as [|x l k _ IH|x y l|l k m _ IH1 _ IH2]; simpl.
  - done.
  - by rewrite IH.
  - by rewrite !orb_assoc, (orb_comm (f y)).
  - congruence.
Qed.

(** X26. AND and OR nodes behave as conjunction and disjunction of their
    children: the order of the children and a nested node of the same
    kind make no difference, a node with one child evaluates as that
    child, and an AND (OR) over two lists is the [&&] ([||]) of the AND
    (OR) over each. *)
Theorem evaluatePrereqTree_algebra (T : gset string)
    (rs rs' inner : list PrereqNode) (r : PrereqNode) :
  (rs ≡ₚ rs' →
   evaluatePrereqTree (NodeAnd rs) T = evaluatePrereqTree (NodeAnd rs') T ∧
   evaluatePrereqTree (NodeOr rs) T = evaluatePrereqTree (NodeOr rs') T) ∧
  evaluatePrereqTree (NodeAnd (NodeAnd inner :: rs)) T
  = evaluatePrereqTree (NodeAnd (inner ++ rs)) T ∧
  evaluatePrereqTree (NodeOr (NodeOr inner :: rs)) T
  = evaluatePrereqTree (NodeOr (inner ++ rs)) T ∧
  evaluatePrereqTree (NodeAnd [r]) T = evaluatePrereqTree r T ∧
  evaluatePrereqTree (NodeOr [r]) T = evaluatePrereqTree r T ∧
  evaluatePrereqTree (NodeAnd (rs ++ rs')) T
  = evaluatePrereqTree (NodeAnd rs) T && evaluatePrereqTree (NodeAnd rs') T ∧
  evaluatePrereqTree (NodeOr (rs ++ rs')) T
  = evaluatePrereqTree (NodeOr rs) T || evaluatePrereqTree (NodeOr rs') T.
Proof.
  split; [|split; [|split; [|split; [|split; [|split]]]]].
  - intros Hperm. simpl.
    split; [by apply forallb_Permutation | by apply existsb_Permutation].
  - simpl. by rewrite forallb_app.
  - simpl. by rewrite existsb_app.
  - simpl. by rewrite andb_true_r.
  - simpl. by rewrite orb_false_r.
  - simpl. by rewrite forallb_app.
  - simpl. by rewrite existsb_app.
Qed.

Lemma evaluatePrereqTree_algebra_witness :
  evaluatePrereqTree (NodeAnd [NodeCourse "A"; NodeCourse "B"]) {["A"]}
  = evaluatePrereqTree (NodeAnd [NodeCourse "B"; NodeCourse "A"]) {["A"]}.
Proof.
  pose proof (evaluatePrereqTree_algebra {["A"]}
                [NodeCourse "A"; NodeCourse "B"]
                [NodeCourse "B"; NodeCourse "A"] [] NodeNull) as (H & _).
  apply H. apply perm_swap.
Defined.
